(** * LogicAudio: tempo, loudness, auto-gain and deck synchronisation

    A shallow embedding of the signal-processing and synchronisation core of
    the LogicAudio application (utils/audioAnalysis.ts, utils/bpm.ts, the
    effects and handlers of App.tsx and the time-update listener of
    TrackDeck.tsx), together with the properties its design document
    states about it; and, in the last part, of the
    transport and resize handlers, the ruler, the tempo log, the level
    meter and the WAV encoder of the Gemini service.

    Numbers.  Every JavaScript [number] of the source is modelled by a real
    number of [R]: arithmetic is exact (no rounding, also not the rounding
    of a [Float32Array] cell), and the IEEE values NaN and the two
    infinities have no counterpart.  [Math.floor] is [Zfloor], [Math.sqrt]
    is [sqrt], [Math.exp] is [exp], [Math.pow 10] is [Rpower 10], and the
    logarithms are quotients of [ln].  Division is the division of [R],
    which is total: where the source would divide by zero the statements
    below either exclude the case by a hypothesis or hold whatever the
    quotient is.  Sample indices and lags are integers ([nat] where the
    source can only produce a natural number, [Z] where a negative value is
    possible).  The bytes of the WAV file are integers of [Z] in 0..255,
    and a setter of the [DataView] that would leave the view returns
    [None].

    Loops.  A [for] loop over an index range is a fold over that range; the
    two loops whose number of iterations depends on a real-valued or strided
    counter take fuel, and the properties show that enough fuel exists or
    that none does.  The loop of the sequencer is given a second time over
    an arbitrary addition, for its termination when the addition rounds.

    Objects.  WaveSurfer instances are mutable objects shared between refs
    and React state: they live in a heap, and refs and state hold
    pointers.  A deck object has no length here: [setTime] and [seekTo]
    land where they send the deck, as the media element does for a
    position inside its file.

    Closures.  A function made by [useCallback] reads the state of the
    render that made it; where a listener keeps such a function beyond that
    render, the function is applied with the values it holds. *)

From Stdlib Require Import Reals Lra Lia ZArith List Bool Sorted.
Import ListNotations.

Local Open Scope R_scope.

(** ** JavaScript helpers *)

(** [Math.log10] and [Math.log2]. *)
Definition log10 (x : R) : R := ln x / ln 10.
Definition log2 (x : R) : R := ln x / ln 2.

(** Comparison operators of the source, as booleans. *)
Definition Rltb (x y : R) : bool := if Rlt_dec x y then true else false.
Definition Rgtb (x y : R) : bool := Rltb y x.
Definition Reqb (x y : R) : bool := if Req_dec_T x y then true else false.

(** ** utils/audioAnalysis.ts *)

Module AudioAnalysis.

(** The part of the Web Audio [AudioBuffer] the program reads:
    [numberOfChannels] is the number of channel arrays, and
    [getChannelData c] is the [c]-th of them. *)
Record AudioBuffer : Type := mkAudioBuffer {
  length : nat;
  sampleRate : R;
  duration : R;
  channelData : list (list R)
}.

Definition numberOfChannels (b : AudioBuffer) : nat :=
  List.length (channelData b).

(** Every channel of a decoded buffer holds [length] samples. *)
Definition wellFormed (b : AudioBuffer) : Prop :=
  Forall (fun ch => List.length ch = length b) (channelData b).

Definition stride : nat := 1000.

(** The inner loop [for (let i = 0; i < len; i += stride)], started at [i]
    with the accumulators [chanSum] and [count]. *)
Fixpoint strideLoop (fuel : nat) (data : list R) (len i : nat)
    (chanSum : R) (count : nat) : R * nat :=
  match fuel with
  | O => (chanSum, count)
  | S fuel' =>
      if (i <? len)%nat
      then strideLoop fuel' data len (i + stride)
             (chanSum + nth i data 0 * nth i data 0) (S count)
      else (chanSum, count)
  end.

(** One iteration of the outer loop over the channels. *)
Definition channelStep (len : nat) (sumSq : R) (data : list R) : R :=
  let '(chanSum, count) := strideLoop len data len 0 0 0 in
  if (0 <? count)%nat then sumSq + chanSum / INR count else sumSq.

Definition channelPowerSum (b : AudioBuffer) : R :=
  fold_left (channelStep (length b)) (channelData b) 0.

Definition avgPower (b : AudioBuffer) : R :=
  channelPowerSum b / INR (numberOfChannels b).

Definition rmsOf (b : AudioBuffer) : R := sqrt (avgPower b).

Definition calculateTrackLoudness (b : AudioBuffer) : R :=
  let rms := rmsOf b in
  if Rltb rms (1 / 100000) then -100 else 20 * log10 rms.

End AudioAnalysis.

(** ** utils/bpm.ts *)

Module Bpm.

Record BpmPoint : Type := mkBpmPoint { time : R; bpm : R }.

(** *** Typed arrays *)

(** [a[k]] on a [Float32Array].  The source reads inside the array except at
    the lag [-1] of [getCorrAt] (reached only when the best lag is [0]); the
    model reads [0] outside the array. *)
Definition getAt (a : list R) (k : Z) : R :=
  if (k <? 0)%Z then 0 else nth (Z.to_nat k) a 0.

(** Resolution of one bound of [TypedArray.prototype.slice]: a negative
    bound counts from the end, and both are clamped to the array. *)
Definition sliceIndex (len k : Z) : Z :=
  if (k <? 0)%Z then Z.max (len + k) 0 else Z.min k len.

Definition slice (data : list R) (startIdx endIdx : Z) : list R :=
  let len := Z.of_nat (List.length data) in
  let k := sliceIndex len startIdx in
  let final := sliceIndex len endIdx in
  firstn (Z.to_nat (final - k)) (skipn (Z.to_nat k) data).

(** *** detectBpmInChunk *)

Definition downsampleRatio : nat := 256.
Definition minBpm : R := 55.
Definition maxBpm : R := 190.

(** [Math.ceil(data.length / downsampleRatio)] on a natural length. *)
Definition envelopeLengthOf (data : list R) : nat :=
  (List.length data + (downsampleRatio - 1)) / downsampleRatio.

(** The inner loop [for (let j = start; j < end; j++) sumSq += data[j]^2]. *)
Definition frameSumSq (data : list R) (start stop : nat) : R :=
  fold_left (fun sumSq j => sumSq + nth j data 0 * nth j data 0)
            (seq start (stop - start)) 0.

(** [envelope[i]] as the loop of step 2 stores it. *)
Definition envelopeAt (data : list R) (i : nat) : R :=
  let start := (i * downsampleRatio)%nat in
  let stop := Nat.min (start + downsampleRatio) (List.length data) in
  sqrt (frameSumSq data start stop / INR (stop - start)).

Definition envelopeOf (data : list R) : list R :=
  map (envelopeAt data) (seq 0 (envelopeLengthOf data)).

(** [onset[0]] keeps the initial [0] of the fresh array; the loop of step 3
    fills the other cells with the half-wave rectified difference. *)
Definition onsetAt (envelope : list R) (i : nat) : R :=
  match i with
  | O => 0
  | S j => Rmax 0 (nth i envelope 0 - nth j envelope 0)
  end.

Definition onsetOf (envelope : list R) : list R :=
  map (onsetAt envelope) (seq 0 (List.length envelope)).

(** Raw autocorrelation of the onset signal at lag [l]: the helper
    [getCorrAt], whose loop the lag search repeats inline. *)
Definition getCorrAt (onset : list R) (envelopeLength : nat) (l : Z) : R :=
  fold_left
    (fun s i => s + getAt onset (Z.of_nat i) * getAt onset (Z.of_nat i + l))
    (seq 0 (Z.to_nat (Z.of_nat envelopeLength - l))) 0.

(** The log-Gaussian weight centred at 110 BPM. *)
Definition lagWeight (envelopeRate : R) (lag : Z) : R :=
  let bpm := 60 * envelopeRate / IZR lag in
  exp ((- (log2 (bpm / 110) ^ 2)) / (6 / 10)).

(** One iteration of the lag search on [(maxWeightedCorr, bestLag)]. *)
Definition lagStep (onset : list R) (envelopeLength : nat) (envelopeRate : R)
    (acc : R * Z) (lag : Z) : R * Z :=
  let sum := getCorrAt onset envelopeLength lag in
  let weightedSum := sum * lagWeight envelopeRate lag in
  if Rgtb weightedSum (fst acc) then (weightedSum, lag) else acc.

(** The lags [minLag, minLag + 1, ..., maxLag] of the search loop. *)
Definition lagRange (minLag maxLag : Z) : list Z :=
  map (fun k => (minLag + Z.of_nat k)%Z)
      (seq 0 (Z.to_nat (maxLag - minLag + 1))).

Definition minLagOf (envelopeRate : R) : Z :=
  Zfloor ((60 / maxBpm) * envelopeRate).
Definition maxLagOf (envelopeRate : R) : Z :=
  Zfloor ((60 / minBpm) * envelopeRate).

Definition searchLags (onset : list R) (envelopeLength : nat)
    (envelopeRate : R) : R * Z :=
  fold_left (lagStep onset envelopeLength envelopeRate)
            (lagRange (minLagOf envelopeRate) (maxLagOf envelopeRate))
            (-1, (-1)%Z).

(** Step 5: parabolic interpolation around the best lag. *)
Definition refineLag (onset : list R) (envelopeLength : nat) (bestLag : Z) : R :=
  let y1 := getCorrAt onset envelopeLength (bestLag - 1) in
  let y2 := getCorrAt onset envelopeLength bestLag in
  let y3 := getCorrAt onset envelopeLength (bestLag + 1) in
  let denominator := y1 - 2 * y2 + y3 in
  if Rgtb (Rabs denominator) (1 / 100000)
  then IZR bestLag + (5 / 10) * (y1 - y3) / denominator
  else IZR bestLag.

Definition clampBpm (detectedBpm : R) : R :=
  let d := if Rltb detectedBpm minBpm then minBpm else detectedBpm in
  if Rgtb d maxBpm then maxBpm else d.

(** [null] is [None]. *)
Definition detectBpmInChunk (data : list R) (sampleRate : R) : option R :=
  let envelopeRate := sampleRate / INR downsampleRatio in
  let envelope := envelopeOf data in
  let envelopeLength := envelopeLengthOf data in
  let onset := onsetOf envelope in
  let bestLag := snd (searchLags onset envelopeLength envelopeRate) in
  if (bestLag =? -1)%Z then None
  else
    let refinedLag := refineLag onset envelopeLength bestLag in
    Some (clampBpm (60 * envelopeRate / refinedLag)).

(** *** analyzeBpmFromData *)

(** The test [if (bpm)]: [null] and [0] are falsy (so is NaN, which the
    model does not have). *)
Definition truthy (bpm : option R) : bool :=
  match bpm with
  | Some b => negb (Reqb b 0)
  | None => false
  end.

(** The [else if] branch: carry the previous point's BPM forward. *)
Definition carryForward (points : list BpmPoint) (startTime : R)
    : list BpmPoint :=
  if (0 <? List.length points)%nat
  then points ++ [mkBpmPoint startTime
         (bpm (nth (List.length points - 1) points (mkBpmPoint 0 0)))]
  else points.

(** The two pushes that end the loop body. *)
Definition pushPoint (points : list BpmPoint) (startTime : R)
    (detected : option R) : list BpmPoint :=
  match detected with
  | Some b =>
      if truthy detected then points ++ [mkBpmPoint startTime b]
      else carryForward points startTime
  | None => carryForward points startTime
  end.

Definition startSampleOf (sampleRate startTime : R) : Z :=
  Zfloor (startTime * sampleRate).

Definition endSampleOf (sampleRate duration windowSize startTime : R) : Z :=
  Zfloor (Rmin (startTime + windowSize) duration * sampleRate).

(** The test of the [continue]. *)
Definition tooShort (sampleRate duration windowSize startTime : R) : bool :=
  Rltb (IZR (endSampleOf sampleRate duration windowSize startTime
             - startSampleOf sampleRate startTime))
       (sampleRate * 5).

Section Sequencer.

(** The per-window estimator the loop calls; the program passes
    [detectBpmInChunk]. *)
Variable detect : list R -> R -> option R.

Variable data : list R.
Variables sampleRate duration : R.

(** The body of the [for] loop at one [startTime]. *)
Definition windowStep (windowSize : R) (points : list BpmPoint)
    (startTime : R) : list BpmPoint :=
  if tooShort sampleRate duration windowSize startTime then points
  else
    let sl := slice data (startSampleOf sampleRate startTime)
                   (endSampleOf sampleRate duration windowSize startTime) in
    pushPoint points startTime (detect sl sampleRate).

(** The loop [for (startTime; startTime < duration; startTime += step)].
    [None] is returned when [fuel] iterations did not reach the exit. *)
Fixpoint analyzeLoop (fuel : nat) (step windowSize startTime : R)
    (points : list BpmPoint) : option (list BpmPoint) :=
  match fuel with
  | O => None
  | S fuel' =>
      if Rltb startTime duration
      then analyzeLoop fuel' step windowSize (startTime + step)
             (windowStep windowSize points startTime)
      else Some points
  end.

Definition stepOf (interval : R) : R :=
  if Reqb interval 0 then 30 else interval.

Definition analyzeWith (fuel : nat) (interval : R)
    : option (list BpmPoint) :=
  let step := stepOf interval in
  let windowSize := Rmax step 30 in
  analyzeLoop fuel step windowSize 0 [].

End Sequencer.

(** [analyzeBpmFromData]; every caller passes the interval. *)
Definition analyzeBpmFromData (fuel : nat) (data : list R)
    (sampleRate duration interval : R) : option (list BpmPoint) :=
  analyzeWith detectBpmInChunk data sampleRate duration fuel interval.

End Bpm.

(** ** App.tsx *)

Module App.

Import AudioAnalysis.

Inductive ViewMode : Type := comparator | analyzer | genre.

(** [TrackId] of types.ts. *)
Inductive TrackId : Type := A | B | C.

Definition TrackId_eqb (x y : TrackId) : bool :=
  match x, y with
  | A, A | B, B | C, C => true
  | _, _ => false
  end.

(** *** The deck objects *)

(** A WaveSurfer instance is a mutable object; the refs and the React state
    of the component hold pointers into a heap of such objects. *)
Definition Ptr : Type := nat.

Record Deck : Type := mkDeck {
  media : bool;               (* getMediaElement() is not null *)
  graphCreatable : bool;      (* createMediaElementSource does not throw *)
  audioGraph : option R;      (* _audioGraph, as its gainNode.gain.value *)
  volume : R;                 (* the volume of the media element *)
  deckTime : R;               (* getCurrentTime() *)
  decodedData : option AudioBuffer  (* getDecodedData() *)
}.

Definition Heap : Type := Ptr -> option Deck.

Definition update (h : Heap) (p : Ptr) (d : Deck) : Heap :=
  fun q => if Nat.eqb q p then Some d else h q.

(** The signed factor a deck's signal reaches the output with: the gain node
    once the deck is routed through Web Audio, the element volume before. *)
Definition effectiveGain (d : Deck) : R :=
  match audioGraph d with
  | Some g => g
  | None => volume d
  end.

Definition withVolume (d : Deck) (v : R) : Deck :=
  mkDeck (media d) (graphCreatable d) (audioGraph d) v (deckTime d)
         (decodedData d).

Definition withGraph (d : Deck) (g : option R) : Deck :=
  mkDeck (media d) (graphCreatable d) g (volume d) (deckTime d)
         (decodedData d).

Definition withTime (d : Deck) (t : R) : Deck :=
  mkDeck (media d) (graphCreatable d) (audioGraph d) (volume d) t
         (decodedData d).

Definition withDecoded (d : Deck) (b : option AudioBuffer) : Deck :=
  mkDeck (media d) (graphCreatable d) (audioGraph d) (volume d) (deckTime d) b.

(** *** The component state *)

Record Gains : Type := mkGains { gainA : R; gainB : R }.

Record Refs : Type := mkRefs {
  wsRefA : option Ptr;
  wsRefB : option Ptr;
  wsRefDiffA : option Ptr;
  wsRefDiffB : option Ptr;
  wsRefC : option Ptr
}.

(** What a pending [setTimeout] callback does. *)
Inductive TimerAction : Type := ClearSeeking | ClearSyncing.

(** The state, refs and pending timers the modelled effects and handlers
    read or write. *)
Record AppState : Type := mkApp {
  activeTab : ViewMode;
  trackA : bool;                      (* trackA is not null *)
  trackB : bool;
  isPlaying : bool;
  currentTime : R;
  crossfade : R;
  autoGain : bool;
  isDiffMode : bool;
  trackGains : Gains;
  wsInstanceA : option Ptr;
  wsInstanceB : option Ptr;
  wsInstanceC : option Ptr;
  refs : Refs;
  isSeekingRef : bool;
  isSyncingRef : bool;
  heap : Heap;
  timers : list (R * TimerAction)     (* delay in milliseconds, callback *)
}.

Definition setTrackGains (g : Gains) (s : AppState) : AppState :=
  mkApp (activeTab s) (trackA s) (trackB s) (isPlaying s) (currentTime s)
        (crossfade s) (autoGain s) (isDiffMode s) g (wsInstanceA s)
        (wsInstanceB s) (wsInstanceC s) (refs s) (isSeekingRef s)
        (isSyncingRef s) (heap s) (timers s).

Definition setCurrentTime (t : R) (s : AppState) : AppState :=
  mkApp (activeTab s) (trackA s) (trackB s) (isPlaying s) t (crossfade s)
        (autoGain s) (isDiffMode s) (trackGains s) (wsInstanceA s)
        (wsInstanceB s) (wsInstanceC s) (refs s) (isSeekingRef s)
        (isSyncingRef s) (heap s) (timers s).

Definition setCrossfade (v : R) (s : AppState) : AppState :=
  mkApp (activeTab s) (trackA s) (trackB s) (isPlaying s) (currentTime s) v
        (autoGain s) (isDiffMode s) (trackGains s) (wsInstanceA s)
        (wsInstanceB s) (wsInstanceC s) (refs s) (isSeekingRef s)
        (isSyncingRef s) (heap s) (timers s).

Definition setAutoGain (b : bool) (s : AppState) : AppState :=
  mkApp (activeTab s) (trackA s) (trackB s) (isPlaying s) (currentTime s)
        (crossfade s) b (isDiffMode s) (trackGains s) (wsInstanceA s)
        (wsInstanceB s) (wsInstanceC s) (refs s) (isSeekingRef s)
        (isSyncingRef s) (heap s) (timers s).

Definition setIsDiffMode (b : bool) (s : AppState) : AppState :=
  mkApp (activeTab s) (trackA s) (trackB s) (isPlaying s) (currentTime s)
        (crossfade s) (autoGain s) b (trackGains s) (wsInstanceA s)
        (wsInstanceB s) (wsInstanceC s) (refs s) (isSeekingRef s)
        (isSyncingRef s) (heap s) (timers s).

Definition setWsInstanceA (p : option Ptr) (s : AppState) : AppState :=
  mkApp (activeTab s) (trackA s) (trackB s) (isPlaying s) (currentTime s)
        (crossfade s) (autoGain s) (isDiffMode s) (trackGains s) p
        (wsInstanceB s) (wsInstanceC s) (refs s) (isSeekingRef s)
        (isSyncingRef s) (heap s) (timers s).

Definition setWsInstanceB (p : option Ptr) (s : AppState) : AppState :=
  mkApp (activeTab s) (trackA s) (trackB s) (isPlaying s) (currentTime s)
        (crossfade s) (autoGain s) (isDiffMode s) (trackGains s)
        (wsInstanceA s) p (wsInstanceC s) (refs s) (isSeekingRef s)
        (isSyncingRef s) (heap s) (timers s).

Definition setWsInstanceC (p : option Ptr) (s : AppState) : AppState :=
  mkApp (activeTab s) (trackA s) (trackB s) (isPlaying s) (currentTime s)
        (crossfade s) (autoGain s) (isDiffMode s) (trackGains s)
        (wsInstanceA s) (wsInstanceB s) p (refs s) (isSeekingRef s)
        (isSyncingRef s) (heap s) (timers s).

Definition setRefs (r : Refs) (s : AppState) : AppState :=
  mkApp (activeTab s) (trackA s) (trackB s) (isPlaying s) (currentTime s)
        (crossfade s) (autoGain s) (isDiffMode s) (trackGains s)
        (wsInstanceA s) (wsInstanceB s) (wsInstanceC s) r (isSeekingRef s)
        (isSyncingRef s) (heap s) (timers s).

Definition setIsSeeking (b : bool) (s : AppState) : AppState :=
  mkApp (activeTab s) (trackA s) (trackB s) (isPlaying s) (currentTime s)
        (crossfade s) (autoGain s) (isDiffMode s) (trackGains s)
        (wsInstanceA s) (wsInstanceB s) (wsInstanceC s) (refs s) b
        (isSyncingRef s) (heap s) (timers s).

Definition setIsSyncing (b : bool) (s : AppState) : AppState :=
  mkApp (activeTab s) (trackA s) (trackB s) (isPlaying s) (currentTime s)
        (crossfade s) (autoGain s) (isDiffMode s) (trackGains s)
        (wsInstanceA s) (wsInstanceB s) (wsInstanceC s) (refs s)
        (isSeekingRef s) b (heap s) (timers s).

Definition setHeap (h : Heap) (s : AppState) : AppState :=
  mkApp (activeTab s) (trackA s) (trackB s) (isPlaying s) (currentTime s)
        (crossfade s) (autoGain s) (isDiffMode s) (trackGains s)
        (wsInstanceA s) (wsInstanceB s) (wsInstanceC s) (refs s)
        (isSeekingRef s) (isSyncingRef s) h (timers s).

Definition setTimers (l : list (R * TimerAction)) (s : AppState) : AppState :=
  mkApp (activeTab s) (trackA s) (trackB s) (isPlaying s) (currentTime s)
        (crossfade s) (autoGain s) (isDiffMode s) (trackGains s)
        (wsInstanceA s) (wsInstanceB s) (wsInstanceC s) (refs s)
        (isSeekingRef s) (isSyncingRef s) (heap s) l.

(** [setTrackA] and [setTrackB] with a new track. *)
Definition setTrack (id : TrackId) (s : AppState) : AppState :=
  mkApp (activeTab s)
        (match id with A => true | _ => trackA s end)
        (match id with B => true | _ => trackB s end)
        (isPlaying s) (currentTime s) (crossfade s) (autoGain s)
        (isDiffMode s) (trackGains s) (wsInstanceA s) (wsInstanceB s)
        (wsInstanceC s) (refs s) (isSeekingRef s) (isSyncingRef s) (heap s)
        (timers s).

(** A method call on the object a pointer designates; a dangling pointer
    leaves the heap as it is. *)
Definition onDeck (p : Ptr) (f : Deck -> Deck) (s : AppState) : AppState :=
  match heap s p with
  | Some d => setHeap (update (heap s) p (f d)) s
  | None => s
  end.

(** The initial state of the component ([useState] and [useRef] defaults). *)
Definition initialState : AppState :=
  mkApp comparator false false false 0 (5 / 10) false false (mkGains 1 1)
        None None None (mkRefs None None None None None) false false
        (fun _ => None) [].

(** *** Auto-gain *)

(** The gain pair computed from the two loudness values. *)
Definition resolveGains (dbA dbB : R) : Gains :=
  let target := Rmin dbA dbB in
  mkGains (Rpower 10 ((target - dbA) / 20)) (Rpower 10 ((target - dbB) / 20)).

Definition getDecodedData (s : AppState) (p : Ptr) : option AudioBuffer :=
  match heap s p with
  | Some d => decodedData d
  | None => None
  end.

(** The body of the auto-gain effect: the argument of the [setTrackGains]
    it calls, or [None] when it returns without calling it. *)
Definition autoGainEffect (s : AppState) : option Gains :=
  match wsInstanceA s, wsInstanceB s with
  | Some pa, Some pb =>
      match getDecodedData s pa, getDecodedData s pb with
      | Some bufA, Some bufB =>
          Some (resolveGains (calculateTrackLoudness bufA)
                             (calculateTrackLoudness bufB))
      | _, _ => None
      end
  | _, _ => Some (mkGains 1 1)
  end.

(** *** Volume and phase *)

(** [applyVolumeAndPhase] on the deck object, once [ws] is known not to be
    null.  A fresh gain node has gain 1; the [catch] of a failed graph
    creation leaves the deck without a graph.  The shared [AudioContext]
    the function creates on first use has no state of its own here. *)
Definition applyToDeck (vol phase : R) (forceGraph : bool) (d : Deck) : Deck :=
  if negb (media d) then d
  else
    let d1 :=
      if (forceGraph || Reqb phase (-1))
         && match audioGraph d with None => true | Some _ => false end
      then (if graphCreatable d then withGraph d (Some 1) else d)
      else d in
    match audioGraph d1 with
    | Some _ => withVolume (withGraph d1 (Some (vol * phase))) 1
    | None => withVolume d1 vol
    end.

Definition applyVolumeAndPhase (ws : option Ptr) (vol phase : R)
    (forceGraph : bool) (s : AppState) : AppState :=
  match ws with
  | None => s
  | Some p => onDeck p (applyToDeck vol phase forceGraph) s
  end.

(** [if (ref.current) ref.current.setVolume(v)]. *)
Definition setVolumeIfPresent (ws : option Ptr) (v : R) (s : AppState)
    : AppState :=
  match ws with
  | None => s
  | Some p => onDeck p (fun d => withVolume d v) s
  end.

Record DeckGainPhase : Type := mkGainPhase { dgVolume : R; dgPhase : R }.

(** The volume and phase the effect passes for deck A and for deck B. *)
Definition composeGainPhase (s : AppState) : DeckGainPhase * DeckGainPhase :=
  let gA := if autoGain s then gainA (trackGains s) else 1 in
  let gB := if autoGain s then gainB (trackGains s) else 1 in
  if isDiffMode s
  then (mkGainPhase gA 1, mkGainPhase gB (-1))
  else (mkGainPhase ((1 - crossfade s) * gA) 1,
        mkGainPhase (crossfade s * gB) 1).

(** The body of the volume effect; [forceGraph] is passed as [true] in
    differential mode only. *)
Definition volumeEffect (s : AppState) : AppState :=
  match activeTab s with
  | comparator =>
      let '(a, b) := composeGainPhase s in
      let s1 := applyVolumeAndPhase (wsRefA (refs s)) (dgVolume a) (dgPhase a)
                  (isDiffMode s) s in
      let s2 := applyVolumeAndPhase (wsRefB (refs s)) (dgVolume b) (dgPhase b)
                  (isDiffMode s) s1 in
      let s3 := setVolumeIfPresent (wsRefDiffA (refs s)) 0 s2 in
      setVolumeIfPresent (wsRefDiffB (refs s)) 0 s3
  | analyzer => setVolumeIfPresent (wsRefC (refs s)) 1 s
  | genre => s
  end.

(** *** Re-rendering *)

(** A state setter called with a fresh object, or with a value that differs
    from the current one, re-renders the component, and the effects whose
    dependencies changed run again. *)

(** The auto-gain effect followed by the re-render its [setTrackGains]
    causes ([trackGains] is a dependency of the volume effect). *)
Definition runAutoGainEffect (s : AppState) : AppState :=
  match autoGainEffect s with
  | Some g => volumeEffect (setTrackGains g s)
  | None => s
  end.

Definition Ptr_eqb (x y : option Ptr) : bool :=
  match x, y with
  | Some p, Some q => Nat.eqb p q
  | None, None => true
  | _, _ => false
  end.

Definition handleCrossfadeChange (value : R) (s : AppState) : AppState :=
  if Reqb value (crossfade s) then s else volumeEffect (setCrossfade value s).

Definition onToggleAutoGain (s : AppState) : AppState :=
  volumeEffect (setAutoGain (negb (autoGain s)) s).

Definition onToggleDiffMode (s : AppState) : AppState :=
  volumeEffect (setIsDiffMode (negb (isDiffMode s)) s).

(** [handleTrackReady].  The branch of deck C also starts the tempo analysis
    of its buffer, and every branch updates the displayed duration; neither
    is part of this state. *)
Definition handleTrackReady (id : TrackId) (instance : Ptr) (s : AppState)
    : AppState :=
  let r := refs s in
  match id with
  | A =>
      let s1 := setRefs (mkRefs (Some instance) (wsRefB r) (wsRefDiffA r)
                           (wsRefDiffB r) (wsRefC r)) s in
      if Ptr_eqb (wsInstanceA s) (Some instance) then s1
      else runAutoGainEffect (volumeEffect (setWsInstanceA (Some instance) s1))
  | B =>
      let s1 := setRefs (mkRefs (wsRefA r) (Some instance) (wsRefDiffA r)
                           (wsRefDiffB r) (wsRefC r)) s in
      if Ptr_eqb (wsInstanceB s) (Some instance) then s1
      else runAutoGainEffect (volumeEffect (setWsInstanceB (Some instance) s1))
  | C =>
      let s1 := setRefs (mkRefs (wsRefA r) (wsRefB r) (wsRefDiffA r)
                           (wsRefDiffB r) (Some instance)) s in
      if Ptr_eqb (wsInstanceC s) (Some instance) then s1
      else volumeEffect (setWsInstanceC (Some instance) s1)
  end.

(** A WaveSurfer object as the deck component creates it: it has a media
    element, no audio graph yet, and starts silent ([ws.setVolume(0)]). *)
Definition newDeck (buf : option AudioBuffer) : Deck :=
  mkDeck true true None 0 0 buf.

(** The [ready] event of an object: its file is decoded. *)
Definition decoded (instance : Ptr) (buf : AudioBuffer) (s : AppState)
    : AppState :=
  setHeap (update (heap s) instance
             (match heap s instance with
              | Some d => withDecoded d (Some buf)
              | None => newDeck (Some buf)
              end)) s.

(** The [ready] listener of the audible decks calls [handleTrackReady]. *)
Definition deckReady (id : TrackId) (instance : Ptr) (buf : AudioBuffer)
    (s : AppState) : AppState :=
  handleTrackReady id instance (decoded instance buf s).

(** The [ready] listener of the two ghost decks of the difference overlay:
    [(id, ws) => { wsRefDiffX.current = ws; ws.setVolume(0); }]. *)
Definition ghostReady (id : TrackId) (instance : Ptr) (buf : AudioBuffer)
    (s : AppState) : AppState :=
  let s0 := decoded instance buf s in
  let r := refs s0 in
  match id with
  | A => setVolumeIfPresent (Some instance) 0
           (setRefs (mkRefs (wsRefA r) (wsRefB r) (Some instance)
                       (wsRefDiffB r) (wsRefC r)) s0)
  | B => setVolumeIfPresent (Some instance) 0
           (setRefs (mkRefs (wsRefA r) (wsRefB r) (wsRefDiffA r)
                       (Some instance) (wsRefC r)) s0)
  | C => s0
  end.

(** [handleFileUpload] for the decks A and B: the new track is stored, and
    the deck component of the slot loads its URL into the WaveSurfer object
    it already owns, whose decoded data is gone until [ready] fires again.
    (The reset of the clock when nothing plays is [setCurrentTime 0].) *)
Definition handleFileUpload (id : TrackId) (s : AppState) : AppState :=
  let s1 := setTrack id s in
  let s2 := if isPlaying s then s1 else setCurrentTime 0 s1 in
  let pending (ws : option Ptr) (st : AppState) : AppState :=
    match ws with
    | Some p => onDeck p (fun d => withDecoded d None) st
    | None => st
    end in
  match id with
  | A => pending (wsRefDiffA (refs s)) (pending (wsRefA (refs s)) s2)
  | B => pending (wsRefDiffB (refs s)) (pending (wsRefB (refs s)) s2)
  | C => pending (wsRefC (refs s)) s2
  end.

(** *** Synchronisation *)

(** The calls the synchronisation handler makes on its collaborators. *)
Inductive Call : Type :=
| CallSetTime (ws : Ptr) (t : R)
| CallSetTimeout (delay : R) (action : TimerAction).

Definition present (ws : option Ptr) : list Ptr :=
  match ws with
  | Some p => [p]
  | None => []
  end.

(** [activeInstances()]: the non-null refs of the active tab, in order. *)
Definition activeInstances (s : AppState) : list Ptr :=
  match activeTab s with
  | comparator =>
      present (wsRefA (refs s)) ++ present (wsRefB (refs s))
      ++ present (wsRefDiffA (refs s)) ++ present (wsRefDiffB (refs s))
  | analyzer => present (wsRefC (refs s))
  | genre => []
  end.

Definition getCurrentTime (s : AppState) (p : Ptr) : R :=
  match heap s p with
  | Some d => deckTime d
  | None => 0
  end.

(** The callback of [others.forEach], threading the state and the calls
    made so far. *)
Definition syncSlave (masterTime : R) (acc : AppState * list Call)
    (slave : Ptr) : AppState * list Call :=
  let '(s, calls) := acc in
  let diff := Rabs (masterTime - getCurrentTime s slave) in
  if Rgtb diff (4 / 100)
  then (onDeck slave (fun d => withTime d masterTime) (setIsSyncing true s),
        calls ++ [CallSetTime slave masterTime])
  else acc.

(** What a [handleTimeUpdate] function holds of the render that created
    it.  [useCallback] makes a new function when [trackA], [trackB],
    [isPlaying], [activeTab] or [activeInstances] changed, and each
    function reads the values of its own render; the refs and the deck
    objects are read when the function runs. *)
Record Closure : Type := mkClosure {
  heldTab : ViewMode;
  heldTrackA : bool;
  heldPlaying : bool
}.

Definition closureOf (s : AppState) : Closure :=
  mkClosure (activeTab s) (trackA s) (isPlaying s).

(** [activeInstances], as the function made in a render with the tab [tab]
    ([useCallback] on [activeTab]). *)
Definition activeInstancesOf (tab : ViewMode) (r : Refs) : list Ptr :=
  match tab with
  | comparator =>
      present (wsRefA r) ++ present (wsRefB r)
      ++ present (wsRefDiffA r) ++ present (wsRefDiffB r)
  | analyzer => present (wsRefC r)
  | genre => []
  end.

(** [handleTimeUpdate(time, sourceId)], as the function that holds [h],
    run on the state [s]. *)
Definition handleTimeUpdateOf (h : Closure) (time : R) (sourceId : TrackId)
    (s : AppState) : AppState * list Call :=
  if isSeekingRef s then (s, [])
  else if isSyncingRef s then (s, [])
  else
    match heldTab h with
    | analyzer => (setCurrentTime time s, [])
    | genre => (s, [])
    | comparator =>
        let masterId := if heldTrackA h then A else B in
        if TrackId_eqb sourceId masterId
        then
          let s1 := setCurrentTime time s in
          if heldPlaying h
          then
            match (match sourceId with
                   | A => wsRefA (refs s)
                   | _ => wsRefB (refs s)
                   end) with
            | None => (s1, [])
            | Some masterWs =>
                let masterTime := getCurrentTime s1 masterWs in
                let others :=
                  filter (fun ws => negb (Nat.eqb ws masterWs))
                         (activeInstancesOf (heldTab h) (refs s1)) in
                let '(s2, calls) :=
                  fold_left (syncSlave masterTime) others (s1, []) in
                if isSyncingRef s2
                then (setTimers (timers s2 ++ [(10, ClearSyncing)]) s2,
                      calls ++ [CallSetTimeout 10 ClearSyncing])
                else (s2, calls)
            end
          else (s1, [])
        else (s, [])
    end.

(** The [handleTimeUpdate] of the render that shows the state [s]: the
    function that holds the [trackA], [isPlaying] and [activeTab] of [s]
    itself. *)
Definition handleTimeUpdate (time : R) (sourceId : TrackId) (s : AppState)
    : AppState * list Call :=
  handleTimeUpdateOf (closureOf s) time sourceId s.

(** The callback of a pending timer runs. *)
Definition runTimer (action : TimerAction) (s : AppState) : AppState :=
  match action with
  | ClearSeeking => setIsSeeking false s
  | ClearSyncing => setIsSyncing false s
  end.

(** The corrective calls of a trace that address the deck [ws]. *)
Definition isSetTimeOf (ws : Ptr) (c : Call) : bool :=
  match c with
  | CallSetTime p _ => Nat.eqb p ws
  | CallSetTimeout _ _ => false
  end.

Definition setTimeCalls (ws : Ptr) (calls : list Call) : list Call :=
  filter (isSetTimeOf ws) calls.

End App.

(** ** The formulations of the design document

    Definitions that follow the words of the design document, to be compared
    with the program's. *)

Module Design.

Import AudioAnalysis.

Definition Rsum (l : list R) : R := fold_right Rplus 0 l.

(** Every 1000th sample of a channel: the samples 0, 1000, 2000, ... *)
Definition strided (data : list R) : list R :=
  map (fun k => nth (k * stride) data 0)
      (seq 0 ((List.length data + (stride - 1)) / stride)).

Definition meanSquare (xs : list R) : R :=
  Rsum (map (fun x => x * x) xs) / INR (List.length xs).

(** The mean-square amplitude of a channel over its strided samples; a
    channel without samples contributes no power. *)
Definition channelPower (data : list R) : R :=
  match strided data with
  | [] => 0
  | _ :: _ => meanSquare (strided data)
  end.

(** The power averaged across the channels. *)
Definition avgPower (b : AudioBuffer) : R :=
  Rsum (map channelPower (channelData b)) / INR (numberOfChannels b).

Definition loudness (b : AudioBuffer) : R :=
  let rms := sqrt (avgPower b) in
  if Rltb rms (1 / 100000) then -100 else 20 * log10 rms.

Definition isZero (x : R) : Prop := x = 0.

(** An all-zero buffer. *)
Definition silent (b : AudioBuffer) : Prop :=
  Forall (Forall isZero) (channelData b).

(** *** The tempo timeline *)

Definition strictlyIncreasing (pts : list Bpm.BpmPoint) : Prop :=
  StronglySorted Rlt (map Bpm.time pts).

Definition bpmInRange (pts : list Bpm.BpmPoint) : Prop :=
  Forall (fun p => 55 <= Bpm.bpm p <= 190) pts.

(** The number of multiples of a positive [step] in [[0, duration)], and
    these multiples in increasing order. *)
Definition windowCount (duration step : R) : nat :=
  Z.to_nat (Zceil (duration / step)).

Definition windowStarts (duration step : R) : list R :=
  map (fun k => INR k * step) (seq 0 (windowCount duration step)).

(** "Every invoked window has length max(step, 30) seconds of audio": at
    every multiple of the step below the duration, a window that is not
    skipped spans [max(step, 30) * sampleRate] samples. *)
Definition fullWindows (sampleRate duration interval : R) : Prop :=
  forall k : nat,
    let step := Bpm.stepOf interval in
    let windowSize := Rmax step 30 in
    let t := INR k * step in
    t < duration ->
    Bpm.tooShort sampleRate duration windowSize t = false ->
    IZR (Bpm.endSampleOf sampleRate duration windowSize t
         - Bpm.startSampleOf sampleRate t)
    = windowSize * sampleRate.

(** "The Sequencer terminates normally and returns a timeline". *)
Definition returnsTimeline (data : list R)
    (sampleRate duration interval : R) : Prop :=
  exists fuel pts,
    Bpm.analyzeBpmFromData fuel data sampleRate duration interval = Some pts.

(** *** The gain pair and the decoded buffers *)

(** The decoded buffer of the deck a ref designates, if any. *)
Definition deckBuffer (s : App.AppState) (ws : option App.Ptr)
    : option AudioBuffer :=
  match ws with
  | Some p => App.getDecodedData s p
  | None => None
  end.

(** "Whenever either deck's decoded buffer is unavailable the gain pair is
    {1, 1}". *)
Definition defaultsWhileUndecoded (s : App.AppState) : Prop :=
  deckBuffer s (App.wsRefA (App.refs s)) = None
  \/ deckBuffer s (App.wsRefB (App.refs s)) = None ->
  App.trackGains s = App.mkGains 1 1.

(** "The pair is recomputed whenever either decoded buffer becomes
    available or is replaced": with both buffers decoded, the pair is the
    one resolved from these two buffers. *)
Definition gainsMatchBuffers (s : App.AppState) : Prop :=
  forall bufA bufB,
    deckBuffer s (App.wsRefA (App.refs s)) = Some bufA ->
    deckBuffer s (App.wsRefB (App.refs s)) = Some bufB ->
    App.trackGains s
    = App.resolveGains (calculateTrackLoudness bufA)
                       (calculateTrackLoudness bufB).

(** Two states with the same gain pair, instances, refs and buffers. *)
Definition sameAudio (s s' : App.AppState) : Prop :=
  App.trackGains s' = App.trackGains s
  /\ App.wsInstanceA s' = App.wsInstanceA s
  /\ App.wsInstanceB s' = App.wsInstanceB s
  /\ App.refs s' = App.refs s
  /\ forall q, App.getDecodedData s' q = App.getDecodedData s q.

End Design.

(** ** Sample inputs *)

Module Examples.

(** Sixty seconds of digital silence at 44.1 kHz, filtered or not. *)
Definition silence60 : list R := repeat 0 (Z.to_nat 2646000).

(** An estimator that never finds a tempo. *)
Definition noEstimate (sl : list R) (sampleRate : R) : option R := None.

(** The comparator with its four decks ready, nothing playing: the
    crossfader in the middle, auto-gain and differential mode off. *)
Definition fourDecks : App.AppState :=
  App.mkApp App.comparator true true false 0 (5 / 10) false false
    (App.mkGains 1 1) (Some 1%nat) (Some 2%nat) None
    (App.mkRefs (Some 1%nat) (Some 2%nat) (Some 3%nat) (Some 4%nat) None)
    false false
    (fun p => if (1 <=? p)%nat && (p <=? 4)%nat
              then Some (App.newDeck None) else None)
    [].

(** The same comparator while playing: deck A (the master) is at 10 s, deck
    B has drifted by 100 ms, the ghost of A by 20 ms, the ghost of B not at
    all. *)
Definition drifted : App.AppState :=
  App.mkApp App.comparator true true true 10 (5 / 10) false false
    (App.mkGains 1 1) (Some 1%nat) (Some 2%nat) None
    (App.mkRefs (Some 1%nat) (Some 2%nat) (Some 3%nat) (Some 4%nat) None)
    false false
    (fun p => match p with
              | 1%nat => Some (App.mkDeck true true None 1 10 None)
              | 2%nat => Some (App.mkDeck true true None 1 (101 / 10) None)
              | 3%nat => Some (App.mkDeck true true None 0 (1002 / 100) None)
              | 4%nat => Some (App.mkDeck true true None 0 10 None)
              | _ => None
              end)
    [].


(** A one-sample buffer at full scale, and a silent one. *)
Definition loudBuffer : AudioAnalysis.AudioBuffer :=
  AudioAnalysis.mkAudioBuffer 1 44100 (1 / 44100) [[1]].

Definition quietBuffer : AudioAnalysis.AudioBuffer :=
  AudioAnalysis.mkAudioBuffer 1 44100 (1 / 44100) [[0]].

(** Deck A becomes ready with the loud buffer and deck B with the quiet
    one; then the user replaces the track of deck B, whose file is still
    being decoded ... *)
Definition replacedTrack : App.AppState :=
  App.handleFileUpload App.B
    (App.deckReady App.B 2%nat quietBuffer
       (App.deckReady App.A 1%nat loudBuffer App.initialState)).

(** ... and the new file of deck B, as loud as that of deck A, is decoded. *)
Definition redecodedTrack : App.AppState :=
  App.deckReady App.B 2%nat loudBuffer replacedTrack.

End Examples.

(** ** Signals under a gain *)

Module Signal.

Import AudioAnalysis.



End Signal.

(** ** The timeline as a list comprehension *)

Module Timeline.

Import Bpm.

(** The estimate of the window that starts at [t], 0 standing for [null]. *)
Definition estimateAt (data : list R) (sampleRate duration windowSize t : R)
    : R :=
  match detectBpmInChunk
          (slice data (startSampleOf sampleRate t)
             (endSampleOf sampleRate duration windowSize t)) sampleRate with
  | Some b => b
  | None => 0
  end.

(** One point, with the estimate of its own window, for every multiple of
    the step below the duration whose window is long enough. *)
Definition freshPoints (data : list R) (sampleRate duration interval : R)
    : list BpmPoint :=
  let step := stepOf interval in
  let windowSize := Rmax step 30 in
  map (fun t => mkBpmPoint t (estimateAt data sampleRate duration windowSize t))
      (filter (fun t => negb (tooShort sampleRate duration windowSize t))
              (Design.windowStarts duration step)).

End Timeline.

(** ** What the volume effect keeps of a deck *)

Module Routing.

Import App.

(** [d'] is [d] up to volume and gain: same media element, position and
    decoded data; an audio graph that was attached is still attached, and
    outside differential mode ([diff = false]) none was attached. *)
Definition keepsRouting (diff : bool) (d d' : Deck) : Prop :=
  media d' = media d
  /\ graphCreatable d' = graphCreatable d
  /\ deckTime d' = deckTime d
  /\ decodedData d' = decodedData d
  /\ (audioGraph d <> None -> audioGraph d' <> None)
  /\ (diff = false -> audioGraph d = None -> audioGraph d' = None).

Definition keepsDecks (diff : bool) (s s' : AppState) : Prop :=
  forall q d, heap s q = Some d ->
              exists d', heap s' q = Some d' /\ keepsRouting diff d d'.

End Routing.

(** ** App.tsx: transport *)

Module Transport.

Import App.

(** The calls the transport handlers make on the deck objects and on the
    timer queue. *)
Inductive DeckCall : Type :=
| DoSetTime (ws : Ptr) (t : R)
| DoPlay (ws : Ptr)
| DoPause (ws : Ptr)
| DoStop (ws : Ptr)
| DoSeekTo (ws : Ptr) (progress : R)
| DoSetTimeout (delay : R) (action : TimerAction).

Definition setIsPlaying (b : bool) (s : AppState) : AppState :=
  mkApp (activeTab s) (trackA s) (trackB s) b (currentTime s) (crossfade s)
        (autoGain s) (isDiffMode s) (trackGains s) (wsInstanceA s)
        (wsInstanceB s) (wsInstanceC s) (refs s) (isSeekingRef s)
        (isSyncingRef s) (heap s) (timers s).

(** [instances.forEach(ws => ...)]: the method's effect on the object and
    the calls it stands for, instance after instance. *)
Definition forEachDeck (effect : Ptr -> Deck -> Deck)
    (calls : Ptr -> list DeckCall) (instances : list Ptr)
    (acc : AppState * list DeckCall) : AppState * list DeckCall :=
  fold_left (fun a ws => (onDeck ws (effect ws) (fst a), snd a ++ calls ws))
            instances acc.

(** [handleStop]: WaveSurfer's [stop] pauses and rewinds to 0. *)
Definition handleStop (s : AppState) : AppState * list DeckCall :=
  let '(s1, calls) :=
    forEachDeck (fun _ d => withTime d 0) (fun ws => [DoStop ws])
      (activeInstances s) (setIsPlaying false s, []) in
  (setCurrentTime 0 s1, calls).

(** [resetPlayback]: every ref that holds an object, active or not. *)
Definition resetPlayback (s : AppState) : AppState * list DeckCall :=
  forEachDeck (fun _ d => withTime d 0) (fun ws => [DoStop ws])
    (present (wsRefA (refs s)) ++ present (wsRefB (refs s))
     ++ present (wsRefDiffA (refs s)) ++ present (wsRefDiffB (refs s))
     ++ present (wsRefC (refs s)))
    (setCurrentTime 0 (setIsPlaying false s), []).

Section Seeking.

(** [ws.getDuration()], which the deck model does not store. *)
Variable getDuration : Ptr -> R.

(** The [duration] state the callbacks hold. *)
Variable duration : R.

(** [handleSeek]: WaveSurfer's [seekTo (progress)] is
    [setTime (getDuration () * progress)]. *)
Definition handleSeek (progress : R) (s : AppState)
    : AppState * list DeckCall :=
  let s1 := setIsSeeking true s in
  let time := progress * duration in
  let s2 := setCurrentTime time s1 in
  let '(s3, calls) :=
    forEachDeck (fun ws d => withTime d (getDuration ws * progress))
      (fun ws => [DoSeekTo ws progress]) (activeInstances s) (s2, []) in
  (setTimers (timers s3 ++ [(100, ClearSeeking)]) s3,
   calls ++ [DoSetTimeout 100 ClearSeeking]).


Definition handleBpmClick (time : R) (s : AppState)
    : AppState * list DeckCall :=
  if Reqb duration 0 then (s, [])
  else
    let progress := time / duration in
    handleSeek progress s.

End Seeking.

(** Every active deck is where the clock of the application is. *)
Definition aligned (s : AppState) : Prop :=
  forall p, In p (activeInstances s) ->
            getCurrentTime s p = currentTime s.


(** [setActiveTab]. *)
Definition setActiveTab (mode : ViewMode) (s : AppState) : AppState :=
  mkApp mode (trackA s) (trackB s) (isPlaying s) (currentTime s)
        (crossfade s) (autoGain s) (isDiffMode s) (trackGains s)
        (wsInstanceA s) (wsInstanceB s) (wsInstanceC s) (refs s)
        (isSeekingRef s) (isSyncingRef s) (heap s) (timers s).

(** [handleTabChange], up to the timer it sets: the callback of that timer
    only writes the displayed duration, which is not part of this state. *)
Definition handleTabChange (mode : ViewMode) (s : AppState)
    : AppState * list DeckCall :=
  let '(s1, calls) := resetPlayback s in
  (setActiveTab mode s1, calls).

End Transport.

(** ** components/TrackDeck.tsx: the time-update listener *)

Module TrackDeck.

Import App Transport.

(** The renders in which a deck mounts.  The decks of a tab are in the tree
    only while that tab is shown, so a deck mounts in the first render of
    the application or in the render that follows a [handleTabChange]. *)
Inductive mountRender : AppState -> Prop :=
| mountFirst : mountRender initialState
| mountAfterTabChange (mode : ViewMode) (s : AppState) :
    mountRender (fst (handleTabChange mode s)).

(** The listener of ['timeupdate'].  The effect that creates the WaveSurfer
    instance and registers [currentTime => onTimeUpdate (currentTime)] has
    the dependencies [color, id, readOnly], which no render changes: it
    runs when the deck mounts and not again.  The listener therefore keeps
    the [onTimeUpdate] prop of the mounting render,
    [t => handleTimeUpdate (t, id)] with the [handleTimeUpdate] of that
    render, and runs it on the state [s] of the moment of the event. *)
Definition timeupdateListener (mount : AppState) (id : TrackId)
    (currentTime : R) (s : AppState) : AppState * list Call :=
  handleTimeUpdateOf (closureOf mount) currentTime id s.

End TrackDeck.

(** ** The loop of the sequencer under a rounded addition *)

Module Rounded.

Import Bpm.

Section Loop.

(** The addition of the number type: [startTime += step] stores
    [add startTime step].  The exact addition of [R] is one instance; the
    addition of binary64, rounded to nearest, is another. *)
Variable add : R -> R -> R.

Variable detect : list R -> R -> option R.
Variable data : list R.
Variables sampleRate duration : R.

(** The loop [for (startTime; startTime < duration; startTime += step)]. *)
Fixpoint analyzeLoop (fuel : nat) (step windowSize startTime : R)
    (points : list BpmPoint) : option (list BpmPoint) :=
  match fuel with
  | O => None
  | S fuel' =>
      if Rltb startTime duration
      then analyzeLoop fuel' step windowSize (add startTime step)
             (windowStep detect data sampleRate duration windowSize points
                startTime)
      else Some points
  end.

Definition analyzeWith (fuel : nat) (interval : R)
    : option (list BpmPoint) :=
  let step := stepOf interval in
  let windowSize := Rmax step 30 in
  analyzeLoop fuel step windowSize 0 [].

(** Every addition of the loop moves the start time forward by at least
    [delta]. *)
Definition advances (step delta : R) : Prop :=
  forall t, 0 <= t -> t < duration -> t + delta <= add t step.

End Loop.

Definition analyzeBpmFromData (add : R -> R -> R) (fuel : nat)
    (data : list R) (sampleRate duration interval : R)
    : option (list BpmPoint) :=
  analyzeWith add detectBpmInChunk data sampleRate duration fuel interval.

End Rounded.

(** ** components/Ruler.tsx *)

Module Ruler.




End Ruler.

(** ** Time formatting (components/BpmLog.tsx, components/Mixer.tsx) *)

Module Format.

(** The integer part of a number, towards zero. *)
Definition truncate (x : R) : Z :=
  if Rltb x 0 then Zceil x else Zfloor x.

(** The remainder operator [x % y] on numbers: it has the sign of [x]. *)
Definition jsRem (x y : R) : R := x - y * IZR (truncate (x / y)).

(** [formatTime] of BpmLog.tsx (and [formatDuration] of GenreAnalyzer.tsx,
    and the tick format of the ruler): the minutes and the seconds it
    prints, before they are turned into text. *)
Definition formatTime (seconds : R) : Z * Z :=
  let m := Zfloor (seconds / 60) in
  let s := Zfloor (jsRem seconds 60) in
  (m, s).

(** [formatTime] of Mixer.tsx: minutes, seconds and hundredths. *)
Definition formatTimeMixer (seconds : R) : Z * Z * Z :=
  let m := Zfloor (seconds / 60) in
  let s := Zfloor (jsRem seconds 60) in
  let ms := Zfloor (jsRem seconds 1 * 100) in
  (m, s, ms).

End Format.

(** ** components/BpmLog.tsx *)

Module BpmLog.

Import Bpm.

(** The intervals the selector offers; 0 is "Auto". *)
Definition INTERVAL_OPTIONS : list R := [0; 1 / 2; 1; 2; 5; 10; 30].

Definition effectiveInterval (interval : R) (data : list BpmPoint) : R :=
  if Rgtb interval 0 then interval
  else if (1 <? List.length data)%nat
       then time (nth 1 data (mkBpmPoint 0 0))
            - time (nth 0 data (mkBpmPoint 0 0))
       else 30.

(** [Array.prototype.findIndex], from index [i] on; [None] stands for -1. *)
Fixpoint findIndexFrom {X : Type} (pred : X -> nat -> bool) (i : nat)
    (l : list X) : option nat :=
  match l with
  | [] => None
  | x :: l' => if pred x i then Some i else findIndexFrom pred (S i) l'
  end.

(** The end of a row: [nextPoint ? nextPoint.time : point.time +
    effectiveInterval]. *)
Definition rowEnd (data : list BpmPoint) (interval : R) (point : BpmPoint)
    (i : nat) : R :=
  match nth_error data (S i) with
  | Some nextPoint => time nextPoint
  | None => time point + effectiveInterval interval data
  end.

(** The predicate of the highlighted row. *)
Definition isActiveRow (data : list BpmPoint) (interval currentTime : R)
    (point : BpmPoint) (i : nat) : bool :=
  let endTime :=
    match nth_error data (S i) with
    | Some nextPoint => time nextPoint
    | None => time point + effectiveInterval interval data
    end in
  negb (Rltb currentTime (time point)) && Rltb currentTime endTime.

Definition activeIndex (data : list BpmPoint) (interval currentTime : R)
    : option nat :=
  findIndexFrom (isActiveRow data interval currentTime) 0 data.

(** [averageBpm], as the number that is then printed with one decimal;
    [None] is [null]. *)
Definition averageBpm (data : list BpmPoint) : option R :=
  match data with
  | [] => None
  | _ =>
      let sum := fold_left (fun acc p => acc + bpm p) data 0 in
      Some (sum / INR (List.length data))
  end.

(** The width, in percent, of the bar drawn beside a row. *)
Definition barWidth (point : BpmPoint) : R :=
  Rmax 0 (Rmin 100 ((bpm point - 60) / 100 * 100)).

End BpmLog.

(** ** The resize handlers of App.tsx *)

Module Layout.

(** [compHeights]: the heights, in percent, of the three comparator rows
    (an array of three numbers in the source). *)
Record Heights : Type := mkHeights { h0 : R; h1 : R; h2 : R }.


Definition total (h : Heights) : R := h0 h + h1 h + h2 h.



(** [onMouseMove] of [handleAnalyzerResizeStart]. *)
Definition analyzerMouseMove (startY startHeight : R) (container : option R)
    (clientY : R) (current : R) : R :=
  match container with
  | None => current
  | Some clientHeight =>
      let delta := clientY - startY in
      let max := clientHeight - 100 in
      let min := 150 in
      Rmax min (Rmin max (startHeight + delta))
  end.


End Layout.

(** ** The tempo analysis of App.tsx *)

Module Analyzer.

Import AudioAnalysis Bpm.

(** [FilteredAudioCache]. *)
Record FilteredAudioCache : Type := mkCache {
  data : list R;
  cacheRate : R;
  cacheDuration : R
}.

(** The state and the ref of the tempo analysis. *)
Record AnalyzerState : Type := mkAnalyzer {
  bpmData : list BpmPoint;
  isAnalyzing : bool;
  bpmInterval : R;
  filteredCacheRef : option FilteredAudioCache
}.

Definition setBpmData (pts : list BpmPoint) (st : AnalyzerState)
    : AnalyzerState :=
  mkAnalyzer pts (isAnalyzing st) (bpmInterval st) (filteredCacheRef st).

Definition setIsAnalyzing (b : bool) (st : AnalyzerState) : AnalyzerState :=
  mkAnalyzer (bpmData st) b (bpmInterval st) (filteredCacheRef st).

Definition setBpmInterval (v : R) (st : AnalyzerState) : AnalyzerState :=
  mkAnalyzer (bpmData st) (isAnalyzing st) v (filteredCacheRef st).

Definition setCache (c : option FilteredAudioCache) (st : AnalyzerState)
    : AnalyzerState :=
  mkAnalyzer (bpmData st) (isAnalyzing st) (bpmInterval st) c.

Section Analysis.

(** [filterAudioBuffer], which renders the buffer through two Web Audio
    filters: the data and the sample rate it resolves to, or [None] when
    the promise is rejected. *)
Variable filterAudioBuffer : AudioBuffer -> option (list R * R).

(** The fuel of the sequencer's loop. *)
Variable fuel : nat.

(** [initialTrackAnalysis (buffer)], run to its end; [heldInterval] is the
    [bpmInterval] of the render the function belongs to.  [None]: the
    sequencer does not return. *)
Definition initialTrackAnalysis (heldInterval : R) (buffer : AudioBuffer)
    (st : AnalyzerState) : option AnalyzerState :=
  let st1 := setBpmData [] (setIsAnalyzing true st) in
  match filterAudioBuffer buffer with
  | None => Some (setIsAnalyzing false st1)
  | Some (filteredData, filteredRate) =>
      let st2 :=
        setCache (Some (mkCache filteredData filteredRate (duration buffer)))
                 st1 in
      match analyzeBpmFromData fuel filteredData filteredRate
              (duration buffer) heldInterval with
      | None => None
      | Some points => Some (setIsAnalyzing false (setBpmData points st2))
      end
  end.

(** [handleBpmIntervalChange (newInterval)]; [decodedC] is what
    [wsRefC.current.getDecodedData ()] gives, [None] when the ref or the
    data is missing.  The fallback runs the [initialTrackAnalysis] of the
    same render, which still holds the interval of the state. *)
Definition handleBpmIntervalChange (decodedC : option AudioBuffer)
    (newInterval : R) (st : AnalyzerState) : option AnalyzerState :=
  let st1 := setBpmInterval newInterval st in
  match filteredCacheRef st with
  | Some cache =>
      match analyzeBpmFromData fuel (data cache) (cacheRate cache)
              (cacheDuration cache) newInterval with
      | None => None
      | Some points => Some (setBpmData points st1)
      end
  | None =>
      match decodedC with
      | Some buffer => initialTrackAnalysis (bpmInterval st) buffer st1
      | None => Some st1
      end
  end.

End Analysis.

End Analyzer.

(** ** components/AudioMeter.tsx *)

Module Meter.

Import AudioAnalysis.

(** The accumulators of the loop over the 50 ms window. *)
Record Sums : Type := mkSums {
  sumSqL : R;
  sumSqR : R;
  sumProd : R;
  maxAmp : R
}.

(** One iteration, at index [i] of the two windows. *)
Definition sampleStep (ch0 ch1 : list R) (acc : Sums) (i : nat) : Sums :=
  let sL := nth i ch0 0 in
  let sR := nth i ch1 0 in
  let absL := Rabs sL in
  let absR := Rabs sR in
  let m1 := if Rgtb absL (maxAmp acc) then absL else maxAmp acc in
  let m2 := if Rgtb absR m1 then absR else m1 in
  mkSums (sumSqL acc + sL * sL) (sumSqR acc + sR * sR)
         (sumProd acc + sL * sR) m2.

Definition sumsOf (ch0 ch1 : list R) : Sums :=
  fold_left (sampleStep ch0 ch1) (seq 0 (List.length ch0)) (mkSums 0 0 0 0).

(** The three values one frame measures. *)
Record Reading : Type := mkReading {
  currentPeak : R;
  currentLufs : R;
  currentCorr : R
}.

(** The values of a frame that measures nothing. *)
Definition idleReading : Reading := mkReading (-60) (-60) 1.

Definition readingOf (ch0 ch1 : list R) : Reading :=
  let a := sumsOf ch0 ch1 in
  let peak :=
    if Rgtb (maxAmp a) 0 then 20 * log10 (maxAmp a) else -60 in
  let rms := sqrt ((sumSqL a + sumSqR a) / (2 * INR (List.length ch0))) in
  let lufs := if Rgtb rms 0 then 20 * log10 rms else -60 in
  let denominator := sqrt (sumSqL a * sumSqR a) in
  let corr :=
    if Rgtb denominator (1 / 1000000) then sumProd a / denominator else 1 in
  mkReading peak lufs corr.

(** The first part of [draw]: [playing] is [ws && ws.isPlaying ()],
    [buffer] is [ws.getDecodedData ()], and [subarray] resolves its bounds
    as [slice] does. *)
Definition acquire (playing : bool) (buffer : option AudioBuffer)
    (currentTime : R) : Reading :=
  if playing then
    match buffer with
    | None => idleReading
    | Some buffer =>
        let startSample := Zfloor (currentTime * sampleRate buffer) in
        let endSample :=
          (startSample + Zfloor (5 / 100 * sampleRate buffer))%Z in
        if (endSample <? Z.of_nat (length buffer))%Z then
          let ch0 :=
            Bpm.slice (nth 0 (channelData buffer) []) startSample endSample in
          let ch1 :=
            if (1 <? numberOfChannels buffer)%nat
            then Bpm.slice (nth 1 (channelData buffer) [])
                   startSample endSample
            else ch0 in
          readingOf ch0 ch1
        else idleReading
    end
  else idleReading.

(** [dbToY], for a canvas of the given height. *)
Definition dbToY (height db : R) : R :=
  let bottomAreaHeight := 12 in
  let meterHeight := height - bottomAreaHeight - 4 in
  let clamped := Rmax (-60) (Rmin 3 db) in
  let percent := (clamped - 3) / (-60 - 3) in
  percent * meterHeight.

End Meter.

(** ** services/geminiService.ts: the WAV encoder *)

Module Wav.

Import AudioAnalysis.

(** The [DataView] over the output buffer (one number in 0..255 per byte)
    and the two cursors of the function. *)
Record Writer : Type := mkWriter {
  view : list Z;
  pos : nat;
  offset : nat
}.

(** The [k]-th byte of an integer, lowest first: what a little-endian
    [DataView] setter stores, whatever the integer's size or sign. *)
Definition byteOf (x k : Z) : Z := Z.land (Z.shiftr x (8 * k)) 255.

Definition le16 (x : Z) : list Z := [byteOf x 0; byteOf x 1].
Definition le32 (x : Z) : list Z :=
  [byteOf x 0; byteOf x 1; byteOf x 2; byteOf x 3].

(** A [DataView] setter at [byteOffset]; [None] is its [RangeError]. *)
Definition store (v : list Z) (byteOffset : nat) (bytes : list Z)
    : option (list Z) :=
  if (byteOffset + List.length bytes <=? List.length v)%nat
  then Some (firstn byteOffset v ++ bytes
             ++ skipn (byteOffset + List.length bytes) v)
  else None.

(** [DataView.prototype.getInt16 (_, true)] on two bytes. *)
Definition getInt16 (b0 b1 : Z) : Z :=
  let u := (b0 + 256 * b1)%Z in
  if (u <? 32768)%Z then u else (u - 65536)%Z.

Definition bind {X Y : Type} (m : option X) (f : X -> option Y) : option Y :=
  match m with
  | Some x => f x
  | None => None
  end.

Local Notation "x <- m ;; k" := (bind m (fun x => k))
  (at level 61, m at next level, right associativity).

(** The two helper functions of the encoder. *)
Definition setUint16 (data : Z) (w : Writer) : option Writer :=
  v <- store (view w) (pos w) (le16 data) ;;
  Some (mkWriter v (pos w + 2) (offset w)).

Definition setUint32 (data : Z) (w : Writer) : option Writer :=
  v <- store (view w) (pos w) (le32 data) ;;
  Some (mkWriter v (pos w + 4) (offset w)).

(** [x | 0]: the integer part, wrapped to 32 bits. *)
Definition toInt32 (x : R) : Z :=
  ((Format.truncate x + 2147483648) mod 4294967296 - 2147483648)%Z.

(** The two statements that turn a sample into a 16-bit integer. *)
Definition quantise (x : R) : Z :=
  let sample := Rmax (-1) (Rmin 1 x) in
  toInt32 (if Rltb (5 / 10 + sample) 0
           then sample * 32768 else sample * 32767).

(** The inner loop over the channels, at the frame [pos]. *)
Fixpoint forChannels (channels : list (list R)) (w : Writer)
    : option Writer :=
  match channels with
  | [] => Some w
  | ch :: rest =>
      v <- store (view w) (44 + offset w)
             (le16 (quantise (nth (pos w) ch 0))) ;;
      forChannels rest (mkWriter v (pos w) (offset w + 2))
  end.

(** [while (pos < buffer.length) { ...; pos++ }], for the [n] iterations
    that are left. *)
Fixpoint whileFrames (n : nat) (channels : list (list R)) (w : Writer)
    : option Writer :=
  match n with
  | O => Some w
  | S n' =>
      w' <- forChannels channels w ;;
      whileFrames n' channels (mkWriter (view w') (pos w' + 1) (offset w'))
  end.

(** The header, written through the cursor [pos]. *)
Definition writeHeader (numOfChan total : Z) (rate : R) (w : Writer)
    : option Writer :=
  w <- setUint32 0x46464952 w ;;
  w <- setUint32 (total - 8) w ;;
  w <- setUint32 0x45564157 w ;;
  w <- setUint32 0x20746d66 w ;;
  w <- setUint32 16 w ;;
  w <- setUint16 1 w ;;
  w <- setUint16 numOfChan w ;;
  w <- setUint32 (Format.truncate rate) w ;;
  w <- setUint32 (Format.truncate (rate * 2 * IZR numOfChan)) w ;;
  w <- setUint16 (numOfChan * 2) w ;;
  w <- setUint16 16 w ;;
  w <- setUint32 0x61746164 w ;;
  setUint32 (total - Z.of_nat (pos w) - 4) w.

(** [audioBufferToWavBase64], up to the bytes it hands to [btoa]. *)
Definition audioBufferToWavBytes (buffer : AudioBuffer) : option (list Z) :=
  let numOfChan := Z.of_nat (numberOfChannels buffer) in
  let total := (Z.of_nat (length buffer) * numOfChan * 2 + 44)%Z in
  let w0 := mkWriter (repeat 0%Z (Z.to_nat total)) 0 0 in
  w <- writeHeader numOfChan total (sampleRate buffer) w0 ;;
  w <- whileFrames (length buffer - pos w) (channelData buffer) w ;;
  Some (view w).

(** The 44 bytes of the header. *)
Definition headerOf (buffer : AudioBuffer) : list Z :=
  let numOfChan := Z.of_nat (numberOfChannels buffer) in
  let total := (Z.of_nat (length buffer) * numOfChan * 2 + 44)%Z in
  le32 0x46464952 ++ le32 (total - 8) ++ le32 0x45564157
  ++ le32 0x20746d66 ++ le32 16 ++ le16 1 ++ le16 numOfChan
  ++ le32 (Format.truncate (sampleRate buffer))
  ++ le32 (Format.truncate (sampleRate buffer * 2 * IZR numOfChan))
  ++ le16 (numOfChan * 2) ++ le16 16 ++ le32 0x61746164
  ++ le32 (total - 44).

(** The bytes of one frame: a 16-bit sample per channel. *)
Definition frameBytes (channels : list (list R)) (frame : nat) : list Z :=
  flat_map (fun ch => le16 (quantise (nth frame ch 0))) channels.

End Wav.

(** ** Volumes a media element accepts *)

Module Parameters.

Import App.

(** The volume of every media element is one the element accepts. *)
Definition legalVolumes (s : AppState) : Prop :=
  forall p d, heap s p = Some d -> 0 <= volume d <= 1.

(** Both gains of the pair are attenuations. *)
Definition unitGains (s : AppState) : Prop :=
  0 <= gainA (trackGains s) <= 1 /\ 0 <= gainB (trackGains s) <= 1.

End Parameters.

(** * Properties *)

(** ** Comparisons *)

Lemma Rltb_true (x y : R) : Rltb x y = true <-> x < y.
Proof. unfold Rltb; destruct (Rlt_dec x y); split; intros; congruence || lra. Qed.

Lemma Rltb_false (x y : R) : Rltb x y = false <-> y <= x.
Proof. unfold Rltb; destruct (Rlt_dec x y); split; intros; congruence || lra. Qed.

Lemma Rgtb_true (x y : R) : Rgtb x y = true <-> x > y.
Proof. unfold Rgtb; rewrite Rltb_true; lra. Qed.

Lemma Rgtb_false (x y : R) : Rgtb x y = false <-> x <= y.
Proof. unfold Rgtb; rewrite Rltb_false; lra. Qed.

Lemma Reqb_true (x y : R) : Reqb x y = true <-> x = y.
Proof. unfold Reqb; destruct (Req_dec_T x y); split; intros; congruence. Qed.

Lemma Reqb_false (x y : R) : Reqb x y = false <-> x <> y.
Proof. unfold Reqb; destruct (Req_dec_T x y); split; intros; congruence. Qed.

(** Decide one comparison of the goal from the arithmetic context. *)
Ltac decide_cmp :=
  match goal with
  | |- context [Rltb ?x ?y] =>
      first [ rewrite (proj2 (Rltb_true x y)) by lra
            | rewrite (proj2 (Rltb_false x y)) by lra ]
  | |- context [Rgtb ?x ?y] =>
      first [ rewrite (proj2 (Rgtb_true x y)) by lra
            | rewrite (proj2 (Rgtb_false x y)) by lra ]
  | |- context [Reqb ?x ?y] =>
      first [ rewrite (proj2 (Reqb_true x y)) by lra
            | rewrite (proj2 (Reqb_false x y)) by lra ]
  end.

(** ** Auto-gain resolver *)

Section AutoGainFacts.

Import App.

Lemma ln10_pos : 0 < ln 10.
Proof. rewrite <- ln_1. apply ln_increasing; lra. Qed.

Lemma pow10_zero : Rpower 10 0 = 1.
Proof. apply Rpower_O; lra. Qed.

Lemma pow10_neg (x : R) : x < 0 -> Rpower 10 x < 1.
Proof.
  intro Hx. rewrite <- pow10_zero. apply Rpower_lt; lra.
Qed.

Lemma pow10_nonpos (x : R) : x <= 0 -> Rpower 10 x <= 1.
Proof.
  intros [Hx | ->].
  - left. now apply pow10_neg.
  - right. apply pow10_zero.
Qed.

Lemma resolveGains_quieter_A (dbA dbB : R) :
  dbA <= dbB -> gainA (resolveGains dbA dbB) = 1.
Proof.
  intro H. unfold resolveGains; cbn. rewrite Rmin_left by exact H.
  replace ((dbA - dbA) / 20) with 0 by lra. apply pow10_zero.
Qed.

Lemma resolveGains_quieter_B (dbA dbB : R) :
  dbB <= dbA -> gainB (resolveGains dbA dbB) = 1.
Proof.
  intro H. unfold resolveGains; cbn. rewrite Rmin_right by exact H.
  replace ((dbB - dbB) / 20) with 0 by lra. apply pow10_zero.
Qed.

Lemma resolveGains_louder_A (dbA dbB : R) :
  dbB < dbA -> gainA (resolveGains dbA dbB) < 1.
Proof.
  intro H. unfold resolveGains; cbn. rewrite Rmin_right by lra.
  apply pow10_neg. lra.
Qed.

Lemma resolveGains_louder_B (dbA dbB : R) :
  dbA < dbB -> gainB (resolveGains dbA dbB) < 1.
Proof.
  intro H. unfold resolveGains; cbn. rewrite Rmin_left by lra.
  apply pow10_neg. lra.
Qed.

(** The effect hands [resolveGains] the two measured loudness values once
    both instances are set and both buffers are decoded. *)
Lemma autoGainEffect_decoded (s : AppState) (pa pb : Ptr)
    (bufA bufB : AudioAnalysis.AudioBuffer) :
  wsInstanceA s = Some pa -> wsInstanceB s = Some pb ->
  getDecodedData s pa = Some bufA -> getDecodedData s pb = Some bufB ->
  autoGainEffect s
  = Some (resolveGains (AudioAnalysis.calculateTrackLoudness bufA)
                       (AudioAnalysis.calculateTrackLoudness bufB)).
Proof.
  intros Ha Hb Hda Hdb. unfold autoGainEffect.
  now rewrite Ha, Hb, Hda, Hdb.
Qed.

(** C2.  For all loudness values [dbA] and [dbB] the resolver returns
    [10^((min dbA dbB - dbA)/20)] and [10^((min dbA dbB - dbB)/20)]; the
    track that is not louder has gain exactly 1, a strictly louder track has
    a gain below 1, the larger of the two gains is 1 and none exceeds 1. *)
Theorem resolveGains_spec (dbA dbB : R) :
  let g := resolveGains dbA dbB in
  gainA g = Rpower 10 ((Rmin dbA dbB - dbA) / 20)
  /\ gainB g = Rpower 10 ((Rmin dbA dbB - dbB) / 20)
  /\ (dbA <= dbB -> gainA g = 1)
  /\ (dbB <= dbA -> gainB g = 1)
  /\ (dbB < dbA -> gainA g < 1)
  /\ (dbA < dbB -> gainB g < 1)
  /\ Rmax (gainA g) (gainB g) = 1
  /\ gainA g <= 1 /\ gainB g <= 1.
Proof.
  cbv zeta.
  assert (HA : gainA (resolveGains dbA dbB) <= 1).
  { unfold resolveGains; cbn. apply pow10_nonpos.
    pose proof (Rmin_l dbA dbB). lra. }
  assert (HB : gainB (resolveGains dbA dbB) <= 1).
  { unfold resolveGains; cbn. apply pow10_nonpos.
    pose proof (Rmin_r dbA dbB). lra. }
  repeat split; auto using resolveGains_quieter_A, resolveGains_quieter_B,
    resolveGains_louder_A, resolveGains_louder_B.
  destruct (Rle_dec dbA dbB) as [Hle | Hgt].
  - rewrite (resolveGains_quieter_A _ _ Hle). apply Rmax_left. exact HB.
  - assert (Hle : dbB <= dbA) by lra.
    rewrite (resolveGains_quieter_B _ _ Hle). apply Rmax_right. exact HA.
Qed.

(** The example of the design document: -10 dB against -16 dB. *)
Lemma resolveGains_spec_witness :
  gainB (resolveGains (-10) (-16)) = 1
  /\ gainA (resolveGains (-10) (-16)) < 1
  /\ gainA (resolveGains (-10) (-16)) = Rpower 10 (-6 / 20).
Proof.
  destruct (resolveGains_spec (-10) (-16))
    as (Ha & _ & _ & HqB & HlA & _ & _ & _ & _).
  split; [apply HqB; lra | split; [apply HlA; lra |]].
  rewrite Ha. f_equal. rewrite Rmin_right by lra. lra.
Defined.

End AutoGainFacts.

(** ** Loudness meter *)

Section LoudnessFacts.

Import AudioAnalysis.

Lemma fold_left_Rplus (l : list R) (acc : R) :
  fold_left Rplus l acc = acc + Design.Rsum l.
Proof.
  revert acc. induction l as [| x l IH]; intro acc; cbn.
  - lra.
  - rewrite IH. unfold Design.Rsum. lra.
Qed.

Lemma map_seq_shift {X : Type} (f : nat -> X) (n : nat) :
  map f (seq 1 n) = map (fun k => f (S k)) (seq 0 n).
Proof. now rewrite <- seq_shift, map_map. Qed.

(** The strided loop, unrolled: [m] iterations, of which [fuel] allows at
    least that many, read the samples [i], [i + stride], ... *)
Lemma strideLoop_unroll (data : list R) (len : nat) :
  forall (m fuel i : nat) (chanSum : R) (count : nat),
    (m <= fuel)%nat ->
    (len <= i + m * stride)%nat ->
    (forall k, (k < m)%nat -> (i + k * stride < len)%nat) ->
    strideLoop fuel data len i chanSum count
    = (chanSum
       + Design.Rsum (map (fun k => nth (i + k * stride) data 0
                                    * nth (i + k * stride) data 0)
                          (seq 0 m)),
       (count + m)%nat).
Proof.
  induction m as [| m IH]; intros fuel i chanSum count Hfuel Hend Hin.
  - cbn [seq map Design.Rsum fold_right].
    rewrite Nat.add_0_r, Rplus_0_r.
    destruct fuel as [| fuel]; cbn [strideLoop]; [reflexivity |].
    replace (i <? len)%nat with false; [reflexivity |].
    symmetry. apply Nat.ltb_ge. lia.
  - destruct fuel as [| fuel]; [lia |].
    cbn [strideLoop].
    replace (i <? len)%nat with true.
    2:{ symmetry. apply Nat.ltb_lt. specialize (Hin 0%nat). lia. }
    rewrite (IH fuel (i + stride)%nat) by
      (try lia; intros k Hk; specialize (Hin (S k)); lia).
    f_equal; [| lia].
    cbn [seq map Design.Rsum fold_right].
    rewrite map_seq_shift.
    replace (i + 0 * stride)%nat with i by lia.
    replace (map (fun k => nth (i + stride + k * stride) data 0
                           * nth (i + stride + k * stride) data 0) (seq 0 m))
      with (map (fun k => nth (i + S k * stride) data 0
                          * nth (i + S k * stride) data 0) (seq 0 m)).
    + unfold Design.Rsum. lra.
    + apply map_ext. intro k.
      now replace (i + stride + k * stride)%nat
        with (i + S k * stride)%nat by lia.
Qed.

Lemma stride_count_bounds (len : nat) :
  let m := ((len + (stride - 1)) / stride)%nat in
  (m <= len)%nat /\ (len <= m * stride)%nat
  /\ (forall k, (k < m)%nat -> (k * stride < len)%nat).
Proof.
  unfold stride. cbv zeta.
  pose proof (Nat.div_mod_eq (len + (1000 - 1)) 1000) as E.
  pose proof (Nat.mod_upper_bound (len + (1000 - 1)) 1000) as U.
  repeat split; try intros k Hk; lia.
Qed.

(** The strided loop of the program reads exactly the strided samples. *)
Lemma strideLoop_strided (data : list R) :
  strideLoop (List.length data) data (List.length data) 0 0 0
  = (Design.Rsum (map (fun x => x * x) (Design.strided data)),
     List.length (Design.strided data)).
Proof.
  destruct (stride_count_bounds (List.length data)) as (H1 & H2 & H3).
  rewrite (strideLoop_unroll data (List.length data)
             ((List.length data + (stride - 1)) / stride)) by (auto; lia).
  unfold Design.strided.
  rewrite Rplus_0_l, map_map, length_map, length_seq. reflexivity.
Qed.

Lemma channelStep_power (data : list R) (sumSq : R) :
  channelStep (List.length data) sumSq data
  = sumSq + Design.channelPower data.
Proof.
  unfold channelStep. rewrite strideLoop_strided.
  unfold Design.channelPower, Design.meanSquare.
  destruct (Design.strided data) as [| x xs]; cbn [List.length Nat.ltb Nat.leb].
  - lra.
  - reflexivity.
Qed.

Lemma channelPowerSum_spec (b : AudioBuffer) :
  wellFormed b ->
  channelPowerSum b = Design.Rsum (map Design.channelPower (channelData b)).
Proof.
  unfold wellFormed, channelPowerSum.
  generalize (length b) as len. intros len Hwf.
  enough (G : forall acc,
             fold_left (channelStep len) (channelData b) acc
             = acc + Design.Rsum (map Design.channelPower (channelData b))).
  { rewrite G. lra. }
  induction Hwf as [| ch chs Hch _ IH]; intro acc;
    cbn [fold_left map Design.Rsum fold_right].
  - lra.
  - rewrite IH, <- Hch, channelStep_power. unfold Design.Rsum. lra.
Qed.

Lemma avgPower_spec (b : AudioBuffer) :
  wellFormed b -> avgPower b = Design.avgPower b.
Proof.
  intro Hwf. unfold avgPower, Design.avgPower.
  now rewrite channelPowerSum_spec.
Qed.

Lemma ln_floor_threshold : ln (1 / 100000) = - (5 * ln 10).
Proof.
  replace (1 / 100000) with (/ 10 ^ 5) by (cbn; lra).
  rewrite ln_Rinv by (apply pow_lt; lra).
  rewrite ln_pow by lra. cbn [INR]. lra.
Qed.

Lemma log10_floor (x : R) : 1 / 100000 <= x -> -100 <= 20 * log10 x.
Proof.
  intro Hx. unfold log10.
  assert (Hln : - (5 * ln 10) <= ln x).
  { rewrite <- ln_floor_threshold. destruct Hx as [Hlt | <-]; [| lra].
    left. apply ln_increasing; lra. }
  pose proof ln10_pos as H10.
  replace (-100) with (20 * (- (5 * ln 10) / ln 10)) by (field; lra).
  apply Rmult_le_compat_l; [lra |].
  apply Rmult_le_compat_r; [| exact Hln].
  left. now apply Rinv_0_lt_compat.
Qed.

Lemma nth_all_zero (l : list R) (i : nat) :
  Forall Design.isZero l -> nth i l 0 = 0.
Proof.
  intro H. revert i. induction H as [| x l Hx _ IH]; intros [| i]; cbn; auto.
Qed.

Lemma Rsum_all_zero (l : list R) :
  Forall Design.isZero l -> Design.Rsum l = 0.
Proof.
  induction 1 as [| x l Hx _ IH]; cbn; [reflexivity |].
  unfold Design.Rsum in IH. rewrite IH, Hx. lra.
Qed.

Lemma channelPower_silent (data : list R) :
  Forall Design.isZero data -> Design.channelPower data = 0.
Proof.
  intro H. unfold Design.channelPower.
  destruct (Design.strided data) as [| x xs] eqn:E; [reflexivity |].
  unfold Design.meanSquare. rewrite Rsum_all_zero; [lra |].
  rewrite <- E. unfold Design.strided. rewrite map_map.
  apply Forall_forall. intros y Hy. apply in_map_iff in Hy.
  destruct Hy as (k & <- & _). unfold Design.isZero.
  rewrite (nth_all_zero data _ H). lra.
Qed.

Lemma avgPower_silent (b : AudioBuffer) :
  Design.silent b -> Design.avgPower b = 0.
Proof.
  intro H. unfold Design.avgPower. rewrite Rsum_all_zero; [lra |].
  apply Forall_forall. intros y Hy. apply in_map_iff in Hy.
  destruct Hy as (ch & <- & Hin). unfold Design.isZero.
  apply channelPower_silent.
  unfold Design.silent in H. rewrite Forall_forall in H. now apply H.
Qed.

(** C5.  On a decoded buffer with at least one channel the meter returns the
    design's loudness (mean-square amplitude of every 1000th sample per
    channel, averaged across the channels, then [20 log10 (sqrt avgPower)],
    floored); the result is at least -100, is exactly -100 when the RMS is
    below 1e-5, and is exactly -100 on an all-zero buffer. *)
Theorem calculateTrackLoudness_spec (b : AudioBuffer) :
  (1 <= numberOfChannels b)%nat ->
  wellFormed b ->
  calculateTrackLoudness b = Design.loudness b
  /\ rmsOf b = sqrt (Design.avgPower b)
  /\ -100 <= calculateTrackLoudness b
  /\ (rmsOf b < 1 / 100000 -> calculateTrackLoudness b = -100)
  /\ (1 / 100000 <= rmsOf b ->
      calculateTrackLoudness b = 20 * log10 (sqrt (Design.avgPower b)))
  /\ (Design.silent b -> calculateTrackLoudness b = -100).
Proof.
  intros _ Hwf.
  assert (Erms : rmsOf b = sqrt (Design.avgPower b)).
  { unfold rmsOf. now rewrite avgPower_spec. }
  assert (Hlow : rmsOf b < 1 / 100000 -> calculateTrackLoudness b = -100).
  { intro H. unfold calculateTrackLoudness. cbv zeta.
    now rewrite (proj2 (Rltb_true _ _) H). }
  assert (Hhigh : 1 / 100000 <= rmsOf b ->
                  calculateTrackLoudness b = 20 * log10 (rmsOf b)).
  { intro H. unfold calculateTrackLoudness. cbv zeta.
    now rewrite (proj2 (Rltb_false _ _) H). }
  repeat split.
  - unfold calculateTrackLoudness, Design.loudness. cbv zeta.
    now rewrite Erms.
  - exact Erms.
  - destruct (Rlt_dec (rmsOf b) (1 / 100000)) as [Hlt | Hge].
    + rewrite Hlow by exact Hlt. lra.
    + rewrite Hhigh by lra. apply log10_floor. lra.
  - exact Hlow.
  - intro H. rewrite Hhigh by exact H. now rewrite Erms.
  - intro Hs. apply Hlow. rewrite Erms, avgPower_silent by exact Hs.
    rewrite sqrt_0. lra.
Qed.

(** A two-channel buffer of two samples, one of them non-zero. *)
Lemma calculateTrackLoudness_spec_witness :
  let b := mkAudioBuffer 2 44100 (2 / 44100) [[1; 0]; [0; 0]] in
  calculateTrackLoudness b = Design.loudness b
  /\ -100 <= calculateTrackLoudness b.
Proof.
  cbv zeta.
  destruct (calculateTrackLoudness_spec
              (mkAudioBuffer 2 44100 (2 / 44100) [[1; 0]; [0; 0]]))
    as (H1 & _ & H2 & _).
  - cbn. lia.
  - repeat constructor.
  - split; [exact H1 | exact H2].
Defined.

End LoudnessFacts.

(** ** Per-window tempo estimator *)

Section EstimatorFacts.

Import Bpm.

Lemma INR_downsampleRatio : INR downsampleRatio = 256.
Proof. unfold downsampleRatio. rewrite INR_IZR_INZ. reflexivity. Qed.

(** The envelope has [Math.ceil (data.length / downsampleRatio)] cells. *)
Lemma envelopeLengthOf_ceil (data : list R) :
  Z.of_nat (envelopeLengthOf data)
  = Zceil (INR (List.length data) / INR downsampleRatio).
Proof.
  unfold envelopeLengthOf. rewrite INR_downsampleRatio.
  set (n := List.length data).
  set (m := ((n + (downsampleRatio - 1)) / downsampleRatio)%nat).
  assert (H : (n <= m * 256 /\ m * 256 < n + 256)%nat).
  { subst m. unfold downsampleRatio.
    pose proof (Nat.div_mod_eq (n + (256 - 1)) 256) as E.
    pose proof (Nat.mod_upper_bound (n + (256 - 1)) 256) as U. lia. }
  destruct H as [H1 H2].
  apply le_INR in H1. apply lt_INR in H2.
  rewrite mult_INR in H1, H2. rewrite plus_INR in H2.
  replace (INR 256) with 256 in H1, H2 by (rewrite INR_IZR_INZ; reflexivity).
  symmetry. apply Zceil_eq. rewrite <- INR_IZR_INZ. lra.
Qed.

Lemma envelopeOf_length (data : list R) :
  List.length (envelopeOf data) = envelopeLengthOf data.
Proof. unfold envelopeOf. now rewrite length_map, length_seq. Qed.

Lemma clampBpm_range (x : R) : minBpm <= clampBpm x <= maxBpm.
Proof.
  unfold clampBpm, minBpm, maxBpm. cbv zeta.
  destruct (Rlt_dec x 55) as [H | H].
  - rewrite (proj2 (Rltb_true _ _) H). decide_cmp. lra.
  - rewrite (proj2 (Rltb_false x 55)) by lra.
    destruct (Rlt_dec 190 x) as [H' | H'].
    + rewrite (proj2 (Rgtb_true _ _)) by lra. lra.
    + rewrite (proj2 (Rgtb_false _ _)) by lra. lra.
Qed.

(** Whatever the estimator returns is a clamped value. *)
Lemma detectBpmInChunk_range (data : list R) (sampleRate b : R) :
  detectBpmInChunk data sampleRate = Some b -> minBpm <= b <= maxBpm.
Proof.
  unfold detectBpmInChunk. cbv zeta.
  destruct (_ =? -1)%Z; [discriminate |].
  intros [= <-]. apply clampBpm_range.
Qed.

Lemma onsetAt_nonneg (envelope : list R) (i : nat) : 0 <= onsetAt envelope i.
Proof. destruct i; cbn; [lra | apply Rmax_l]. Qed.

Lemma getAt_onset_nonneg (envelope : list R) (k : Z) :
  0 <= getAt (onsetOf envelope) k.
Proof.
  unfold getAt. destruct (k <? 0)%Z; [lra |].
  destruct (Nat.lt_ge_cases (Z.to_nat k) (List.length (onsetOf envelope)))
    as [Hlt | Hge].
  - unfold onsetOf in *. rewrite length_map, length_seq in Hlt.
    rewrite (nth_indep _ 0 (onsetAt envelope 0%nat))
      by now rewrite length_map, length_seq.
    rewrite map_nth, seq_nth by exact Hlt. apply onsetAt_nonneg.
  - rewrite nth_overflow by exact Hge. lra.
Qed.

(** A sum of products of non-negative terms. *)
Lemma fold_left_nonneg {X : Type} (f : X -> R) (l : list X) (acc : R) :
  (forall x, 0 <= f x) -> 0 <= acc ->
  0 <= fold_left (fun s x => s + f x) l acc.
Proof.
  intro Hf. revert acc. induction l as [| x l IH]; intros acc Hacc; cbn.
  - exact Hacc.
  - apply IH. specialize (Hf x). lra.
Qed.

Lemma getCorrAt_nonneg (envelope : list R) (n : nat) (l : Z) :
  0 <= getCorrAt (onsetOf envelope) n l.
Proof.
  unfold getCorrAt.
  apply (fold_left_nonneg
           (fun i => getAt (onsetOf envelope) (Z.of_nat i)
                     * getAt (onsetOf envelope) (Z.of_nat i + l))).
  - intro i. apply Rmult_le_pos; apply getAt_onset_nonneg.
  - lra.
Qed.

Lemma lagWeight_pos (envelopeRate : R) (lag : Z) :
  0 < lagWeight envelopeRate lag.
Proof. unfold lagWeight. cbv zeta. apply exp_pos. Qed.

(** Every candidate lag's weighted correlation is non-negative, hence above
    the initial sentinel. *)
Lemma weighted_corr_nonneg (envelope : list R) (n : nat) (rate : R) (lag : Z) :
  0 <= getCorrAt (onsetOf envelope) n lag * lagWeight rate lag.
Proof.
  apply Rmult_le_pos; [apply getCorrAt_nonneg |].
  left. apply lagWeight_pos.
Qed.

Lemma lagRange_In (minLag maxLag l : Z) :
  In l (lagRange minLag maxLag) <-> (minLag <= l <= maxLag)%Z.
Proof.
  unfold lagRange. rewrite in_map_iff. split.
  - intros (k & <- & Hk). apply in_seq in Hk. lia.
  - intro H. exists (Z.to_nat (l - minLag)). split; [lia |].
    apply in_seq. lia.
Qed.

Lemma lagRange_cons (minLag maxLag : Z) :
  (minLag <= maxLag)%Z ->
  exists rest, lagRange minLag maxLag = minLag :: rest.
Proof.
  intro H. unfold lagRange.
  destruct (Z.to_nat (maxLag - minLag + 1)) as [| n] eqn:E; [lia |].
  cbn [seq map]. eexists. f_equal. lia.
Qed.

(** The search keeps the lag it starts from or selects one it visits. *)
Lemma search_selects (onset : list R) (n : nat) (rate : R) (lags : list Z) :
  forall acc,
    snd (fold_left (lagStep onset n rate) lags acc) = snd acc
    \/ In (snd (fold_left (lagStep onset n rate) lags acc)) lags.
Proof.
  induction lags as [| l lags IH]; intro acc; cbn [fold_left].
  - now left.
  - destruct (IH (lagStep onset n rate acc l)) as [E | HIn].
    + rewrite E. unfold lagStep. cbv zeta.
      destruct (Rgtb _ _); cbn [snd]; [right; now left | now left].
    + right. now right.
Qed.

Lemma minLag_nonneg (rate : R) : 0 < rate -> (0 <= minLagOf rate)%Z.
Proof.
  intro H. unfold minLagOf, maxBpm. apply Zfloor_lub. cbn [IZR].
  apply Rmult_le_pos; lra.
Qed.

Lemma minLag_le_maxLag (rate : R) :
  0 < rate -> (minLagOf rate <= maxLagOf rate)%Z.
Proof.
  intro H. unfold minLagOf, maxLagOf, minBpm, maxBpm. apply Zfloor_le.
  apply Rmult_le_compat_r; lra.
Qed.

(** With a positive rate the search selects a lag of its range. *)
Lemma searchLags_selects (envelope : list R) (n : nat) (rate : R) :
  0 < rate ->
  (minLagOf rate <= snd (searchLags (onsetOf envelope) n rate)
   <= maxLagOf rate)%Z.
Proof.
  intro H. unfold searchLags.
  destruct (lagRange_cons _ _ (minLag_le_maxLag rate H)) as (rest & E).
  apply lagRange_In. rewrite E. cbn [fold_left].
  assert (Efirst : lagStep (onsetOf envelope) n rate (-1, (-1)%Z)
                     (minLagOf rate)
                   = (getCorrAt (onsetOf envelope) n (minLagOf rate)
                      * lagWeight rate (minLagOf rate), minLagOf rate)).
  { unfold lagStep. cbv zeta. cbn [fst].
    pose proof (weighted_corr_nonneg envelope n rate (minLagOf rate)).
    rewrite (proj2 (Rgtb_true _ _)) by lra. reflexivity. }
  rewrite Efirst.
  destruct (search_selects (onsetOf envelope) n rate rest
              (getCorrAt (onsetOf envelope) n (minLagOf rate)
               * lagWeight rate (minLagOf rate), minLagOf rate))
    as [Es | HIn].
  - rewrite Es. now left.
  - now right.
Qed.

Lemma downsampled_rate_pos (sampleRate : R) :
  0 < sampleRate -> 0 < sampleRate / INR downsampleRatio.
Proof.
  intro H. apply Rdiv_lt_0_compat; [exact H |].
  apply lt_0_INR. unfold downsampleRatio. lia.
Qed.

(** With a positive sample rate the estimator returns a number, never
    [null], and the number passes the test [if (bpm)]. *)
Lemma detectBpmInChunk_total (data : list R) (sampleRate : R) :
  0 < sampleRate ->
  exists b, detectBpmInChunk data sampleRate = Some b
            /\ minBpm <= b <= maxBpm /\ truthy (Some b) = true.
Proof.
  intro H.
  pose proof (downsampled_rate_pos sampleRate H) as Hrate.
  pose proof (searchLags_selects (envelopeOf data) (envelopeLengthOf data)
                _ Hrate) as Hsel.
  pose proof (minLag_nonneg _ Hrate) as Hmin.
  unfold detectBpmInChunk. cbv zeta.
  destruct (Z.eqb_spec
              (snd (searchLags (onsetOf (envelopeOf data))
                      (envelopeLengthOf data)
                      (sampleRate / INR downsampleRatio))) (-1)) as [E | _].
  - lia.
  - eexists. split; [reflexivity |].
    pose proof (clampBpm_range
                  (60 * (sampleRate / INR downsampleRatio)
                   / refineLag (onsetOf (envelopeOf data))
                       (envelopeLengthOf data)
                       (snd (searchLags (onsetOf (envelopeOf data))
                               (envelopeLengthOf data)
                               (sampleRate / INR downsampleRatio)))))
      as Hc.
    split; [exact Hc |].
    unfold truthy, minBpm, maxBpm in *.
    rewrite (proj2 (Reqb_false _ _)) by lra. reflexivity.
Qed.

End EstimatorFacts.

(** ** Windowed tempo sequencer *)

Section SequencerFacts.

Import Bpm.

Variable detect : list R -> R -> option R.
Variable data : list R.
Variables sampleRate duration : R.

Local Abbreviation windowStep := (windowStep detect data sampleRate duration).
Local Abbreviation analyzeLoop := (analyzeLoop detect data sampleRate duration).

(** *** The loop and its fuel *)

Lemma analyzeLoop_fuel_mono (fuel extra : nat) (step windowSize : R) :
  forall startTime points res,
    analyzeLoop fuel step windowSize startTime points = Some res ->
    analyzeLoop (fuel + extra) step windowSize startTime points = Some res.
Proof.
  induction fuel as [| fuel IH]; intros startTime points res; cbn.
  - discriminate.
  - destruct (Rltb startTime duration); [apply IH | auto].
Qed.

(** A step that is not positive never leaves a window that started before
    the end: no amount of fuel reaches the exit. *)
Lemma analyzeLoop_diverges (fuel : nat) (step windowSize : R) :
  step <= 0 ->
  forall startTime points,
    startTime < duration ->
    analyzeLoop fuel step windowSize startTime points = None.
Proof.
  intro Hstep. induction fuel as [| fuel IH]; intros startTime points Hlt; cbn.
  - reflexivity.
  - rewrite (proj2 (Rltb_true _ _) Hlt). apply IH. lra.
Qed.

(** The loop unrolled: from the [k]-th multiple of a step, [n] windows. *)
Lemma analyzeLoop_unroll (step windowSize : R) :
  forall (n k fuel : nat) (points : list BpmPoint),
    (n < fuel)%nat ->
    (forall j, (k <= j < k + n)%nat -> INR j * step < duration) ->
    duration <= INR (k + n) * step ->
    analyzeLoop fuel step windowSize (INR k * step) points
    = Some (fold_left (windowStep windowSize)
              (map (fun j => INR j * step) (seq k n)) points).
Proof.
  induction n as [| n IH]; intros k fuel points Hfuel Hin Hout.
  - destruct fuel as [| fuel]; [lia |]. cbn.
    rewrite Nat.add_0_r in Hout.
    now rewrite (proj2 (Rltb_false _ _) Hout).
  - destruct fuel as [| fuel]; [lia |].
    cbn [Bpm.analyzeLoop seq map fold_left].
    rewrite (proj2 (Rltb_true _ _)) by (apply Hin; lia).
    replace (INR k * step + step) with (INR (S k) * step)
      by (rewrite S_INR; lra).
    apply IH.
    + lia.
    + intros j Hj. apply Hin. lia.
    + now replace (S k + n)%nat with (k + S n)%nat by lia.
Qed.

Lemma windowCount_spec (step : R) :
  0 < step ->
  (forall j, (j < Design.windowCount duration step)%nat ->
             INR j * step < duration)
  /\ duration <= INR (Design.windowCount duration step) * step.
Proof.
  intro Hstep. unfold Design.windowCount, Zceil.
  pose proof (Zfloor_bound (- (duration / step))) as [Hlo Hhi].
  set (z := Zfloor (- (duration / step))) in *.
  assert (Hq : duration = duration / step * step) by (field; lra).
  split.
  - intros j Hj.
    assert (Hjz : (Z.of_nat j + 1 <= - z)%Z) by lia.
    apply IZR_le in Hjz. rewrite plus_IZR, opp_IZR, <- INR_IZR_INZ in Hjz.
    rewrite Hq at 1. apply Rmult_lt_compat_r; lra.
  - destruct (Z_le_gt_dec 0 (- z)) as [Hz | Hz].
    + rewrite INR_IZR_INZ, Z2Nat.id, opp_IZR by exact Hz.
      rewrite Hq at 1. apply Rmult_le_compat_r; lra.
    + replace (Z.to_nat (- z)) with 0%nat by lia.
      assert (Hz' : (1 <= z)%Z) by lia. apply IZR_le in Hz'.
      cbn [INR]. rewrite Hq. nra.
Qed.

(** With a positive step the loop ends, and its result is the fold of the
    loop body over the multiples of the step below the duration. *)
Lemma analyzeLoop_positive_step (step windowSize : R) :
  0 < step ->
  analyzeLoop (S (Design.windowCount duration step)) step windowSize 0 []
  = Some (fold_left (windowStep windowSize)
            (Design.windowStarts duration step) []).
Proof.
  intro Hstep. destruct (windowCount_spec step Hstep) as [Hin Hout].
  replace 0 with (INR 0 * step) at 1 by (cbn; lra).
  unfold Design.windowStarts. apply analyzeLoop_unroll.
  - lia.
  - intros j Hj. apply Hin. lia.
  - exact Hout.
Qed.

Lemma windowStarts_In (step t : R) :
  0 < step ->
  In t (Design.windowStarts duration step)
  <-> exists k : nat, t = INR k * step /\ t < duration.
Proof.
  intro Hstep. destruct (windowCount_spec step Hstep) as [Hin Hout].
  unfold Design.windowStarts. rewrite in_map_iff. split.
  - intros (k & <- & Hk). apply in_seq in Hk. exists k. split; auto.
    apply Hin. lia.
  - intros (k & -> & Hlt). exists k. split; [reflexivity |].
    apply in_seq. split; [lia |]. cbn.
    destruct (Nat.lt_ge_cases k (Design.windowCount duration step))
      as [Hk | Hk]; [exact Hk | exfalso].
    apply le_INR in Hk.
    assert (INR (Design.windowCount duration step) * step <= INR k * step)
      by (apply Rmult_le_compat_r; lra).
    lra.
Qed.

Lemma stepOf_pos (interval : R) : 0 <= interval -> 0 < stepOf interval.
Proof.
  intro H. unfold stepOf.
  destruct (Req_dec_T interval 0) as [E | E].
  - rewrite (proj2 (Reqb_true _ _) E). lra.
  - rewrite (proj2 (Reqb_false _ _) E). lra.
Qed.

Lemma stepOf_neg (interval : R) : interval < 0 -> stepOf interval = interval.
Proof.
  intro H. unfold stepOf. now rewrite (proj2 (Reqb_false _ _)) by lra.
Qed.

Lemma stepOf_auto : stepOf 0 = 30.
Proof. unfold stepOf. now rewrite (proj2 (Reqb_true _ _)). Qed.

(** *** The loop body *)

Lemma last_point_In (points : list BpmPoint) (d : BpmPoint) :
  points <> [] -> In (nth (List.length points - 1) points d) points.
Proof.
  intro H. apply nth_In. destruct points; [congruence | cbn; lia].
Qed.

Lemma carryForward_nil (t : R) : carryForward [] t = [].
Proof. reflexivity. Qed.

Lemma carryForward_cons (points : list BpmPoint) (t : R) :
  points <> [] ->
  carryForward points t
  = points ++ [mkBpmPoint t
                 (bpm (nth (List.length points - 1) points (mkBpmPoint 0 0)))].
Proof.
  intro H. unfold carryForward.
  destruct points as [| p ps]; [congruence | reflexivity].
Qed.

Lemma pushPoint_truthy (points : list BpmPoint) (t b : R) :
  truthy (Some b) = true ->
  pushPoint points t (Some b) = points ++ [mkBpmPoint t b].
Proof. intro H. unfold pushPoint. now rewrite H. Qed.

Lemma pushPoint_falsy (points : list BpmPoint) (t : R) (d : option R) :
  truthy d = false -> pushPoint points t d = carryForward points t.
Proof.
  intro H. unfold pushPoint. destruct d as [b |]; [now rewrite H | reflexivity].
Qed.

(** A window that is too short leaves the timeline as it is, whatever the
    estimator. *)
Lemma windowStep_skipped (windowSize t : R) (points : list BpmPoint) :
  tooShort sampleRate duration windowSize t = true ->
  windowStep windowSize points t = points.
Proof. intro H. unfold Bpm.windowStep. now rewrite H. Qed.

(** A window that is long enough hands the estimator the samples from
    [floor (t * sampleRate)] to
    [floor (min (t + windowSize) duration * sampleRate)]. *)
Lemma windowStep_invoked (windowSize t : R) (points : list BpmPoint) :
  tooShort sampleRate duration windowSize t = false ->
  windowStep windowSize points t
  = pushPoint points t
      (detect (slice data (Zfloor (t * sampleRate))
                 (Zfloor (Rmin (t + windowSize) duration * sampleRate)))
              sampleRate).
Proof. intro H. unfold Bpm.windowStep. now rewrite H. Qed.

Lemma tooShort_spec (windowSize t : R) :
  tooShort sampleRate duration windowSize t = true
  <-> IZR (endSampleOf sampleRate duration windowSize t
           - startSampleOf sampleRate t) < sampleRate * 5.
Proof. unfold tooShort. apply Rltb_true. Qed.

(** The loop body appends at most one point, stamped with the start time. *)
Lemma windowStep_shape (windowSize t : R) (points : list BpmPoint) :
  windowStep windowSize points t = points
  \/ exists b, windowStep windowSize points t = points ++ [mkBpmPoint t b]
               /\ ((exists sl, detect sl sampleRate = Some b)
                   \/ In b (map bpm points)).
Proof.
  unfold Bpm.windowStep.
  destruct (tooShort sampleRate duration windowSize t); [now left |].
  cbv zeta.
  set (sl := slice data _ _).
  destruct (truthy (detect sl sampleRate)) eqn:Et.
  - destruct (detect sl sampleRate) as [b |] eqn:Ed; [| discriminate].
    right. exists b. split; [now apply pushPoint_truthy |].
    left. now exists sl.
  - rewrite pushPoint_falsy by exact Et.
    destruct points as [| p ps] eqn:Ep; [now left |].
    right. rewrite <- Ep. eexists. split.
    + apply carryForward_cons. now rewrite Ep.
    + right. apply in_map. apply last_point_In. now rewrite Ep.
Qed.

Lemma StronglySorted_snoc (l : list R) (t : R) :
  StronglySorted Rlt l -> Forall (fun x => x < t) l ->
  StronglySorted Rlt (l ++ [t]).
Proof.
  induction 1 as [| x l Hs IH Hx]; intro Hlt; cbn.
  - constructor; constructor.
  - inversion Hlt as [| ? ? Hxt Hrest]; subst. constructor.
    + now apply IH.
    + apply Forall_app. split; [exact Hx | now constructor].
Qed.

Section Ranged.

Hypothesis detect_range :
  forall sl sr b, detect sl sr = Some b -> minBpm <= b <= maxBpm.

(** One iteration keeps the timeline strictly increasing, below the next
    start time, and within the BPM range. *)
Lemma windowStep_invariant (step windowSize t : R) (points : list BpmPoint) :
  0 < step ->
  Design.strictlyIncreasing points ->
  Forall (fun p => time p < t) points ->
  Design.bpmInRange points ->
  Design.strictlyIncreasing (windowStep windowSize points t)
  /\ Forall (fun p => time p < t + step) (windowStep windowSize points t)
  /\ Design.bpmInRange (windowStep windowSize points t).
Proof.
  intros Hstep Hs Hb Hr.
  assert (Hb' : Forall (fun p => time p < t + step) points).
  { eapply Forall_impl; [| exact Hb]. cbn. intros; lra. }
  destruct (windowStep_shape windowSize t points) as [-> | (b & -> & Hsrc)];
    [auto |].
  unfold Design.strictlyIncreasing, Design.bpmInRange in *.
  repeat split.
  - rewrite map_app. cbn. apply StronglySorted_snoc; [exact Hs |].
    apply Forall_map. exact Hb.
  - apply Forall_app. split; [exact Hb' |]. constructor; [cbn; lra | constructor].
  - apply Forall_app. split; [exact Hr |]. constructor; [| constructor].
    cbn. destruct Hsrc as [(sl & Hd) | HIn].
    + apply detect_range in Hd. unfold minBpm, maxBpm in Hd. exact Hd.
    + apply in_map_iff in HIn. destruct HIn as (p & <- & Hp).
      rewrite Forall_forall in Hr. now apply Hr.
Qed.

Lemma analyzeLoop_invariant (step windowSize : R) :
  0 < step ->
  forall fuel t points res,
    Design.strictlyIncreasing points ->
    Forall (fun p => time p < t) points ->
    Design.bpmInRange points ->
    analyzeLoop fuel step windowSize t points = Some res ->
    Design.strictlyIncreasing res /\ Design.bpmInRange res.
Proof.
  intro Hstep. induction fuel as [| fuel IH]; intros t points res Hs Hb Hr; cbn.
  - discriminate.
  - destruct (Rltb t duration).
    + destruct (windowStep_invariant step windowSize t points Hstep Hs Hb Hr)
        as (Hs' & Hb' & Hr').
      now apply IH.
    + intros [= <-]. now split.
Qed.

(** Every timeline the sequencer returns is strictly increasing in time and
    within the BPM range, whatever the interval. *)
Lemma analyzeWith_timeline (fuel : nat) (interval : R)
    (res : list BpmPoint) :
  analyzeWith detect data sampleRate duration fuel interval = Some res ->
  Design.strictlyIncreasing res /\ Design.bpmInRange res.
Proof.
  unfold analyzeWith. cbv zeta. intro H.
  destruct (Rlt_dec 0 (stepOf interval)) as [Hpos | Hneg].
  - eapply analyzeLoop_invariant; eauto; constructor.
  - destruct (Rlt_dec 0 duration) as [Hd | Hd].
    + rewrite analyzeLoop_diverges in H by lra. discriminate.
    + destruct fuel as [| fuel]; cbn in H; [discriminate |].
      rewrite (proj2 (Rltb_false 0 duration)) in H by lra.
      injection H as <-. split; constructor.
Qed.

End Ranged.

(** The sequencer returns a timeline for every interval that is not
    negative. *)
Lemma analyzeWith_terminates (interval : R) :
  0 <= interval ->
  analyzeWith detect data sampleRate duration
    (S (Design.windowCount duration (stepOf interval))) interval
  = Some (fold_left (windowStep (Rmax (stepOf interval) 30))
            (Design.windowStarts duration (stepOf interval)) []).
Proof.
  intro H. unfold analyzeWith. cbv zeta.
  apply analyzeLoop_positive_step. now apply stepOf_pos.
Qed.

End SequencerFacts.

(** ** The estimator on silence *)

Section SilenceFacts.

Import Bpm.

Lemma all_firstn {X : Type} (P : X -> Prop) (n : nat) (l : list X) :
  Forall P l -> Forall P (firstn n l).
Proof.
  intro H. revert n. induction H as [| x l Hx _ IH]; intros [| n]; cbn;
    constructor; auto.
Qed.

Lemma all_skipn {X : Type} (P : X -> Prop) (n : nat) (l : list X) :
  Forall P l -> Forall P (skipn n l).
Proof.
  intro H. revert n. induction H as [| x l Hx Hl IH]; intros [| n]; cbn;
    auto.
Qed.

Lemma slice_all (P : R -> Prop) (data : list R) (a b : Z) :
  Forall P data -> Forall P (slice data a b).
Proof. intro H. unfold slice. cbv zeta. now apply all_firstn, all_skipn. Qed.

Lemma silence60_zero : Forall Design.isZero Examples.silence60.
Proof.
  apply Forall_forall. intros x Hx. now apply repeat_spec in Hx.
Qed.

Lemma fold_left_zero_terms {X : Type} (f : X -> R) (l : list X) :
  (forall x, f x = 0) -> fold_left (fun s x => s + f x) l 0 = 0.
Proof.
  intro Hf. induction l as [| x l IH]; cbn; [reflexivity |].
  rewrite Hf, Rplus_0_l. exact IH.
Qed.

Lemma frameSumSq_silent (data : list R) (start stop : nat) :
  Forall Design.isZero data -> frameSumSq data start stop = 0.
Proof.
  intro H. unfold frameSumSq.
  apply (fold_left_zero_terms (fun j => nth j data 0 * nth j data 0)).
  intro j. rewrite (nth_all_zero data j H). lra.
Qed.

Lemma envelopeOf_silent (data : list R) :
  Forall Design.isZero data -> Forall Design.isZero (envelopeOf data).
Proof.
  intro H. unfold envelopeOf. apply Forall_forall. intros y Hy.
  apply in_map_iff in Hy. destruct Hy as (i & <- & _).
  unfold envelopeAt. cbv zeta. rewrite frameSumSq_silent by exact H.
  unfold Design.isZero. replace (0 / _) with 0 by (unfold Rdiv; lra). apply sqrt_0.
Qed.

Lemma onsetOf_silent (envelope : list R) :
  Forall Design.isZero envelope -> Forall Design.isZero (onsetOf envelope).
Proof.
  intro H. unfold onsetOf. apply Forall_forall. intros y Hy.
  apply in_map_iff in Hy. destruct Hy as (i & <- & _).
  destruct i as [| j]; cbn; [reflexivity |].
  rewrite !(nth_all_zero envelope _ H). unfold Design.isZero.
  rewrite Rminus_diag. apply Rmax_left. lra.
Qed.

Lemma getAt_silent (a : list R) (k : Z) : Forall Design.isZero a -> getAt a k = 0.
Proof.
  intro H. unfold getAt. destruct (k <? 0)%Z; [reflexivity |].
  now apply nth_all_zero.
Qed.

Lemma getCorrAt_silent (onset : list R) (n : nat) (l : Z) :
  Forall Design.isZero onset -> getCorrAt onset n l = 0.
Proof.
  intro H. unfold getCorrAt.
  apply (fold_left_zero_terms
           (fun i => getAt onset (Z.of_nat i) * getAt onset (Z.of_nat i + l))).
  intro i. rewrite (getAt_silent onset (Z.of_nat i) H). lra.
Qed.

Lemma search_silent_rest (onset : list R) (n : nat) (rate : R)
    (lags : list Z) (best : Z) :
  Forall Design.isZero onset ->
  fold_left (lagStep onset n rate) lags (0, best) = (0, best).
Proof.
  intro H. induction lags as [| l lags IH]; cbn [fold_left]; [reflexivity |].
  unfold lagStep at 2. cbv zeta. cbn [fst].
  rewrite getCorrAt_silent by exact H.
  rewrite (proj2 (Rgtb_false _ _)) by lra. exact IH.
Qed.

(** On silence every correlation is 0: the first lag beats the sentinel and
    no later lag beats the first. *)
Lemma searchLags_silent (onset : list R) (n : nat) (rate : R) :
  Forall Design.isZero onset -> 0 < rate ->
  searchLags onset n rate = (0, minLagOf rate).
Proof.
  intros H Hrate. unfold searchLags.
  destruct (lagRange_cons _ _ (minLag_le_maxLag rate Hrate)) as (rest & ->).
  cbn [fold_left]. unfold lagStep at 2. cbv zeta. cbn [fst].
  rewrite getCorrAt_silent by exact H.
  rewrite (proj2 (Rgtb_true _ _)) by lra.
  rewrite Rmult_0_l. now apply search_silent_rest.
Qed.

Lemma refineLag_silent (onset : list R) (n : nat) (l : Z) :
  Forall Design.isZero onset -> refineLag onset n l = IZR l.
Proof.
  intro H. unfold refineLag. cbv zeta. rewrite !getCorrAt_silent by exact H.
  replace (0 - 2 * 0 + 0) with 0 by lra. rewrite Rabs_R0.
  now rewrite (proj2 (Rgtb_false _ _)) by lra.
Qed.

(** On silence the estimator answers with the fastest tempo of its range
    that a whole lag can express, clamped. *)
Lemma detectBpmInChunk_silent (data : list R) (sampleRate : R) :
  Forall Design.isZero data -> 0 < sampleRate ->
  detectBpmInChunk data sampleRate
  = Some (clampBpm (60 * (sampleRate / INR downsampleRatio)
                    / IZR (minLagOf (sampleRate / INR downsampleRatio)))).
Proof.
  intros H Hsr.
  pose proof (downsampled_rate_pos sampleRate Hsr) as Hrate.
  pose proof (onsetOf_silent _ (envelopeOf_silent data H)) as Ho.
  unfold detectBpmInChunk. cbv zeta.
  rewrite searchLags_silent by assumption. cbn [snd].
  destruct (Z.eqb_spec (minLagOf (sampleRate / INR downsampleRatio)) (-1))
    as [E | _].
  - pose proof (minLag_nonneg _ Hrate). lia.
  - now rewrite refineLag_silent.
Qed.

Lemma minLag_44100 : minLagOf (44100 / INR downsampleRatio) = 54%Z.
Proof.
  rewrite INR_downsampleRatio. unfold minLagOf, maxBpm.
  apply Zfloor_eq. lra.
Qed.

(** At 44.1 kHz silence is reported as 190 BPM. *)
Lemma detectBpmInChunk_silent_44100 (data : list R) :
  Forall Design.isZero data -> detectBpmInChunk data 44100 = Some 190.
Proof.
  intro H. rewrite detectBpmInChunk_silent by (auto; lra).
  rewrite minLag_44100, INR_downsampleRatio.
  unfold clampBpm, minBpm, maxBpm. cbv zeta.
  rewrite (proj2 (Rltb_false _ _)) by lra.
  now rewrite (proj2 (Rgtb_true _ _)) by lra.
Qed.

End SilenceFacts.

(** ** The sequencer on concrete windows *)

Section WindowExamples.

Import Bpm.

(** Window bounds at 44.1 kHz, in samples. *)
Lemma startSample_44100 (z : Z) (t : R) :
  t = IZR z -> startSampleOf 44100 t = (z * 44100)%Z.
Proof.
  intros ->. unfold startSampleOf. rewrite <- mult_IZR. apply ZfloorZ.
Qed.

Lemma endSample_44100 (z : Z) (duration windowSize t : R) :
  Rmin (t + windowSize) duration = IZR z ->
  endSampleOf 44100 duration windowSize t = (z * 44100)%Z.
Proof.
  intro E. unfold endSampleOf. rewrite E, <- mult_IZR. apply ZfloorZ.
Qed.

(** In a 60 s track analysed with 30 s steps both windows are whole. *)
Lemma tooShort_60_first : tooShort 44100 60 30 0 = false.
Proof.
  unfold tooShort.
  rewrite (startSample_44100 0) by reflexivity.
  rewrite (endSample_44100 30) by (rewrite Rmin_left; lra).
  apply Rltb_false. cbn. lra.
Qed.

Lemma tooShort_60_second : tooShort 44100 60 30 (0 + 30) = false.
Proof.
  unfold tooShort.
  rewrite (startSample_44100 30) by lra.
  rewrite (endSample_44100 60) by (rewrite Rmin_left; lra).
  apply Rltb_false. cbn. lra.
Qed.

(** Sixty seconds of silence, automatic interval: two windows, and the
    estimator answers 190 BPM on each. *)
Lemma analyze_silence60 :
  analyzeBpmFromData 3 Examples.silence60 44100 60 0
  = Some [mkBpmPoint 0 190; mkBpmPoint (0 + 30) 190].
Proof.
  unfold analyzeBpmFromData, analyzeWith. cbv zeta.
  rewrite stepOf_auto, Rmax_left by lra.
  cbn [analyzeLoop].
  rewrite (proj2 (Rltb_true 0 60)) by lra.
  rewrite (proj2 (Rltb_true (0 + 30) 60)) by lra.
  rewrite (proj2 (Rltb_false (0 + 30 + 30) 60)) by lra.
  rewrite (windowStep_invoked _ _ _ _ _ _ _ tooShort_60_first).
  rewrite detectBpmInChunk_silent_44100
    by apply slice_all, silence60_zero.
  rewrite pushPoint_truthy
    by (unfold truthy; now rewrite (proj2 (Reqb_false 190 0)) by lra).
  rewrite (windowStep_invoked _ _ _ _ _ _ _ tooShort_60_second).
  rewrite detectBpmInChunk_silent_44100
    by apply slice_all, silence60_zero.
  rewrite pushPoint_truthy
    by (unfold truthy; now rewrite (proj2 (Reqb_false 190 0)) by lra).
  reflexivity.
Qed.

End WindowExamples.

(** ** The tempo timeline *)

Section TimelineClaims.

Import Bpm.

(** C3.  Whatever the filtered input, the duration and the interval, every
    timeline the sequencer returns is strictly increasing in time, and every
    BPM in it lies in [55, 190]; and for an interval that is not negative
    the sequencer does return such a timeline. *)
Theorem analyzeBpmFromData_timeline (data : list R)
    (sampleRate duration interval : R) :
  (forall fuel pts,
     analyzeBpmFromData fuel data sampleRate duration interval = Some pts ->
     Design.strictlyIncreasing pts /\ Design.bpmInRange pts)
  /\ (0 <= interval ->
      exists fuel pts,
        analyzeBpmFromData fuel data sampleRate duration interval = Some pts
        /\ Design.strictlyIncreasing pts /\ Design.bpmInRange pts).
Proof.
  assert (Hret : forall fuel pts,
            analyzeBpmFromData fuel data sampleRate duration interval
            = Some pts ->
            Design.strictlyIncreasing pts /\ Design.bpmInRange pts).
  { intros fuel pts. unfold analyzeBpmFromData. apply analyzeWith_timeline.
    intros sl sr b. apply detectBpmInChunk_range. }
  split; [exact Hret |].
  intro Hint. eexists. eexists. split; [| eapply Hret].
  - unfold analyzeBpmFromData. now apply analyzeWith_terminates.
  - unfold analyzeBpmFromData. now apply analyzeWith_terminates.
Qed.

Lemma analyzeBpmFromData_timeline_witness :
  Design.strictlyIncreasing [mkBpmPoint 0 190; mkBpmPoint (0 + 30) 190]
  /\ Design.bpmInRange [mkBpmPoint 0 190; mkBpmPoint (0 + 30) 190].
Proof.
  destruct (analyzeBpmFromData_timeline Examples.silence60 44100 60 0)
    as [H _].
  apply (H 3%nat). exact analyze_silence60.
Defined.

(** C4, as the program has it.  For an interval that is not negative, with
    [step] the interval (30 for the interval 0) and [windowSize] the larger
    of [step] and 30: the sequencer visits exactly the multiples of [step]
    in [[0, duration)], in order; the window of a start time reaches from
    sample [floor (start * rate)] to sample
    [floor (min (start + windowSize) duration * rate)], so it spans
    [windowSize] seconds when the track is long enough and is cut at the end
    of the track otherwise; a window of fewer than [5 * rate] samples is
    skipped without calling the estimator and without a point. *)
Theorem window_placement (data : list R) (sampleRate duration interval : R) :
  0 <= interval ->
  let step := stepOf interval in
  let windowSize := Rmax step 30 in
  (interval = 0 -> step = 30)
  /\ (interval <> 0 -> step = interval)
  /\ analyzeBpmFromData (S (Design.windowCount duration step)) data
       sampleRate duration interval
     = Some (fold_left
               (windowStep detectBpmInChunk data sampleRate duration
                  windowSize)
               (Design.windowStarts duration step) [])
  /\ (forall t, In t (Design.windowStarts duration step)
                <-> exists k : nat, t = INR k * step /\ t < duration)
  /\ (forall t, tooShort sampleRate duration windowSize t = true
                <-> IZR (endSampleOf sampleRate duration windowSize t
                         - startSampleOf sampleRate t) < 5 * sampleRate)
  /\ (forall detect t points,
        tooShort sampleRate duration windowSize t = true ->
        windowStep detect data sampleRate duration windowSize points t
        = points)
  /\ (forall t points,
        tooShort sampleRate duration windowSize t = false ->
        windowStep detectBpmInChunk data sampleRate duration windowSize
          points t
        = pushPoint points t
            (detectBpmInChunk
               (slice data (Zfloor (t * sampleRate))
                  (Zfloor (Rmin (t + windowSize) duration * sampleRate)))
               sampleRate))
  /\ (forall t, Rmin (t + windowSize) duration - t <= windowSize)
  /\ (forall t, t + windowSize <= duration ->
                Rmin (t + windowSize) duration - t = windowSize).
Proof.
  intro Hint. cbv zeta.
  pose proof (stepOf_pos interval Hint) as Hstep.
  repeat split.
  - intros ->. apply stepOf_auto.
  - intro Hne. unfold stepOf. now rewrite (proj2 (Reqb_false _ _) Hne).
  - unfold analyzeBpmFromData. now apply analyzeWith_terminates.
  - now apply windowStarts_In.
  - now apply windowStarts_In.
  - intro H. apply tooShort_spec in H. lra.
  - intro H. apply tooShort_spec. lra.
  - intros detect t points. apply windowStep_skipped.
  - intros t points. apply windowStep_invoked.
  - intro t. pose proof (Rmin_l (t + Rmax (stepOf interval) 30) duration). lra.
  - intros t H. rewrite Rmin_left by exact H. lra.
Qed.

Lemma window_placement_witness :
  analyzeBpmFromData (S (Design.windowCount 60 (stepOf 0)))
    Examples.silence60 44100 60 0
  = Some (fold_left
            (windowStep detectBpmInChunk Examples.silence60 44100 60
               (Rmax (stepOf 0) 30))
            (Design.windowStarts 60 (stepOf 0)) []).
Proof.
  destruct (window_placement Examples.silence60 44100 60 0) as (_ & _ & H & _).
  - lra.
  - exact H.
Defined.

(** In a 50 s track analysed with 30 s steps the window that starts at 30 s
    is invoked on 20 s of audio: not every invoked window is 30 s long. *)
Lemma fullWindows_counterexample : ~ Design.fullWindows 44100 50 0.
Proof.
  intro H. specialize (H 1%nat). cbv zeta in H.
  rewrite stepOf_auto, Rmax_left in H by lra.
  assert (Hstart : startSampleOf 44100 (INR 1 * 30) = (30 * 44100)%Z).
  { apply startSample_44100. cbn. lra. }
  assert (Hend : endSampleOf 44100 50 30 (INR 1 * 30) = (50 * 44100)%Z).
  { apply endSample_44100. cbn. rewrite Rmin_right; lra. }
  unfold tooShort in H. rewrite Hstart, Hend in H.
  assert (Hlt : INR 1 * 30 < 50) by (cbn; lra).
  assert (Hlong : Rltb (IZR (50 * 44100 - 30 * 44100)) (44100 * 5) = false).
  { apply Rltb_false. cbn. lra. }
  specialize (H Hlt Hlong). cbn in H. lra.
Qed.

End TimelineClaims.

(** ** Failure policy and termination *)

Section PolicyClaims.

Import Bpm.

Lemma nth_last_point (points : list BpmPoint) (d : BpmPoint) :
  nth (List.length points - 1) points d = last points d.
Proof.
  destruct points as [| p ps]; [reflexivity |].
  destruct (exists_last (l := p :: ps)) as (l & a & ->); [discriminate |].
  rewrite last_last, length_app. cbn [List.length].
  rewrite app_nth2 by lia.
  replace (List.length l + 1 - 1 - List.length l)%nat with 0%nat by lia.
  reflexivity.
Qed.

(** C6.  When the estimate of a window that is not skipped is [null] (or
    otherwise falsy) and the timeline holds a point, the loop body appends
    one point at the window's start time whose BPM is that of the last
    point; when the timeline is still empty it appends nothing. *)
Theorem carry_forward_policy (detect : list R -> R -> option R)
    (data : list R) (sampleRate duration windowSize t : R)
    (points : list BpmPoint) :
  tooShort sampleRate duration windowSize t = false ->
  truthy (detect (slice data (startSampleOf sampleRate t)
                    (endSampleOf sampleRate duration windowSize t))
            sampleRate) = false ->
  (points <> [] ->
   windowStep detect data sampleRate duration windowSize points t
   = points ++ [mkBpmPoint t (bpm (last points (mkBpmPoint 0 0)))])
  /\ (points = [] ->
      windowStep detect data sampleRate duration windowSize points t = []).
Proof.
  intros Hlong Hfalsy. unfold windowStep. rewrite Hlong. cbv zeta.
  rewrite pushPoint_falsy by exact Hfalsy. split.
  - intro Hne. rewrite carryForward_cons by exact Hne.
    now rewrite nth_last_point.
  - intros ->. reflexivity.
Qed.

(** The second window of a 60 s track fails after a first estimate of
    120 BPM. *)
Lemma carry_forward_policy_witness :
  windowStep Examples.noEstimate Examples.silence60 44100 60 30
    [mkBpmPoint 0 120] (0 + 30)
  = [mkBpmPoint 0 120; mkBpmPoint (0 + 30) 120].
Proof.
  destruct (carry_forward_policy Examples.noEstimate Examples.silence60
              44100 60 30 (0 + 30) [mkBpmPoint 0 120]) as [H _].
  - exact tooShort_60_second.
  - reflexivity.
  - apply H. discriminate.
Defined.

(** For every interval that is not negative (the interval 0 standing for
    a 30 s step) and every input the sequencer terminates and returns a
    timeline, and more fuel does not change it. *)
Theorem sequencer_terminates (data : list R)
    (sampleRate duration interval : R) :
  0 <= interval ->
  stepOf 0 = 30
  /\ Design.returnsTimeline data sampleRate duration interval
  /\ (forall fuel extra pts,
        analyzeBpmFromData fuel data sampleRate duration interval = Some pts ->
        analyzeBpmFromData (fuel + extra) data sampleRate duration interval
        = Some pts).
Proof.
  intro H. split; [apply stepOf_auto |]. split.
  - unfold Design.returnsTimeline, analyzeBpmFromData.
    eexists. eexists. now apply analyzeWith_terminates.
  - intros fuel extra pts. unfold analyzeBpmFromData, analyzeWith. cbv zeta.
    apply analyzeLoop_fuel_mono.
Qed.

Lemma sequencer_terminates_witness :
  Design.returnsTimeline Examples.silence60 44100 60 (5 / 10).
Proof.
  destruct (sequencer_terminates Examples.silence60 44100 60 (5 / 10))
    as (_ & H & _).
  - lra.
  - exact H.
Defined.

(** With the interval -1 the start time only decreases: on a 60 s track the
    loop never reaches its exit, and no timeline is returned. *)
Lemma negative_interval_counterexample :
  ~ Design.returnsTimeline Examples.silence60 44100 60 (-1).
Proof.
  intros (fuel & pts & H).
  unfold analyzeBpmFromData, analyzeWith in H. cbv zeta in H.
  rewrite stepOf_neg in H by lra.
  rewrite analyzeLoop_diverges in H by lra. discriminate.
Qed.

(** C10.  With a positive sample rate: the weighted correlation of every
    candidate lag is at least 0, above the sentinel -1; the estimator
    returns a number of [55, 190] on every slice and never [null]; and a
    window of the sequencer that is not skipped appends a point with the
    estimate of that window, so that the carry-forward branch is not
    taken. *)
Theorem estimator_never_null (data : list R) (sampleRate : R) :
  0 < sampleRate ->
  (forall sl lag,
     -1 < getCorrAt (onsetOf (envelopeOf sl)) (envelopeLengthOf sl) lag
          * lagWeight (sampleRate / INR downsampleRatio) lag
     /\ 0 <= getCorrAt (onsetOf (envelopeOf sl)) (envelopeLengthOf sl) lag
             * lagWeight (sampleRate / INR downsampleRatio) lag)
  /\ (forall sl,
        snd (searchLags (onsetOf (envelopeOf sl)) (envelopeLengthOf sl)
               (sampleRate / INR downsampleRatio)) <> (-1)%Z)
  /\ (forall sl, detectBpmInChunk sl sampleRate <> None)
  /\ (forall sl, exists b, detectBpmInChunk sl sampleRate = Some b
                           /\ 55 <= b <= 190)
  /\ (forall duration windowSize t points,
        tooShort sampleRate duration windowSize t = false ->
        exists b,
          detectBpmInChunk
            (slice data (startSampleOf sampleRate t)
               (endSampleOf sampleRate duration windowSize t)) sampleRate
          = Some b
          /\ windowStep detectBpmInChunk data sampleRate duration windowSize
               points t
             = points ++ [mkBpmPoint t b]).
Proof.
  intro Hsr.
  pose proof (downsampled_rate_pos sampleRate Hsr) as Hrate.
  repeat split.
  - pose proof (weighted_corr_nonneg (envelopeOf sl) (envelopeLengthOf sl)
                  (sampleRate / INR downsampleRatio) lag). lra.
  - apply weighted_corr_nonneg.
  - intro sl.
    pose proof (searchLags_selects (envelopeOf sl) (envelopeLengthOf sl)
                  _ Hrate).
    pose proof (minLag_nonneg _ Hrate). lia.
  - intro sl. destruct (detectBpmInChunk_total sl sampleRate Hsr)
      as (b & -> & _). discriminate.
  - intro sl. destruct (detectBpmInChunk_total sl sampleRate Hsr)
      as (b & Hb & Hr & _). exists b. unfold minBpm, maxBpm in Hr. auto.
  - intros duration windowSize t points Hlong.
    destruct (detectBpmInChunk_total
                (slice data (startSampleOf sampleRate t)
                   (endSampleOf sampleRate duration windowSize t))
                sampleRate Hsr) as (b & Hb & _ & Ht).
    exists b. split; [exact Hb |].
    unfold windowStep. rewrite Hlong. cbv zeta. rewrite Hb.
    now apply pushPoint_truthy.
Qed.

Lemma estimator_never_null_witness :
  detectBpmInChunk Examples.silence60 44100 <> None.
Proof.
  destruct (estimator_never_null Examples.silence60 44100) as (_ & _ & H & _).
  - lra.
  - apply H.
Defined.

End PolicyClaims.

(** ** The heap of deck objects *)

Section HeapFacts.

Import App.

Lemma update_same (h : Heap) (p : Ptr) (d : Deck) : update h p d p = Some d.
Proof. unfold update. now rewrite Nat.eqb_refl. Qed.

Lemma update_other (h : Heap) (p q : Ptr) (d : Deck) :
  q <> p -> update h p d q = h q.
Proof.
  intro H. unfold update. now rewrite (proj2 (Nat.eqb_neq q p) H).
Qed.

Lemma heap_onDeck_same (p : Ptr) (f : Deck -> Deck) (s : AppState) (d : Deck) :
  heap s p = Some d -> heap (onDeck p f s) p = Some (f d).
Proof. intro H. unfold onDeck. rewrite H. cbn. apply update_same. Qed.

Lemma heap_onDeck_other (p q : Ptr) (f : Deck -> Deck) (s : AppState) :
  q <> p -> heap (onDeck p f s) q = heap s q.
Proof.
  intro H. unfold onDeck. destruct (heap s p); [| reflexivity].
  cbn. now apply update_other.
Qed.

(** A method call never removes an object from the heap. *)
Lemma heap_onDeck_some (p q : Ptr) (f : Deck -> Deck) (s : AppState) (d : Deck) :
  heap s q = Some d -> exists d', heap (onDeck p f s) q = Some d'.
Proof.
  intro H. destruct (Nat.eq_dec q p) as [-> | Hne].
  - exists (f d). now apply heap_onDeck_same.
  - exists d. now rewrite heap_onDeck_other.
Qed.

Lemma onDeck_fields (p : Ptr) (f : Deck -> Deck) (s : AppState) :
  refs (onDeck p f s) = refs s
  /\ activeTab (onDeck p f s) = activeTab s
  /\ isSyncingRef (onDeck p f s) = isSyncingRef s
  /\ isSeekingRef (onDeck p f s) = isSeekingRef s
  /\ timers (onDeck p f s) = timers s
  /\ trackGains (onDeck p f s) = trackGains s.
Proof. unfold onDeck. destruct (heap s p); cbn; auto 10. Qed.

End HeapFacts.

(** ** Gain and phase composition *)

Section CompositionFacts.

Import App.

(** What [applyVolumeAndPhase] leaves on a deck that has a media element:
    the deck plays at [vol * phase], provided an inverted phase finds or
    can create the audio graph. *)
Lemma applyToDeck_gain (vol phase : R) (forceGraph : bool) (d : Deck) :
  media d = true ->
  phase = 1 \/ phase = -1 ->
  phase = 1 \/ audioGraph d <> None \/ graphCreatable d = true ->
  effectiveGain (applyToDeck vol phase forceGraph d) = vol * phase.
Proof.
  intros Hm Hphase Hgraph. unfold applyToDeck. rewrite Hm. cbn [negb].
  destruct (audioGraph d) as [g |] eqn:Eg.
  - rewrite andb_false_r. rewrite Eg. unfold effectiveGain. reflexivity.
  - rewrite andb_true_r.
    destruct (forceGraph || Reqb phase (-1)) eqn:Eforce.
    + destruct (graphCreatable d) eqn:Ec.
      * cbn. unfold effectiveGain. reflexivity.
      * rewrite Eg. unfold effectiveGain. cbn. rewrite Eg.
        destruct Hgraph as [-> | [H | H]]; [lra | congruence | congruence].
    + rewrite Eg. unfold effectiveGain. cbn. rewrite Eg.
      apply orb_false_elim in Eforce. destruct Eforce as [_ Eph].
      apply Reqb_false in Eph. destruct Hphase as [-> | ->]; [lra | lra].
Qed.

Lemma composeGainPhase_diff (s : AppState) :
  isDiffMode s = true ->
  composeGainPhase s
  = (mkGainPhase (if autoGain s then gainA (trackGains s) else 1) 1,
     mkGainPhase (if autoGain s then gainB (trackGains s) else 1) (-1)).
Proof. intro H. unfold composeGainPhase. now rewrite H. Qed.

Lemma composeGainPhase_normal (s : AppState) :
  isDiffMode s = false ->
  composeGainPhase s
  = (mkGainPhase
       ((1 - crossfade s) * (if autoGain s then gainA (trackGains s) else 1)) 1,
     mkGainPhase
       (crossfade s * (if autoGain s then gainB (trackGains s) else 1)) 1).
Proof. intro H. unfold composeGainPhase. now rewrite H. Qed.

(** The volume effect, deck by deck, when the four decks are distinct
    objects. *)
Lemma volumeEffect_decks (s : AppState) (pA pB : Ptr) (dA dB : Deck) :
  activeTab s = comparator ->
  wsRefA (refs s) = Some pA -> wsRefB (refs s) = Some pB ->
  NoDup (activeInstances s) ->
  heap s pA = Some dA -> heap s pB = Some dB ->
  heap (volumeEffect s) pA
  = Some (applyToDeck (dgVolume (fst (composeGainPhase s)))
            (dgPhase (fst (composeGainPhase s))) (isDiffMode s) dA)
  /\ heap (volumeEffect s) pB
     = Some (applyToDeck (dgVolume (snd (composeGainPhase s)))
               (dgPhase (snd (composeGainPhase s))) (isDiffMode s) dB).
Proof.
  intros Htab HA HB Hnd HhA HhB.
  unfold activeInstances in Hnd. rewrite Htab, HA, HB in Hnd.
  cbn [present app] in Hnd.
  inversion Hnd as [| ? ? HnotA Hnd']; subst.
  inversion Hnd' as [| ? ? HnotB Hnd'']; subst.
  assert (HAB : pA <> pB) by (intros ->; apply HnotA; now left).
  assert (HghA : forall q, In q (present (wsRefDiffA (refs s))
                                ++ present (wsRefDiffB (refs s))) ->
                           pA <> q /\ pB <> q).
  { intros q Hq. split; intros ->; [apply HnotA; now right | now apply HnotB]. }
  unfold volumeEffect. rewrite Htab.
  destruct (composeGainPhase s) as [a b]. cbn [fst snd].
  rewrite HA, HB. cbn [applyVolumeAndPhase].
  set (s1 := onDeck pA _ s).
  set (s2 := onDeck pB _ s1).
  assert (H1A : heap s1 pA = Some (applyToDeck (dgVolume a) (dgPhase a)
                                     (isDiffMode s) dA))
    by (subst s1; now apply heap_onDeck_same).
  assert (H1B : heap s1 pB = Some dB)
    by (subst s1; rewrite heap_onDeck_other; auto).
  assert (H2A : heap s2 pA = heap s1 pA)
    by (subst s2; now apply heap_onDeck_other).
  assert (H2B : heap s2 pB = Some (applyToDeck (dgVolume b) (dgPhase b)
                                     (isDiffMode s) dB))
    by (subst s2; now apply heap_onDeck_same).
  assert (HgA : forall st,
            heap (setVolumeIfPresent (wsRefDiffA (refs s)) 0 st) pA
            = heap st pA
            /\ heap (setVolumeIfPresent (wsRefDiffA (refs s)) 0 st) pB
               = heap st pB).
  { intro st. destruct (wsRefDiffA (refs s)) as [q |] eqn:E;
      cbn [setVolumeIfPresent]; [| auto].
    destruct (HghA q) as [Ha Hb]; [cbn; now left |].
    rewrite !heap_onDeck_other; auto. }
  assert (HgB : forall st,
            heap (setVolumeIfPresent (wsRefDiffB (refs s)) 0 st) pA
            = heap st pA
            /\ heap (setVolumeIfPresent (wsRefDiffB (refs s)) 0 st) pB
               = heap st pB).
  { intro st. destruct (wsRefDiffB (refs s)) as [q |] eqn:E;
      cbn [setVolumeIfPresent]; [| auto].
    destruct (HghA q) as [Ha Hb]; [apply in_or_app; right; cbn; now left |].
    rewrite !heap_onDeck_other; auto. }
  destruct (HgB (setVolumeIfPresent (wsRefDiffA (refs s)) 0 s2)) as [-> ->].
  destruct (HgA s2) as [-> ->].
  rewrite H2A, H1A, H2B. auto.
Qed.

(** The two ghost decks end at volume 0. *)
Lemma volumeEffect_ghosts (s : AppState) (pG : Ptr) (dG : Deck) :
  activeTab s = comparator ->
  wsRefDiffA (refs s) = Some pG \/ wsRefDiffB (refs s) = Some pG ->
  heap s pG = Some dG ->
  exists dG', heap (volumeEffect s) pG = Some dG' /\ volume dG' = 0.
Proof.
  intros Htab Href Hh. unfold volumeEffect. rewrite Htab.
  destruct (composeGainPhase s) as [a b].
  set (s2 := applyVolumeAndPhase (wsRefB (refs s)) _ _ _ _).
  assert (H2 : exists d2, heap s2 pG = Some d2).
  { subst s2. unfold applyVolumeAndPhase.
    destruct (wsRefA (refs s)) as [pA |]; destruct (wsRefB (refs s)) as [pB |].
    - destruct (heap_onDeck_some pA pG
                  (applyToDeck (dgVolume a) (dgPhase a) (isDiffMode s)) s dG Hh)
        as (d1 & H1).
      exact (heap_onDeck_some pB pG _ _ d1 H1).
    - exact (heap_onDeck_some pA pG _ _ dG Hh).
    - exact (heap_onDeck_some pB pG _ _ dG Hh).
    - now exists dG. }
  destruct H2 as (d2 & H2).
  assert (Hzero : forall st d, heap st pG = Some d -> volume d = 0 ->
            forall ws, exists d', heap (setVolumeIfPresent ws 0 st) pG = Some d'
                                  /\ volume d' = 0).
  { intros st d Hd Hv [q |]; cbn [setVolumeIfPresent]; [| now exists d].
    destruct (Nat.eq_dec pG q) as [<- | Hne].
    - exists (withVolume d 0). split; [| reflexivity].
      now apply (heap_onDeck_same pG (fun d => withVolume d 0)).
    - exists d. now rewrite heap_onDeck_other. }
  destruct Href as [E | E]; rewrite E.
  - cbn [setVolumeIfPresent].
    apply (Hzero _ (withVolume d2 0)); [| reflexivity].
    now apply (heap_onDeck_same pG (fun d => withVolume d 0)).
  - destruct (wsRefDiffA (refs s)) as [q |]; cbn [setVolumeIfPresent].
    + destruct (heap_onDeck_some q pG (fun d => withVolume d 0) s2 d2 H2)
        as (d3 & H3).
      exists (withVolume d3 0). split; [| reflexivity].
      now apply (heap_onDeck_same pG (fun d => withVolume d 0)).
    + exists (withVolume d2 0). split; [| reflexivity].
      now apply (heap_onDeck_same pG (fun d => withVolume d 0)).
Qed.

(** C1.  In the comparator, with deck A and deck B distinct objects that
    have a media element (and, for the inverted deck B, an audio graph
    present or creatable): in differential mode the effect passes volume
    [gA] with phase +1 for deck A and volume [gB] with phase -1 for deck B,
    whatever the crossfade, and the decks then play at [gA] and [- gB]; out
    of differential mode it passes [(1 - crossfade) * gA] and
    [crossfade * gB], both with phase +1, and the decks play at these; the
    ghost decks end at volume 0 in both modes.  [gA] and [gB] are the
    auto-gain pair when auto-gain is on and 1 otherwise. *)
Theorem gain_phase_composition (s : AppState) (pA pB : Ptr) (dA dB : Deck) :
  activeTab s = comparator ->
  wsRefA (refs s) = Some pA -> wsRefB (refs s) = Some pB ->
  NoDup (activeInstances s) ->
  heap s pA = Some dA -> heap s pB = Some dB ->
  media dA = true -> media dB = true ->
  (isDiffMode s = true -> audioGraph dB <> None \/ graphCreatable dB = true) ->
  let gA := if autoGain s then gainA (trackGains s) else 1 in
  let gB := if autoGain s then gainB (trackGains s) else 1 in
  (isDiffMode s = true ->
   composeGainPhase s = (mkGainPhase gA 1, mkGainPhase gB (-1))
   /\ exists dA' dB',
        heap (volumeEffect s) pA = Some dA'
        /\ heap (volumeEffect s) pB = Some dB'
        /\ effectiveGain dA' = gA /\ effectiveGain dB' = - gB)
  /\ (isDiffMode s = false ->
      composeGainPhase s
      = (mkGainPhase ((1 - crossfade s) * gA) 1,
         mkGainPhase (crossfade s * gB) 1)
      /\ exists dA' dB',
           heap (volumeEffect s) pA = Some dA'
           /\ heap (volumeEffect s) pB = Some dB'
           /\ effectiveGain dA' = (1 - crossfade s) * gA
           /\ effectiveGain dB' = crossfade s * gB)
  /\ (forall pG dG,
        wsRefDiffA (refs s) = Some pG \/ wsRefDiffB (refs s) = Some pG ->
        heap s pG = Some dG ->
        exists dG', heap (volumeEffect s) pG = Some dG' /\ volume dG' = 0).
Proof.
  intros Htab HA HB Hnd HhA HhB HmA HmB Hgraph. cbv zeta.
  destruct (volumeEffect_decks s pA pB dA dB Htab HA HB Hnd HhA HhB)
    as [EA EB].
  split; [| split].
  - intro Hdiff. split; [now apply composeGainPhase_diff |].
    rewrite (composeGainPhase_diff s Hdiff) in EA, EB. cbn [fst snd] in EA, EB.
    cbn [dgVolume dgPhase] in EA, EB.
    eexists. eexists. split; [exact EA |]. split; [exact EB |]. split.
    + rewrite applyToDeck_gain; auto. lra.
    + rewrite applyToDeck_gain; auto. lra.
  - intro Hnorm. split; [now apply composeGainPhase_normal |].
    rewrite (composeGainPhase_normal s Hnorm) in EA, EB.
    cbn [fst snd dgVolume dgPhase] in EA, EB.
    eexists. eexists. split; [exact EA |]. split; [exact EB |]. split.
    + rewrite applyToDeck_gain; auto. lra.
    + rewrite applyToDeck_gain; auto. lra.
  - intros pG dG. now apply volumeEffect_ghosts.
Qed.

(** The example of the design document: crossfade 0.5, auto-gain off,
    differential mode off. *)
Lemma gain_phase_composition_witness :
  exists dA' dB',
    heap (volumeEffect Examples.fourDecks) 1%nat = Some dA'
    /\ heap (volumeEffect Examples.fourDecks) 2%nat = Some dB'
    /\ effectiveGain dA' = (1 - 5 / 10) * 1
    /\ effectiveGain dB' = 5 / 10 * 1.
Proof.
  destruct (gain_phase_composition Examples.fourDecks 1%nat 2%nat
              (newDeck None) (newDeck None)) as (_ & H & _);
    try reflexivity.
  - repeat constructor; cbn; intuition lia.
  - discriminate.
  - apply H. reflexivity.
Defined.

(** The composition is recomputed when one of its inputs changes. *)
Lemma volume_effect_reruns (s : AppState) :
  (forall v, v <> crossfade s ->
             handleCrossfadeChange v s = volumeEffect (setCrossfade v s))
  /\ onToggleAutoGain s = volumeEffect (setAutoGain (negb (autoGain s)) s)
  /\ onToggleDiffMode s = volumeEffect (setIsDiffMode (negb (isDiffMode s)) s)
  /\ (forall g, autoGainEffect s = Some g ->
                runAutoGainEffect s = volumeEffect (setTrackGains g s)).
Proof.
  repeat split.
  - intros v Hv. unfold handleCrossfadeChange.
    now rewrite (proj2 (Reqb_false _ _) Hv).
  - intros g Hg. unfold runAutoGainEffect. now rewrite Hg.
Qed.

End CompositionFacts.

(** ** Drift correction *)

Section SyncFacts.

Import App.

Lemma setTimeCalls_app (p : Ptr) (l1 l2 : list Call) :
  setTimeCalls p (l1 ++ l2) = setTimeCalls p l1 ++ setTimeCalls p l2.
Proof. apply filter_app. Qed.

Lemma setTimeCalls_one (p q : Ptr) (t : R) :
  setTimeCalls p [CallSetTime q t]
  = if Nat.eqb q p then [CallSetTime q t] else [].
Proof. reflexivity. Qed.

Lemma getCurrentTime_onDeck_other (p q : Ptr) (f : Deck -> Deck)
    (s : AppState) :
  q <> p -> getCurrentTime (onDeck p f s) q = getCurrentTime s q.
Proof.
  intro H. unfold getCurrentTime. now rewrite heap_onDeck_other.
Qed.

Lemma getCurrentTime_setIsSyncing (b : bool) (s : AppState) (q : Ptr) :
  getCurrentTime (setIsSyncing b s) q = getCurrentTime s q.
Proof. reflexivity. Qed.

(** The state one slave visit leaves. *)
Lemma syncSlave_corrects (mt : R) (s : AppState) (calls : list Call)
    (p : Ptr) :
  Rabs (mt - getCurrentTime s p) > 4 / 100 ->
  syncSlave mt (s, calls) p
  = (onDeck p (fun d => withTime d mt) (setIsSyncing true s),
     calls ++ [CallSetTime p mt]).
Proof.
  intro H. unfold syncSlave. now rewrite (proj2 (Rgtb_true _ _) H).
Qed.

Lemma syncSlave_keeps (mt : R) (s : AppState) (calls : list Call) (p : Ptr) :
  Rabs (mt - getCurrentTime s p) <= 4 / 100 ->
  syncSlave mt (s, calls) p = (s, calls).
Proof.
  intro H. unfold syncSlave. now rewrite (proj2 (Rgtb_false _ _) H).
Qed.

(** The corrective calls of one pass over distinct slaves: one call for a
    slave whose drift exceeds 40 ms, none for another deck; the guard is
    raised exactly when some slave was corrected. *)
Lemma syncSlave_pass (mt : R) (others : list Ptr) :
  NoDup others ->
  forall (s : AppState) (calls : list Call),
    let r := fold_left (syncSlave mt) others (s, calls) in
    (forall p, In p others ->
       setTimeCalls p (snd r)
       = setTimeCalls p calls
         ++ (if Rgtb (Rabs (mt - getCurrentTime s p)) (4 / 100)
             then [CallSetTime p mt] else []))
    /\ (forall p, ~ In p others ->
          setTimeCalls p (snd r) = setTimeCalls p calls
          /\ heap (fst r) p = heap s p)
    /\ isSyncingRef (fst r)
       = isSyncingRef s
         || existsb (fun p => Rgtb (Rabs (mt - getCurrentTime s p)) (4 / 100))
              others
    /\ timers (fst r) = timers s
    /\ filter (fun c => negb (match c with
                              | CallSetTime _ _ => true
                              | CallSetTimeout _ _ => false
                              end)) (snd r)
       = filter (fun c => negb (match c with
                                | CallSetTime _ _ => true
                                | CallSetTimeout _ _ => false
                                end)) calls.
Proof.
  induction 1 as [| q rest Hq Hnd IH]; intros s calls; cbv zeta.
  - cbn [fold_left fst snd existsb]. rewrite orb_false_r.
    repeat split; auto. intros p [].
  - cbn [fold_left existsb].
    destruct (Rlt_dec (4 / 100) (Rabs (mt - getCurrentTime s q))) as [Hd | Hd].
    + rewrite syncSlave_corrects by lra.
      assert (Eg : Rgtb (Rabs (mt - getCurrentTime s q)) (4 / 100) = true)
        by (apply Rgtb_true; lra).
      set (s1 := onDeck q (fun d => withTime d mt) (setIsSyncing true s)).
      assert (Htime : forall p, p <> q ->
                getCurrentTime s1 p = getCurrentTime s p).
      { intros p Hp. subst s1. now rewrite getCurrentTime_onDeck_other. }
      assert (Hheap : forall p, p <> q -> heap s1 p = heap s p).
      { intros p Hp. subst s1. now rewrite heap_onDeck_other. }
      destruct (onDeck_fields q (fun d => withTime d mt) (setIsSyncing true s))
        as (_ & _ & Hsync & _ & Htimers & _).
      fold s1 in Hsync, Htimers. cbn in Hsync, Htimers.
      destruct (IH s1 (calls ++ [CallSetTime q mt]))
        as (Hin & Hout & Hflag & Ht & Hother).
      repeat split.
      * intros p [<- | Hp].
        -- destruct (Hout q Hq) as [-> _].
           rewrite setTimeCalls_app, setTimeCalls_one, Nat.eqb_refl, Eg.
           reflexivity.
        -- assert (Hpq : p <> q) by (intros ->; contradiction).
           rewrite (Hin p Hp), Htime by exact Hpq.
           rewrite setTimeCalls_app, setTimeCalls_one.
           rewrite (proj2 (Nat.eqb_neq q p)) by auto.
           now rewrite app_nil_r.
      * destruct (Hout p) as [-> _]; [intro; apply H; now right |].
        rewrite setTimeCalls_app, setTimeCalls_one.
        rewrite (proj2 (Nat.eqb_neq q p)) by (intros ->; apply H; now left).
        now rewrite app_nil_r.
      * destruct (Hout p) as [_ ->]; [intro; apply H; now right |].
        apply Hheap. intros ->. apply H. now left.
      * rewrite Hflag, Hsync, Eg. cbn. now rewrite orb_true_r.
      * now rewrite Ht.
      * rewrite Hother, filter_app. cbn. now rewrite app_nil_r.
    + rewrite syncSlave_keeps by lra.
      assert (Eg : Rgtb (Rabs (mt - getCurrentTime s q)) (4 / 100) = false)
        by (apply Rgtb_false; lra).
      destruct (IH s calls) as (Hin & Hout & Hflag & Ht & Hother).
      repeat split.
      * intros p [<- | Hp].
        -- destruct (Hout q Hq) as [-> _].
           rewrite Eg. now rewrite app_nil_r.
        -- now apply Hin.
      * destruct (Hout p) as [-> _]; [intro; apply H; now right | reflexivity].
      * destruct (Hout p) as [_ ->]; [intro; apply H; now right | reflexivity].
      * rewrite Eg. exact Hflag.
      * exact Ht.
      * exact Hother.
Qed.

Lemma TrackId_eqb_refl (x : TrackId) : TrackId_eqb x x = true.
Proof. now destruct x. Qed.

Lemma others_In (m p : Ptr) (l : list Ptr) :
  In p (filter (fun ws => negb (Nat.eqb ws m)) l) <-> In p l /\ p <> m.
Proof.
  rewrite filter_In. split; intros [H1 H2]; split; auto.
  - intros ->. now rewrite Nat.eqb_refl in H2.
  - now rewrite (proj2 (Nat.eqb_neq p m)).
Qed.

Lemma setTimeCalls_timeout (p : Ptr) (calls : list Call) (delay : R)
    (a : TimerAction) :
  setTimeCalls p (calls ++ [CallSetTimeout delay a]) = setTimeCalls p calls.
Proof. rewrite setTimeCalls_app. cbn. apply app_nil_r. Qed.

(** While a guard is raised the handler does nothing. *)
Lemma handleTimeUpdate_guarded (s : AppState) (time : R) (sourceId : TrackId) :
  isSeekingRef s = true \/ isSyncingRef s = true ->
  handleTimeUpdate time sourceId s = (s, []).
Proof.
  intros [H | H]; unfold handleTimeUpdate, handleTimeUpdateOf, closureOf;
    cbn [heldTab heldTrackA heldPlaying]; rewrite H;
    [| destruct (isSeekingRef s)]; reflexivity.
Qed.

(** The sync branch, as the function of a render in which [isPlaying] is
    true runs it.  In the comparator, with no guard raised, a time update of
    the master deck makes that function compare every other active deck
    with the master: a slave whose drift exceeds 0.04 s receives
    exactly one [setTime] call, to the master's time, and a slave whose
    drift is at most 0.04 s receives none, nor does the master or a deck
    that is not active.  When some slave was corrected the syncing guard is
    raised and a timer of 10 ms is scheduled to lower it; while the guard
    is up every time update returns at once. *)
Theorem drift_correction (s : AppState) (time : R) (sourceId : TrackId)
    (m : Ptr) :
  isSeekingRef s = false -> isSyncingRef s = false ->
  activeTab s = comparator -> isPlaying s = true ->
  sourceId = (if trackA s then A else B) ->
  match sourceId with
  | A => wsRefA (refs s)
  | _ => wsRefB (refs s)
  end = Some m ->
  NoDup (activeInstances s) ->
  let s' := fst (handleTimeUpdate time sourceId s) in
  let calls := snd (handleTimeUpdate time sourceId s) in
  let mt := getCurrentTime s m in
  let drift := fun p => Rabs (mt - getCurrentTime s p) in
  (forall p, In p (activeInstances s) -> p <> m ->
     (drift p > 4 / 100 -> setTimeCalls p calls = [CallSetTime p mt])
     /\ (drift p <= 4 / 100 -> setTimeCalls p calls = []))
  /\ setTimeCalls m calls = []
  /\ (forall p, ~ In p (activeInstances s) -> setTimeCalls p calls = [])
  /\ (isSyncingRef s' = true
      <-> exists p, In p (activeInstances s) /\ p <> m /\ drift p > 4 / 100)
  /\ (isSyncingRef s' = true ->
      timers s' = timers s ++ [(10, ClearSyncing)]
      /\ In (CallSetTimeout 10 ClearSyncing) calls
      /\ forall t src, handleTimeUpdate t src s' = (s', []))
  /\ (isSyncingRef s' = false ->
      timers s' = timers s /\ ~ In (CallSetTimeout 10 ClearSyncing) calls)
  /\ isSyncingRef (runTimer ClearSyncing s') = false.
Proof.
  intros Hseek Hsync Htab Hplay Hsrc Hmaster Hnd. cbv zeta.
  set (others := filter (fun ws => negb (Nat.eqb ws m)) (activeInstances s)).
  set (s1 := setCurrentTime time s).
  assert (Hothers : NoDup others) by now apply NoDup_filter.
  destruct (syncSlave_pass (getCurrentTime s m) others Hothers s1 [])
    as (Hin & Hout & Hflag & Htimers & Hkind).
  assert (Hrun : handleTimeUpdate time sourceId s
                 = let r := fold_left (syncSlave (getCurrentTime s m)) others
                              (s1, []) in
                   if isSyncingRef (fst r)
                   then (setTimers (timers (fst r) ++ [(10, ClearSyncing)])
                           (fst r),
                         snd r ++ [CallSetTimeout 10 ClearSyncing])
                   else (fst r, snd r)).
  { unfold handleTimeUpdate, handleTimeUpdateOf, closureOf;
    cbn [heldTab heldTrackA heldPlaying].
    rewrite Hseek, Hsync, Htab, Hplay, <- Hsrc, TrackId_eqb_refl, Hmaster.
    fold s1. cbv zeta.
    replace (activeInstancesOf comparator (refs s1)) with (activeInstances s)
      by (unfold activeInstances; now rewrite Htab).
    change (getCurrentTime s1 m) with (getCurrentTime s m). fold others.
    destruct (fold_left (syncSlave (getCurrentTime s m)) others (s1, []))
      as [s2 calls2].
    cbn [fst snd]. destruct (isSyncingRef s2); reflexivity. }
  rewrite Hrun. cbv zeta. clear Hrun.
  set (r := fold_left (syncSlave (getCurrentTime s m)) others (s1, [])) in *.
  change (getCurrentTime s1) with (getCurrentTime s) in *.
  change (isSyncingRef s1) with (isSyncingRef s) in Hflag.
  change (timers s1) with (timers s) in Htimers.
  rewrite Hsync in Hflag. cbn [orb] in Hflag.
  set (res := if isSyncingRef (fst r)
              then (setTimers (timers (fst r) ++ [(10, ClearSyncing)]) (fst r),
                    snd r ++ [CallSetTimeout 10 ClearSyncing])
              else (fst r, snd r)).
  assert (Hs' : isSyncingRef (fst res) = isSyncingRef (fst r))
    by (subst res; destruct (isSyncingRef (fst r)) eqn:E; cbn; congruence).
  assert (Ht' : timers (fst res)
                = if isSyncingRef (fst r)
                  then timers s ++ [(10, ClearSyncing)] else timers s)
    by (subst res; destruct (isSyncingRef (fst r)); cbn; congruence).
  assert (Hc' : snd res
                = if isSyncingRef (fst r)
                  then snd r ++ [CallSetTimeout 10 ClearSyncing] else snd r)
    by (subst res; destruct (isSyncingRef (fst r)); reflexivity).
  assert (Hcalls : forall p, setTimeCalls p (snd res) = setTimeCalls p (snd r)).
  { intro p. rewrite Hc'. destruct (isSyncingRef (fst r));
      [apply setTimeCalls_timeout | reflexivity]. }
  assert (Hex : isSyncingRef (fst r) = true
                <-> exists p, In p (activeInstances s) /\ p <> m
                              /\ Rabs (getCurrentTime s m - getCurrentTime s p)
                                 > 4 / 100).
  { rewrite Hflag, existsb_exists. split.
    - intros (p & Hp & Hd). apply others_In in Hp. apply Rgtb_true in Hd.
      exists p. tauto.
    - intros (p & Hp & Hne & Hd). exists p. split.
      + apply others_In. tauto.
      + now apply Rgtb_true. }
  rewrite Hs', Ht'.
  split; [| split; [| split; [| split; [| split; [| split]]]]].
  - intros p Hp Hne. split; intro Hd;
      rewrite Hcalls, Hin by (apply others_In; tauto).
    + now rewrite (proj2 (Rgtb_true _ _) Hd).
    + now rewrite (proj2 (Rgtb_false _ _) Hd).
  - rewrite Hcalls. destruct (Hout m) as [-> _]; [| reflexivity].
    intro Hm. apply others_In in Hm. tauto.
  - intros p Hp. rewrite Hcalls.
    destruct (Hout p) as [-> _]; [| reflexivity].
    intro Hp'. apply others_In in Hp'. tauto.
  - exact Hex.
  - intro H. rewrite Hc', H. split; [reflexivity |]. split.
    + apply in_or_app. right. now left.
    + intros t src. apply handleTimeUpdate_guarded. right. now rewrite Hs'.
  - intro H. rewrite Hc', H. split; [reflexivity |]. intro HIn.
    assert (Hmem : In (CallSetTimeout 10 ClearSyncing)
                     (filter (fun c => negb (match c with
                                             | CallSetTime _ _ => true
                                             | CallSetTimeout _ _ => false
                                             end)) (snd r)))
      by (apply filter_In; split; [exact HIn | reflexivity]).
    rewrite Hkind in Hmem. exact Hmem.
  - destruct (fst res); reflexivity.
Qed.

Lemma drift_correction_witness :
  setTimeCalls 2%nat (snd (handleTimeUpdate 10 A Examples.drifted))
  = [CallSetTime 2%nat (getCurrentTime Examples.drifted 1%nat)]
  /\ setTimeCalls 3%nat (snd (handleTimeUpdate 10 A Examples.drifted)) = []
  /\ isSyncingRef (fst (handleTimeUpdate 10 A Examples.drifted)) = true.
Proof.
  destruct (drift_correction Examples.drifted 10 A 1%nat)
    as (H & _ & _ & Hex & _); try reflexivity.
  - repeat constructor; cbn; intuition lia.
  - assert (H2 : Rabs (getCurrentTime Examples.drifted 1%nat
                       - getCurrentTime Examples.drifted 2%nat) > 4 / 100).
    { cbn. unfold Rabs. destruct (Rcase_abs _); lra. }
    assert (H3 : Rabs (getCurrentTime Examples.drifted 1%nat
                       - getCurrentTime Examples.drifted 3%nat) <= 4 / 100).
    { cbn. unfold Rabs. destruct (Rcase_abs _); lra. }
    split; [| split].
    + apply (H 2%nat); [cbn; auto | lia | exact H2].
    + apply (H 3%nat); [cbn; auto | lia | exact H3].
    + apply Hex. exists 2%nat. split; [cbn; auto |]. split; [lia | exact H2].
Defined.

End SyncFacts.

(** ** The registered time-update listener *)

Section ListenerFacts.

Import App Transport TrackDeck.

Lemma closureOf_onDeck (p : Ptr) (f : Deck -> Deck) (s : AppState) :
  closureOf (onDeck p f s) = closureOf s.
Proof. unfold onDeck. destruct (heap s p); reflexivity. Qed.

Lemma closureOf_forEachDeck (effect : Ptr -> Deck -> Deck)
    (calls : Ptr -> list DeckCall) (instances : list Ptr) :
  forall s cs,
    closureOf (fst (forEachDeck effect calls instances (s, cs)))
    = closureOf s.
Proof.
  unfold forEachDeck.
  induction instances as [| q rest IH]; intros s cs; cbn [fold_left];
    [reflexivity |].
  cbn [fst snd]. rewrite IH. apply closureOf_onDeck.
Qed.

(** What the render after a change of tab holds: the new tab, the track of
    deck A as it was, and playback stopped. *)
Lemma handleTabChange_closure (mode : ViewMode) (s : AppState) :
  closureOf (fst (handleTabChange mode s))
  = mkClosure mode (trackA s) false.
Proof.
  unfold handleTabChange.
  pose proof (closureOf_forEachDeck (fun _ d => withTime d 0)
                (fun ws => [DoStop ws])
                (present (wsRefA (refs s)) ++ present (wsRefB (refs s))
                 ++ present (wsRefDiffA (refs s))
                 ++ present (wsRefDiffB (refs s))
                 ++ present (wsRefC (refs s)))
                (setCurrentTime 0 (setIsPlaying false s)) []) as H.
  unfold resetPlayback.
  destruct (forEachDeck _ _ _ _) as [s1 calls]. cbn [fst] in *.
  unfold closureOf in *. cbn in *. injection H as _ -> ->. reflexivity.
Qed.

Lemma mountRender_paused (mount : AppState) :
  mountRender mount -> isPlaying mount = false.
Proof.
  intros [| mode s]; [reflexivity |].
  pose proof (handleTabChange_closure mode s) as H.
  unfold closureOf in H. now injection H.
Qed.

(** A function that holds [isPlaying = false] never reaches the loop over
    the slaves. *)
Lemma paused_closure_no_call (h : Closure) (time : R) (sourceId : TrackId)
    (s : AppState) :
  heldPlaying h = false ->
  let r := handleTimeUpdateOf h time sourceId s in
  snd r = [] /\ heap (fst r) = heap s
  /\ isSyncingRef (fst r) = isSyncingRef s /\ timers (fst r) = timers s.
Proof.
  intro Hp. cbv zeta. unfold handleTimeUpdateOf. rewrite Hp.
  destruct (isSeekingRef s); [auto |].
  destruct (isSyncingRef s) eqn:Hs; [auto |].
  destruct (heldTab h); cbn; auto.
  destruct (TrackId_eqb sourceId (if heldTrackA h then A else B)); cbn; auto.
Qed.

(** C7, on the program.  A deck registers its time-update listener once,
    when it mounts, and a deck mounts only in a render in which nothing is
    playing; the listener keeps the [handleTimeUpdate] of that render, which
    holds [isPlaying = false].  So no time update makes a corrective call,
    raises the guard or moves a deck, whatever the drift.  On the comparator
    with its four decks, mounted after a change of tab and now playing, with
    deck B 100 ms away from the master: the listener of the master makes no
    [setTime] call for deck B and leaves it where it was, although the
    drift is above 40 ms; the [handleTimeUpdate] of the current render,
    which no listener calls, would make the one call the design asks
    for. *)
Theorem drift_left_uncorrected :
  (forall mount, mountRender mount -> isPlaying mount = false)
  /\ (forall mount id time s,
        mountRender mount ->
        let r := timeupdateListener mount id time s in
        snd r = [] /\ heap (fst r) = heap s
        /\ isSyncingRef (fst r) = isSyncingRef s
        /\ timers (fst r) = timers s)
  /\ (let mount := fst (handleTabChange comparator Examples.fourDecks) in
      let r := timeupdateListener mount A 10 Examples.drifted in
      closureOf mount = mkClosure comparator true false
      /\ isPlaying Examples.drifted = true
      /\ isSeekingRef Examples.drifted = false
      /\ isSyncingRef Examples.drifted = false
      /\ Rabs (getCurrentTime Examples.drifted 1%nat
               - getCurrentTime Examples.drifted 2%nat) > 4 / 100
      /\ setTimeCalls 2%nat (snd r) = []
      /\ getCurrentTime (fst r) 2%nat = 101 / 10
      /\ setTimeCalls 2%nat (snd (handleTimeUpdate 10 A Examples.drifted))
         = [CallSetTime 2%nat 10]).
Proof.
  assert (Hgen : forall mount id time s,
            mountRender mount ->
            let r := timeupdateListener mount id time s in
            snd r = [] /\ heap (fst r) = heap s
            /\ isSyncingRef (fst r) = isSyncingRef s
            /\ timers (fst r) = timers s).
  { intros mount id time s Hm. unfold timeupdateListener.
    apply paused_closure_no_call. unfold closureOf. cbn [heldPlaying].
    now apply mountRender_paused. }
  split; [exact mountRender_paused |]. split; [exact Hgen |].
  cbv zeta.
  destruct (Hgen (fst (handleTabChange comparator Examples.fourDecks)) A 10
              Examples.drifted (mountAfterTabChange _ _))
    as (Hcalls & Hheap & _).
  split; [apply handleTabChange_closure |].
  split; [reflexivity |]. split; [reflexivity |]. split; [reflexivity |].
  split.
  { cbn. unfold Rabs. destruct (Rcase_abs _); lra. }
  split; [now rewrite Hcalls |].
  split.
  { unfold getCurrentTime. rewrite Hheap. reflexivity. }
  destruct drift_correction_witness as [H _]. exact H.
Qed.

End ListenerFacts.

(** ** The interval and the crossfade as they are supplied *)

Section ParameterFacts.

Import Bpm App.

(** With the exact addition the loop is the loop of the program's model. *)
Lemma rounded_exact (detect : list R -> R -> option R) (data : list R)
    (sampleRate duration step windowSize : R) (fuel : nat) :
  forall startTime points,
    Rounded.analyzeLoop Rplus detect data sampleRate duration fuel step
      windowSize startTime points
    = analyzeLoop detect data sampleRate duration fuel step windowSize
        startTime points.
Proof.
  induction fuel as [| fuel IH]; intros startTime points; cbn;
    [reflexivity |].
  destruct (Rltb startTime duration); [apply IH | reflexivity].
Qed.

(** While every addition moves the start time forward by [delta], the
    distance to the end shrinks by [delta] per iteration. *)
Lemma rounded_terminates (add : R -> R -> R)
    (detect : list R -> R -> option R) (data : list R)
    (sampleRate duration step windowSize delta : R) :
  0 < delta -> Rounded.advances add duration step delta ->
  forall (n : nat) (startTime : R) (points : list BpmPoint),
    0 <= startTime -> duration - startTime <= INR n * delta ->
    exists res,
      Rounded.analyzeLoop add detect data sampleRate duration (S n) step
        windowSize startTime points = Some res.
Proof.
  intros Hd Hadv. induction n as [| n IH]; intros startTime points H0 Hn.
  - cbn [INR] in Hn. cbn.
    rewrite (proj2 (Rltb_false startTime duration)) by lra. eauto.
  - cbn [Rounded.analyzeLoop].
    destruct (Rltb startTime duration) eqn:E; [| eauto].
    apply Rltb_true in E. pose proof (Hadv startTime H0 E) as Hstep.
    apply IH; [lra |]. rewrite S_INR in Hn. lra.
Qed.

Lemma volumeEffect_settings (s : AppState) :
  crossfade (volumeEffect s) = crossfade s
  /\ autoGain (volumeEffect s) = autoGain s
  /\ isDiffMode (volumeEffect s) = isDiffMode s
  /\ trackGains (volumeEffect s) = trackGains s.
Proof.
  assert (Hon : forall p f st,
            crossfade (onDeck p f st) = crossfade st
            /\ autoGain (onDeck p f st) = autoGain st
            /\ isDiffMode (onDeck p f st) = isDiffMode st
            /\ trackGains (onDeck p f st) = trackGains st).
  { intros p f st. unfold onDeck. destruct (heap st p); cbn; auto. }
  assert (Hset : forall ws v st,
            crossfade (setVolumeIfPresent ws v st) = crossfade st
            /\ autoGain (setVolumeIfPresent ws v st) = autoGain st
            /\ isDiffMode (setVolumeIfPresent ws v st) = isDiffMode st
            /\ trackGains (setVolumeIfPresent ws v st) = trackGains st).
  { intros [p |] v st; cbn [setVolumeIfPresent]; [apply Hon | auto]. }
  assert (Happ : forall ws v ph fg st,
            crossfade (applyVolumeAndPhase ws v ph fg st) = crossfade st
            /\ autoGain (applyVolumeAndPhase ws v ph fg st) = autoGain st
            /\ isDiffMode (applyVolumeAndPhase ws v ph fg st) = isDiffMode st
            /\ trackGains (applyVolumeAndPhase ws v ph fg st)
               = trackGains st).
  { intros [p |] v ph fg st; cbn [applyVolumeAndPhase]; [apply Hon | auto]. }
  unfold volumeEffect. destruct (activeTab s); [| apply Hset | auto].
  destruct (composeGainPhase s) as [a b].
  set (s1 := applyVolumeAndPhase _ _ _ _ s).
  set (s2 := applyVolumeAndPhase _ _ _ _ s1).
  set (s3 := setVolumeIfPresent _ _ s2).
  destruct (Hset (wsRefDiffB (refs s)) 0 s3) as (C4 & A4 & D4 & G4).
  destruct (Hset (wsRefDiffA (refs s)) 0 s2) as (C3 & A3 & D3 & G3).
  fold s3 in C3, A3, D3, G3.
  destruct (Happ (wsRefB (refs s)) (dgVolume b) (dgPhase b) (isDiffMode s) s1)
    as (C2 & A2 & D2 & G2).
  fold s2 in C2, A2, D2, G2.
  destruct (Happ (wsRefA (refs s)) (dgVolume a) (dgPhase a) (isDiffMode s) s)
    as (C1 & A1 & D1 & G1).
  fold s1 in C1, A1, D1, G1.
  repeat split; congruence.
Qed.

Lemma applyToDeck_legal (vol phase : R) (forceGraph : bool) (d : Deck) :
  0 <= vol <= 1 -> 0 <= volume d <= 1 ->
  0 <= volume (applyToDeck vol phase forceGraph d) <= 1.
Proof.
  intros Hv Hd. unfold applyToDeck.
  destruct (negb (media d)); [exact Hd |]. cbv zeta.
  destruct (_ && _); [destruct (graphCreatable d) |];
    cbn; try lra; destruct (audioGraph d); cbn; lra.
Qed.

Lemma onDeck_legal (p : Ptr) (f : Deck -> Deck) (s : AppState) :
  (forall d, 0 <= volume d <= 1 -> 0 <= volume (f d) <= 1) ->
  Parameters.legalVolumes s -> Parameters.legalVolumes (onDeck p f s).
Proof.
  intros Hf Hs q d' Hq. destruct (Nat.eq_dec q p) as [-> | Hne].
  - destruct (heap s p) as [d |] eqn:Ed.
    + rewrite (heap_onDeck_same p f s d Ed) in Hq. injection Hq as <-.
      apply Hf. now apply (Hs p).
    + unfold onDeck in Hq. rewrite Ed in Hq. congruence.
  - rewrite heap_onDeck_other in Hq by exact Hne. now apply (Hs q).
Qed.

Lemma composeGainPhase_legal (s : AppState) :
  0 <= crossfade s <= 1 -> Parameters.unitGains s ->
  0 <= dgVolume (fst (composeGainPhase s)) <= 1
  /\ 0 <= dgVolume (snd (composeGainPhase s)) <= 1.
Proof.
  intros Hc [HA HB]. unfold composeGainPhase. cbv zeta.
  set (gA := if autoGain s then gainA (trackGains s) else 1).
  set (gB := if autoGain s then gainB (trackGains s) else 1).
  assert (HgA : 0 <= gA <= 1) by (unfold gA; destruct (autoGain s); lra).
  assert (HgB : 0 <= gB <= 1) by (unfold gB; destruct (autoGain s); lra).
  destruct (isDiffMode s); cbn [fst snd dgVolume]; split; nra.
Qed.

Lemma volumeEffect_legal (s : AppState) :
  0 <= crossfade s <= 1 -> Parameters.unitGains s ->
  Parameters.legalVolumes s -> Parameters.legalVolumes (volumeEffect s).
Proof.
  intros Hc Hg Hs.
  assert (Hset : forall ws v st,
            0 <= v <= 1 -> Parameters.legalVolumes st ->
            Parameters.legalVolumes (setVolumeIfPresent ws v st)).
  { intros [p |] v st Hv Hst; cbn [setVolumeIfPresent]; [| exact Hst].
    apply onDeck_legal; [| exact Hst]. intros d _. cbn. exact Hv. }
  assert (Happ : forall ws v ph fg st,
            0 <= v <= 1 -> Parameters.legalVolumes st ->
            Parameters.legalVolumes (applyVolumeAndPhase ws v ph fg st)).
  { intros [p |] v ph fg st Hv Hst; cbn [applyVolumeAndPhase];
      [| exact Hst].
    apply onDeck_legal; [| exact Hst]. intros d. now apply applyToDeck_legal. }
  destruct (composeGainPhase_legal s Hc Hg) as [Ha Hb].
  unfold volumeEffect. destruct (activeTab s).
  - destruct (composeGainPhase s) as [a b]. cbn [fst snd] in Ha, Hb.
    apply Hset; [lra |]. apply Hset; [lra |].
    apply Happ; [exact Hb |]. apply Happ; [exact Ha | exact Hs].
  - apply Hset; [lra | exact Hs].
  - exact Hs.
Qed.

(** C8, as the program has it.  Neither parameter is clamped.  The
    interval 0 stands for a step of 30 s and every other interval is the
    step itself; for an interval that is not negative the step is positive
    and the sequencer terminates and returns a timeline, and so it does
    under any rounded addition that moves the start time forward by a fixed
    positive amount (as the exact addition does, by the step).  The
    crossfade is stored as it is supplied and composed as it is; for a
    crossfade in [0, 1], with both gains in [0, 1], the volume of every
    media element stays one the element accepts. *)
Theorem parameters_within_range (data : list R)
    (sampleRate duration interval value : R) (s : AppState) :
  stepOf 0 = 30
  /\ (interval <> 0 -> stepOf interval = interval)
  /\ (0 <= interval ->
      0 < stepOf interval
      /\ Rounded.advances Rplus duration (stepOf interval) (stepOf interval)
      /\ Design.returnsTimeline data sampleRate duration interval)
  /\ (forall add delta,
        0 < delta ->
        Rounded.advances add duration (stepOf interval) delta ->
        exists fuel pts,
          Rounded.analyzeBpmFromData add fuel data sampleRate duration
            interval = Some pts)
  /\ (forall fuel,
        Rounded.analyzeBpmFromData Rplus fuel data sampleRate duration
          interval
        = analyzeBpmFromData fuel data sampleRate duration interval)
  /\ crossfade (handleCrossfadeChange value s) = value
  /\ (isDiffMode s = false ->
      let gA := if autoGain s then gainA (trackGains s) else 1 in
      let gB := if autoGain s then gainB (trackGains s) else 1 in
      composeGainPhase (handleCrossfadeChange value s)
      = (mkGainPhase ((1 - value) * gA) 1, mkGainPhase (value * gB) 1))
  /\ (0 <= value <= 1 ->
      Parameters.unitGains s -> Parameters.legalVolumes s ->
      Parameters.legalVolumes (handleCrossfadeChange value s)).
Proof.
  assert (Hcf : crossfade (handleCrossfadeChange value s) = value).
  { unfold handleCrossfadeChange.
    destruct (Reqb value (crossfade s)) eqn:E.
    - apply Reqb_true in E. congruence.
    - destruct (volumeEffect_settings (setCrossfade value s)) as (-> & _).
      reflexivity. }
  assert (Hsame : autoGain (handleCrossfadeChange value s) = autoGain s
                  /\ isDiffMode (handleCrossfadeChange value s) = isDiffMode s
                  /\ trackGains (handleCrossfadeChange value s)
                     = trackGains s).
  { unfold handleCrossfadeChange.
    destruct (Reqb value (crossfade s)); [auto |].
    destruct (volumeEffect_settings (setCrossfade value s))
      as (_ & -> & -> & ->). auto. }
  destruct Hsame as (Hag & Hdm & Htg).
  split; [apply stepOf_auto |].
  split; [intro Hne; unfold stepOf;
          now rewrite (proj2 (Reqb_false interval 0) Hne) |].
  split.
  { intro Hint.
    destruct (sequencer_terminates data sampleRate duration interval Hint)
      as (_ & Hret & _).
    split; [now apply stepOf_pos |]. split; [intros t _ _; lra | exact Hret]. }
  split.
  { intros add delta Hd Hadv.
    exists (S (Design.windowCount duration delta)).
    unfold Rounded.analyzeBpmFromData, Rounded.analyzeWith. cbv zeta.
    destruct (rounded_terminates add detectBpmInChunk data sampleRate
                duration (stepOf interval) (Rmax (stepOf interval) 30)
                delta Hd Hadv (Design.windowCount duration delta) 0 [])
      as [res Hres]; [lra | | eauto].
    destruct (windowCount_spec duration delta Hd) as [_ H]. lra. }
  split.
  { intro fuel.
    unfold Rounded.analyzeBpmFromData, Rounded.analyzeWith,
      analyzeBpmFromData, analyzeWith. cbv zeta. apply rounded_exact. }
  split; [exact Hcf |].
  split.
  { intro Hd. cbv zeta.
    rewrite composeGainPhase_normal by congruence.
    now rewrite Hcf, Hag, Htg. }
  intros Hval Hg Hs. unfold handleCrossfadeChange.
  destruct (Reqb value (crossfade s)); [exact Hs |].
  apply volumeEffect_legal; [exact Hval | exact Hg | exact Hs].
Qed.

Lemma fourDecks_legal :
  Parameters.unitGains Examples.fourDecks
  /\ Parameters.legalVolumes Examples.fourDecks.
Proof.
  split.
  - unfold Parameters.unitGains. cbn. lra.
  - intros p d H. unfold Examples.fourDecks in H. cbn [heap] in H.
    destruct ((1 <=? p)%nat && (p <=? 4)%nat); [| discriminate].
    injection H as <-. cbn. lra.
Qed.

Lemma parameters_within_range_witness :
  Design.returnsTimeline Examples.silence60 44100 60 (5 / 10)
  /\ Parameters.legalVolumes
       (handleCrossfadeChange (1 / 4) Examples.fourDecks).
Proof.
  destruct (parameters_within_range Examples.silence60 44100 60 (5 / 10)
              (1 / 4) Examples.fourDecks)
    as (_ & _ & Hret & _ & _ & _ & _ & Hlegal).
  split; [apply Hret; lra |].
  apply Hlegal; [lra | apply fourDecks_legal | apply fourDecks_legal].
Defined.

(** The interval -1 makes the start time decrease: on a 60 s track the
    loop never reaches its exit.  The crossfade 2 is stored and composed
    as it is: deck A is handed the volume -1, which no media element
    accepts. *)
Lemma unclamped_parameters_counterexample :
  ~ Design.returnsTimeline Examples.silence60 44100 60 (-1)
  /\ stepOf (-1) = -1
  /\ crossfade (handleCrossfadeChange 2 Examples.fourDecks) = 2
  /\ dgVolume (fst (composeGainPhase
                      (handleCrossfadeChange 2 Examples.fourDecks))) = -1
  /\ (exists dA, heap (handleCrossfadeChange 2 Examples.fourDecks) 1%nat
                 = Some dA /\ volume dA = -1)
  /\ ~ Parameters.legalVolumes (handleCrossfadeChange 2 Examples.fourDecks).
Proof.
  assert (Hrun : handleCrossfadeChange 2 Examples.fourDecks
                 = volumeEffect (setCrossfade 2 Examples.fourDecks)).
  { unfold handleCrossfadeChange.
    rewrite (proj2 (Reqb_false 2 (crossfade Examples.fourDecks)));
      [reflexivity | cbn; lra]. }
  assert (HdA : exists dA,
            heap (handleCrossfadeChange 2 Examples.fourDecks) 1%nat = Some dA
            /\ volume dA = -1).
  { rewrite Hrun.
    destruct (volumeEffect_decks (setCrossfade 2 Examples.fourDecks)
                1%nat 2%nat (newDeck None) (newDeck None)) as [HA _];
      try reflexivity.
    - repeat constructor; cbn; intuition lia.
    - eexists. split; [exact HA |].
      cbn. rewrite (proj2 (Reqb_false 1 (-1))) by lra. cbn. lra. }
  split; [exact negative_interval_counterexample |].
  split; [apply stepOf_neg; lra |].
  split.
  { rewrite Hrun.
    now destruct (volumeEffect_settings (setCrossfade 2 Examples.fourDecks))
      as (-> & _). }
  split.
  { rewrite Hrun. unfold composeGainPhase. cbv zeta.
    destruct (volumeEffect_settings (setCrossfade 2 Examples.fourDecks))
      as (-> & -> & -> & ->). cbn. lra. }
  split; [exact HdA |].
  intro Hlegal. destruct HdA as (dA & HA & Hv).
  specialize (Hlegal 1%nat dA HA). lra.
Qed.

End ParameterFacts.

(** ** The auto-gain effect across track loads *)

Section AutoGainEffectFacts.

Import App.

Lemma sameAudio_refl (s : AppState) : Design.sameAudio s s.
Proof. unfold Design.sameAudio. auto. Qed.

Lemma sameAudio_trans (s1 s2 s3 : AppState) :
  Design.sameAudio s1 s2 -> Design.sameAudio s2 s3 -> Design.sameAudio s1 s3.
Proof.
  unfold Design.sameAudio.
  intros (G1 & A1 & B1 & R1 & D1) (G2 & A2 & B2 & R2 & D2).
  repeat split; try congruence; intros; now rewrite D2, D1.
Qed.

(** A method that leaves the decoded data alone leaves the audio state. *)
Lemma onDeck_sameAudio (p : Ptr) (f : Deck -> Deck) (s : AppState) :
  (forall d, decodedData (f d) = decodedData d) ->
  Design.sameAudio s (onDeck p f s).
Proof.
  intro Hf. unfold Design.sameAudio, onDeck.
  destruct (heap s p) as [d |] eqn:E; [| auto 10].
  cbn. repeat split. intro q. unfold getDecodedData. cbn.
  unfold update. destruct (Nat.eqb_spec q p) as [-> | Hne]; [| reflexivity].
  now rewrite E, Hf.
Qed.

Lemma applyToDeck_decoded (vol phase : R) (force : bool) (d : Deck) :
  decodedData (applyToDeck vol phase force d) = decodedData d.
Proof.
  unfold applyToDeck. destruct (negb (media d)); [reflexivity |].
  destruct ((force || Reqb phase (-1))
            && match audioGraph d with None => true | Some _ => false end);
    [destruct (graphCreatable d) |];
    cbn; destruct (audioGraph d); reflexivity.
Qed.

Lemma applyVolumeAndPhase_sameAudio (ws : option Ptr) (vol phase : R)
    (force : bool) (s : AppState) :
  Design.sameAudio s (applyVolumeAndPhase ws vol phase force s).
Proof.
  destruct ws as [p |]; cbn; [| apply sameAudio_refl].
  apply onDeck_sameAudio. intro d. apply applyToDeck_decoded.
Qed.

Lemma setVolumeIfPresent_sameAudio (ws : option Ptr) (v : R) (s : AppState) :
  Design.sameAudio s (setVolumeIfPresent ws v s).
Proof.
  destruct ws as [p |]; cbn; [| apply sameAudio_refl].
  apply onDeck_sameAudio. reflexivity.
Qed.

(** The volume effect touches neither the gain pair, nor the instances, nor
    the decoded buffers. *)
Lemma volumeEffect_sameAudio (s : AppState) :
  Design.sameAudio s (volumeEffect s).
Proof.
  unfold volumeEffect. destruct (activeTab s).
  - destruct (composeGainPhase s) as [a b].
    eapply sameAudio_trans; [| apply setVolumeIfPresent_sameAudio].
    eapply sameAudio_trans; [| apply setVolumeIfPresent_sameAudio].
    eapply sameAudio_trans; [| apply applyVolumeAndPhase_sameAudio].
    apply applyVolumeAndPhase_sameAudio.
  - apply setVolumeIfPresent_sameAudio.
  - apply sameAudio_refl.
Qed.

Lemma autoGainEffect_sameAudio (s s' : AppState) :
  Design.sameAudio s s' -> autoGainEffect s' = autoGainEffect s.
Proof.
  intros (_ & HA & HB & _ & HD). unfold autoGainEffect.
  rewrite HA, HB. destruct (wsInstanceA s), (wsInstanceB s); try reflexivity.
  now rewrite !HD.
Qed.

(** The auto-gain effect: the pair it sets, or the pair it leaves. *)
Lemma runAutoGainEffect_spec (s : AppState) :
  trackGains (runAutoGainEffect s)
  = match autoGainEffect s with
    | Some g => g
    | None => trackGains s
    end
  /\ wsInstanceA (runAutoGainEffect s) = wsInstanceA s
  /\ wsInstanceB (runAutoGainEffect s) = wsInstanceB s
  /\ refs (runAutoGainEffect s) = refs s
  /\ forall q, getDecodedData (runAutoGainEffect s) q = getDecodedData s q.
Proof.
  unfold runAutoGainEffect. destruct (autoGainEffect s) as [g |]; [| auto 10].
  destruct (volumeEffect_sameAudio (setTrackGains g s))
    as (G & A & B & R & D).
  rewrite G, A, B, R. repeat split. intro q. now rewrite D.
Qed.

(** [ready] on an object that the instance state does not hold yet: the
    effects run on the new instances and buffers. *)
Lemma handleTrackReady_new_A (p : Ptr) (s : AppState) :
  wsInstanceA s <> Some p ->
  let s' := handleTrackReady A p s in
  trackGains s'
  = match autoGainEffect (setWsInstanceA (Some p) s) with
    | Some g => g
    | None => trackGains s
    end
  /\ wsInstanceA s' = Some p
  /\ wsInstanceB s' = wsInstanceB s
  /\ wsRefA (refs s') = Some p
  /\ wsRefB (refs s') = wsRefB (refs s)
  /\ wsRefDiffB (refs s') = wsRefDiffB (refs s)
  /\ forall q, getDecodedData s' q = getDecodedData s q.
Proof.
  intro Hnew. cbv zeta. unfold handleTrackReady.
  replace (Ptr_eqb (wsInstanceA s) (Some p)) with false.
  2:{ symmetry. destruct (wsInstanceA s) as [q |]; cbn; [| reflexivity].
      apply Nat.eqb_neq. congruence. }
  set (s1 := setWsInstanceA (Some p) (setRefs _ s)).
  destruct (runAutoGainEffect_spec (volumeEffect s1)) as (G & IA & IB & R & D).
  destruct (volumeEffect_sameAudio s1) as (G1 & A1 & B1 & R1 & D1).
  rewrite G, IA, IB, R, G1, A1, B1, R1.
  rewrite (autoGainEffect_sameAudio s1 _ (volumeEffect_sameAudio s1)).
  repeat split. intro q. now rewrite D, D1.
Qed.

Lemma handleTrackReady_new_B (p : Ptr) (s : AppState) :
  wsInstanceB s <> Some p ->
  let s' := handleTrackReady B p s in
  trackGains s'
  = match autoGainEffect (setWsInstanceB (Some p) s) with
    | Some g => g
    | None => trackGains s
    end
  /\ wsInstanceA s' = wsInstanceA s
  /\ wsInstanceB s' = Some p
  /\ wsRefA (refs s') = wsRefA (refs s)
  /\ wsRefB (refs s') = Some p
  /\ wsRefDiffB (refs s') = wsRefDiffB (refs s)
  /\ forall q, getDecodedData s' q = getDecodedData s q.
Proof.
  intro Hnew. cbv zeta. unfold handleTrackReady.
  replace (Ptr_eqb (wsInstanceB s) (Some p)) with false.
  2:{ symmetry. destruct (wsInstanceB s) as [q |]; cbn; [| reflexivity].
      apply Nat.eqb_neq. congruence. }
  set (s1 := setWsInstanceB (Some p) (setRefs _ s)).
  destruct (runAutoGainEffect_spec (volumeEffect s1)) as (G & IA & IB & R & D).
  destruct (volumeEffect_sameAudio s1) as (G1 & A1 & B1 & R1 & D1).
  rewrite G, IA, IB, R, G1, A1, B1, R1.
  rewrite (autoGainEffect_sameAudio s1 _ (volumeEffect_sameAudio s1)).
  repeat split. intro q. now rewrite D, D1.
Qed.

(** [ready] on the object the instance state already holds: React sees no
    change of state, no effect runs, and the gain pair stays. *)
Lemma handleTrackReady_same_B (p : Ptr) (s : AppState) :
  wsInstanceB s = Some p ->
  let s' := handleTrackReady B p s in
  trackGains s' = trackGains s
  /\ wsRefA (refs s') = wsRefA (refs s)
  /\ wsRefB (refs s') = Some p
  /\ forall q, getDecodedData s' q = getDecodedData s q.
Proof.
  intro Hsame. cbv zeta. unfold handleTrackReady. rewrite Hsame.
  cbn [Ptr_eqb]. rewrite Nat.eqb_refl. cbn. auto.
Qed.

Lemma getDecodedData_decoded (p q : Ptr) (buf : AudioAnalysis.AudioBuffer)
    (s : AppState) :
  getDecodedData (decoded p buf s) q
  = if Nat.eqb q p then Some buf else getDecodedData s q.
Proof.
  unfold getDecodedData, decoded. cbn. unfold update.
  destruct (Nat.eqb q p); [| reflexivity].
  destruct (heap s p); reflexivity.
Qed.

Lemma handleFileUpload_B (s : AppState) (pB : Ptr) :
  wsRefB (refs s) = Some pB -> wsRefDiffB (refs s) = None ->
  let s' := handleFileUpload B s in
  trackGains s' = trackGains s
  /\ wsInstanceA s' = wsInstanceA s
  /\ wsInstanceB s' = wsInstanceB s
  /\ refs s' = refs s
  /\ getDecodedData s' pB = None
  /\ forall q, q <> pB -> getDecodedData s' q = getDecodedData s q.
Proof.
  intros HB HD. cbv zeta. unfold handleFileUpload. rewrite HB, HD.
  set (s2 := if isPlaying s then setTrack B s
             else setCurrentTime 0 (setTrack B s)).
  assert (H2 : trackGains s2 = trackGains s /\ wsInstanceA s2 = wsInstanceA s
               /\ wsInstanceB s2 = wsInstanceB s /\ refs s2 = refs s
               /\ heap s2 = heap s)
    by (subst s2; destruct (isPlaying s); cbn; auto).
  destruct H2 as (G & IA & IB & R & H).
  unfold onDeck. rewrite H.
  destruct (heap s pB) as [d |] eqn:E.
  - cbn. rewrite G, IA, IB, R. repeat split.
    + unfold getDecodedData. cbn. now rewrite update_same.
    + intros q Hq. unfold getDecodedData. cbn. now rewrite update_other.
  - rewrite G, IA, IB, R. repeat split.
    + unfold getDecodedData. now rewrite H, E.
    + intros q Hq. unfold getDecodedData. now rewrite H.
Qed.

(** The loudness of the two sample buffers. *)
Lemma loudness_loudBuffer :
  AudioAnalysis.calculateTrackLoudness Examples.loudBuffer = 0.
Proof.
  unfold AudioAnalysis.calculateTrackLoudness, AudioAnalysis.rmsOf.
  cbv zeta.
  assert (E : AudioAnalysis.avgPower Examples.loudBuffer = 1).
  { unfold AudioAnalysis.avgPower, AudioAnalysis.channelPowerSum,
      AudioAnalysis.channelStep. cbn. lra. }
  rewrite E, sqrt_1. rewrite (proj2 (Rltb_false _ _)) by lra.
  unfold log10. rewrite ln_1. lra.
Qed.

Lemma loudness_quietBuffer :
  AudioAnalysis.calculateTrackLoudness Examples.quietBuffer = -100.
Proof.
  unfold AudioAnalysis.calculateTrackLoudness, AudioAnalysis.rmsOf.
  cbv zeta.
  assert (E : AudioAnalysis.avgPower Examples.quietBuffer = 0).
  { unfold AudioAnalysis.avgPower, AudioAnalysis.channelPowerSum,
      AudioAnalysis.channelStep. cbn. lra. }
  rewrite E, sqrt_0. now rewrite (proj2 (Rltb_true _ _)) by lra.
Qed.

(** The scenario, step by step: after both decks are ready the pair is the
    one resolved from the loud and the quiet buffer. *)
Lemma bothReady_state :
  let s := deckReady B 2%nat Examples.quietBuffer
             (deckReady A 1%nat Examples.loudBuffer initialState) in
  trackGains s = resolveGains 0 (-100)
  /\ wsInstanceA s = Some 1%nat /\ wsInstanceB s = Some 2%nat
  /\ wsRefA (refs s) = Some 1%nat /\ wsRefB (refs s) = Some 2%nat
  /\ wsRefDiffB (refs s) = None
  /\ getDecodedData s 1%nat = Some Examples.loudBuffer
  /\ getDecodedData s 2%nat = Some Examples.quietBuffer.
Proof.
  cbv zeta. unfold deckReady.
  set (s0 := decoded 1%nat Examples.loudBuffer initialState).
  destruct (handleTrackReady_new_A 1%nat s0) as (G1 & A1 & B1 & RA1 & RB1 & RD1 & D1);
    [discriminate |].
  set (s1 := handleTrackReady A 1%nat s0) in *.
  set (s1' := decoded 2%nat Examples.quietBuffer s1).
  assert (IA : wsInstanceA s1' = Some 1%nat) by exact A1.
  assert (IB : wsInstanceB s1' = None) by exact B1.
  destruct (handleTrackReady_new_B 2%nat s1') as (G2 & A2 & B2 & RA2 & RB2 & RD2 & D2);
    [rewrite IB; discriminate |].
  rewrite G2, A2, B2, RA2, RB2, RD2, !D2.
  assert (E1 : getDecodedData s1' 1%nat = Some Examples.loudBuffer).
  { subst s1'. rewrite getDecodedData_decoded. cbn [Nat.eqb].
    rewrite D1. subst s0. now rewrite getDecodedData_decoded. }
  assert (E2 : getDecodedData s1' 2%nat = Some Examples.quietBuffer).
  { subst s1'. now rewrite getDecodedData_decoded. }
  repeat split; auto.
  unfold autoGainEffect.
  change (wsInstanceA (setWsInstanceB (Some 2%nat) s1'))
    with (wsInstanceA s1').
  change (wsInstanceB (setWsInstanceB (Some 2%nat) s1')) with (Some 2%nat).
  change (getDecodedData (setWsInstanceB (Some 2%nat) s1'))
    with (getDecodedData s1').
  rewrite IA, E1, E2. now rewrite loudness_loudBuffer, loudness_quietBuffer.
Qed.

Lemma replacedTrack_state :
  trackGains Examples.replacedTrack = resolveGains 0 (-100)
  /\ wsInstanceA Examples.replacedTrack = Some 1%nat
  /\ wsInstanceB Examples.replacedTrack = Some 2%nat
  /\ wsRefA (refs Examples.replacedTrack) = Some 1%nat
  /\ wsRefB (refs Examples.replacedTrack) = Some 2%nat
  /\ getDecodedData Examples.replacedTrack 1%nat = Some Examples.loudBuffer
  /\ getDecodedData Examples.replacedTrack 2%nat = None.
Proof.
  destruct bothReady_state as (G & A & B & RA & RB & RD & D1 & D2).
  unfold Examples.replacedTrack.
  set (s := deckReady App.B 2%nat Examples.quietBuffer
              (deckReady App.A 1%nat Examples.loudBuffer initialState)) in *.
  destruct (handleFileUpload_B s 2%nat RB RD) as (G' & A' & B' & R' & N & O).
  rewrite G', A', B', R', N, O by lia. auto 10.
Qed.

Lemma redecodedTrack_state :
  trackGains Examples.redecodedTrack = resolveGains 0 (-100)
  /\ wsRefA (refs Examples.redecodedTrack) = Some 1%nat
  /\ wsRefB (refs Examples.redecodedTrack) = Some 2%nat
  /\ getDecodedData Examples.redecodedTrack 1%nat = Some Examples.loudBuffer
  /\ getDecodedData Examples.redecodedTrack 2%nat = Some Examples.loudBuffer.
Proof.
  destruct replacedTrack_state as (G & A & B & RA & RB & D1 & D2).
  unfold Examples.redecodedTrack, deckReady.
  set (s := decoded 2%nat Examples.loudBuffer Examples.replacedTrack).
  destruct (handleTrackReady_same_B 2%nat s) as (G' & RA' & RB' & D');
    [exact B |].
  rewrite G', RA', RB', !D'. subst s.
  rewrite !getDecodedData_decoded. cbn [Nat.eqb]. auto.
Qed.

Lemma stale_pair_not_unit : gainA (resolveGains 0 (-100)) < 1.
Proof. apply resolveGains_louder_A. lra. Qed.

(** C9, on the program.  After deck A and deck B became ready and the user
    replaced the track of deck B: while the new file of deck B is undecoded
    the gain pair is still the one of the previous two buffers, not {1, 1};
    and once it is decoded the pair is still the previous one, although
    both buffers are now equally loud and their pair would be {1, 1}. *)
Theorem stale_gain_pair :
  Design.deckBuffer Examples.replacedTrack
    (wsRefB (refs Examples.replacedTrack)) = None
  /\ gainA (trackGains Examples.replacedTrack) < 1
  /\ ~ Design.defaultsWhileUndecoded Examples.replacedTrack
  /\ Design.deckBuffer Examples.redecodedTrack
       (wsRefA (refs Examples.redecodedTrack)) = Some Examples.loudBuffer
  /\ Design.deckBuffer Examples.redecodedTrack
       (wsRefB (refs Examples.redecodedTrack)) = Some Examples.loudBuffer
  /\ trackGains Examples.redecodedTrack = trackGains Examples.replacedTrack
  /\ autoGainEffect Examples.redecodedTrack = Some (mkGains 1 1)
  /\ ~ Design.gainsMatchBuffers Examples.redecodedTrack.
Proof.
  destruct replacedTrack_state as (G & A & B & RA & RB & D1 & D2).
  destruct redecodedTrack_state as (G' & RA' & RB' & D1' & D2').
  pose proof stale_pair_not_unit as Hlt.
  assert (Hfresh : resolveGains 0 0 = mkGains 1 1).
  { unfold resolveGains. cbv zeta. rewrite Rmin_left by lra.
    replace ((0 - 0) / 20) with 0 by lra. now rewrite pow10_zero. }
  split; [now rewrite RB |]. split; [now rewrite G |].
  split.
  { intro H. unfold Design.defaultsWhileUndecoded in H.
    rewrite H in G by (right; now rewrite RB).
    rewrite <- G in Hlt. cbn in Hlt. lra. }
  split; [now rewrite RA' |]. split; [now rewrite RB' |].
  split; [now rewrite G', G |].
  split.
  { unfold autoGainEffect.
    assert (IA : wsInstanceA Examples.redecodedTrack = Some 1%nat).
    { unfold Examples.redecodedTrack, deckReady, handleTrackReady.
      change (wsInstanceB (decoded 2%nat Examples.loudBuffer
                             Examples.replacedTrack))
        with (wsInstanceB Examples.replacedTrack).
      rewrite B. cbn [Ptr_eqb Nat.eqb]. exact A. }
    assert (IB : wsInstanceB Examples.redecodedTrack = Some 2%nat).
    { unfold Examples.redecodedTrack, deckReady, handleTrackReady.
      change (wsInstanceB (decoded 2%nat Examples.loudBuffer
                             Examples.replacedTrack))
        with (wsInstanceB Examples.replacedTrack).
      rewrite B. cbn [Ptr_eqb Nat.eqb]. exact B. }
    rewrite IA, IB, D1', D2', loudness_loudBuffer. now rewrite Hfresh. }
  intro H. unfold Design.gainsMatchBuffers in H.
  specialize (H Examples.loudBuffer Examples.loudBuffer).
  rewrite RA', RB' in H. specialize (H D1' D2').
  rewrite loudness_loudBuffer, Hfresh in H.
  rewrite H in G'. rewrite <- G' in Hlt. cbn in Hlt. lra.
Qed.

End AutoGainEffectFacts.

(** * Further properties of the program *)

(** ** Loudness under a gain *)

Section LoudnessGainFacts.

Import AudioAnalysis.




Lemma strided_length (data : list R) :
  List.length (Design.strided data)
  = ((List.length data + (stride - 1)) / stride)%nat.
Proof. unfold Design.strided. now rewrite length_map, length_seq. Qed.















Lemma loudness_at_floor (b : AudioBuffer) :
  rmsOf b < 1 / 100000 -> calculateTrackLoudness b = -100.
Proof.
  intro H. unfold calculateTrackLoudness. cbv zeta.
  now rewrite (proj2 (Rltb_true _ _) H).
Qed.

(** A reading above -100 is a reading above the floor. *)
Lemma loudness_above_minus100 (b : AudioBuffer) :
  -100 < calculateTrackLoudness b -> 1 / 100000 <= rmsOf b.
Proof.
  intro H. destruct (Rlt_dec (rmsOf b) (1 / 100000)) as [Hlt | Hge]; [| lra].
  rewrite loudness_at_floor in H by exact Hlt. lra.
Qed.













End LoudnessGainFacts.

(** ** The estimator on quiet and on scaled input *)

Section EstimatorEdgeFacts.

Import Bpm.

Lemma clampBpm_high (x : R) : maxBpm <= x -> clampBpm x = maxBpm.
Proof.
  unfold clampBpm, minBpm, maxBpm. cbv zeta. intro H.
  rewrite (proj2 (Rltb_false x 55)) by lra.
  destruct H as [H | <-].
  - now rewrite (proj2 (Rgtb_true _ _)) by lra.
  - now rewrite (proj2 (Rgtb_false _ _)) by lra.
Qed.

(** X4.  Silence is not reported as "no estimate": on an all-zero slice
    (the empty slice included), at any sample rate from 811 Hz up, the
    estimator returns 190 BPM, the upper end of its range. *)
Theorem estimator_on_silence (data : list R) (sampleRate : R) :
  Forall Design.isZero data ->
  2432 <= 3 * sampleRate ->
  detectBpmInChunk data sampleRate = Some 190.
Proof.
  intros Hz Hsr.
  rewrite detectBpmInChunk_silent by (auto; lra).
  rewrite INR_downsampleRatio.
  set (rate := sampleRate / 256).
  assert (Hrate : 190 / 60 <= rate) by (unfold rate; lra).
  pose proof (Zfloor_bound (60 / maxBpm * rate)) as [Hlo _].
  assert (H1 : (1 <= minLagOf rate)%Z).
  { unfold minLagOf. apply Zfloor_lub. unfold maxBpm.
    replace (IZR 1) with (60 / 190 * (190 / 60)) by (cbn; lra).
    apply Rmult_le_compat_l; lra. }
  fold (minLagOf rate) in Hlo. apply IZR_le in H1.
  unfold maxBpm in Hlo.
  rewrite clampBpm_high; [reflexivity |]. unfold maxBpm.
  apply (Rmult_le_reg_r (IZR (minLagOf rate))); [lra |].
  unfold Rdiv. rewrite Rmult_assoc, Rinv_l by lra. lra.
Qed.

Lemma estimator_on_silence_witness :
  detectBpmInChunk [] 48000 = Some 190.
Proof.
  apply estimator_on_silence; [constructor | lra].
Defined.

End EstimatorEdgeFacts.

(** ** The lag search under a gain *)

Section LagGainFacts.

Import Bpm.

Variable k : R.
Hypothesis k_pos : 0 < k.













End LagGainFacts.



(** ** What the estimator is given, and what the timeline holds *)

Section WindowFacts.

Import Bpm.

Lemma slice_inside (data : list R) (a b : Z) :
  (0 <= a <= b)%Z -> (b <= Z.of_nat (List.length data))%Z ->
  slice data a b = firstn (Z.to_nat (b - a)) (skipn (Z.to_nat a) data)
  /\ List.length (slice data a b) = Z.to_nat (b - a).
Proof.
  intros Hab Hb. unfold slice, sliceIndex. cbv zeta.
  replace (a <? 0)%Z with false by (symmetry; apply Z.ltb_ge; lia).
  replace (b <? 0)%Z with false by (symmetry; apply Z.ltb_ge; lia).
  rewrite !Z.min_l by lia. split; [reflexivity |].
  rewrite length_firstn, length_skipn. lia.
Qed.

(** X6.  On a signal that holds [duration * sampleRate] samples, a window
    that is not skipped hands the estimator exactly the samples from its
    start sample to its end sample: at least five seconds of audio, and
    at most [windowSize] seconds and one sample. *)
Theorem estimator_input_size (data : list R)
    (sampleRate duration windowSize t : R) :
  0 < sampleRate -> 0 <= t -> 0 <= windowSize ->
  INR (List.length data) = duration * sampleRate ->
  tooShort sampleRate duration windowSize t = false ->
  let sl := slice data (startSampleOf sampleRate t)
              (endSampleOf sampleRate duration windowSize t) in
  sl = firstn (Z.to_nat (endSampleOf sampleRate duration windowSize t
                         - startSampleOf sampleRate t))
         (skipn (Z.to_nat (startSampleOf sampleRate t)) data)
  /\ 5 * sampleRate <= INR (List.length sl)
  /\ INR (List.length sl) < windowSize * sampleRate + 1.
Proof.
  intros Hsr Ht Hws Hlen Hlong. cbv zeta.
  apply Rltb_false in Hlong.
  set (a := startSampleOf sampleRate t) in *.
  set (b := endSampleOf sampleRate duration windowSize t) in *.
  pose proof (Zfloor_bound (t * sampleRate)) as [Ha1 Ha2].
  pose proof (Zfloor_bound (Rmin (t + windowSize) duration * sampleRate))
    as [Hb1 Hb2].
  change (Zfloor (t * sampleRate)) with a in Ha1, Ha2.
  change (Zfloor (Rmin (t + windowSize) duration * sampleRate))
    with b in Hb1, Hb2.
  assert (Ha0 : (0 <= a)%Z).
  { apply Zfloor_lub. cbn [IZR]. apply Rmult_le_pos; lra. }
  assert (Hbl : (b <= Z.of_nat (List.length data))%Z).
  { rewrite <- (ZfloorZ (Z.of_nat (List.length data))).
    apply Zfloor_le. rewrite <- INR_IZR_INZ, Hlen.
    apply Rmult_le_compat_r; [lra | apply Rmin_r]. }
  assert (Hab : (a <= b)%Z).
  { apply le_IZR. rewrite minus_IZR in Hlong. nra. }
  destruct (slice_inside data a b) as [E L]; [lia | exact Hbl |].
  split; [exact E |]. rewrite L.
  rewrite INR_IZR_INZ, Z2Nat.id, minus_IZR by lia.
  rewrite minus_IZR in Hlong. split; [lra |].
  assert (Hmin : Rmin (t + windowSize) duration * sampleRate
                 <= (t + windowSize) * sampleRate)
    by (apply Rmult_le_compat_r; [lra | apply Rmin_l]).
  lra.
Qed.

Lemma estimator_input_size_witness :
  5 * 44100
  <= INR (List.length
            (slice Examples.silence60 (startSampleOf 44100 0)
               (endSampleOf 44100 60 30 0))).
Proof.
  destruct (estimator_input_size Examples.silence60 44100 60 30 0)
    as (_ & H & _); [lra | lra | lra | | | exact H].
  - unfold Examples.silence60. rewrite repeat_length.
    rewrite INR_IZR_INZ, Z2Nat.id by lia. lra.
  - exact tooShort_60_first.
Defined.

(** With a positive sample rate the loop body is a conditional append of
    the window's own estimate. *)
Lemma windowStep_fresh (data : list R) (sampleRate duration windowSize t : R)
    (points : list BpmPoint) :
  0 < sampleRate ->
  windowStep detectBpmInChunk data sampleRate duration windowSize points t
  = points
    ++ (if tooShort sampleRate duration windowSize t then []
        else [mkBpmPoint t
                (Timeline.estimateAt data sampleRate duration windowSize t)]).
Proof.
  intro Hsr. unfold windowStep, Timeline.estimateAt.
  destruct (tooShort sampleRate duration windowSize t);
    [now rewrite app_nil_r |].
  cbv zeta.
  destruct (detectBpmInChunk_total
              (slice data (startSampleOf sampleRate t)
                 (endSampleOf sampleRate duration windowSize t))
              sampleRate Hsr) as (b & -> & _ & Htruthy).
  now apply pushPoint_truthy.
Qed.

Lemma fold_windowStep_fresh (data : list R)
    (sampleRate duration windowSize : R) (starts : list R) :
  0 < sampleRate ->
  forall points,
    fold_left
      (windowStep detectBpmInChunk data sampleRate duration windowSize)
      starts points
    = points
      ++ map (fun t => mkBpmPoint t
                (Timeline.estimateAt data sampleRate duration windowSize t))
           (filter (fun t => negb (tooShort sampleRate duration windowSize t))
              starts).
Proof.
  intro Hsr. induction starts as [| t starts IH]; intro points;
    cbn [fold_left filter map].
  - now rewrite app_nil_r.
  - rewrite IH, windowStep_fresh by exact Hsr.
    destruct (tooShort sampleRate duration windowSize t); cbn [negb map].
    + now rewrite app_nil_r.
    + now rewrite <- app_assoc.
Qed.

(** X7.  For a positive sample rate and an interval that is not negative,
    the timeline is exactly one point per multiple of the step below the
    duration whose window is long enough, each carrying the estimate of its
    own window; so every point lies at a multiple of the step in
    [0, duration), and there are at most as many points as multiples. *)
Theorem timeline_is_fresh_points (data : list R)
    (sampleRate duration interval : R) :
  0 < sampleRate -> 0 <= interval ->
  let step := stepOf interval in
  analyzeBpmFromData (S (Design.windowCount duration step)) data sampleRate
    duration interval
  = Some (Timeline.freshPoints data sampleRate duration interval)
  /\ Forall (fun p => 0 <= time p < duration
                      /\ exists n : nat, time p = INR n * step)
       (Timeline.freshPoints data sampleRate duration interval)
  /\ (List.length (Timeline.freshPoints data sampleRate duration interval)
      <= Design.windowCount duration step)%nat.
Proof.
  intros Hsr Hint. cbv zeta.
  pose proof (stepOf_pos interval Hint) as Hstep.
  split; [| split].
  - unfold analyzeBpmFromData.
    rewrite analyzeWith_terminates by exact Hint.
    rewrite fold_windowStep_fresh by exact Hsr. reflexivity.
  - unfold Timeline.freshPoints. cbv zeta.
    apply Forall_map, Forall_forall. intros t Ht. cbn [time].
    apply filter_In in Ht. destruct Ht as [Ht _].
    apply (windowStarts_In duration (stepOf interval) t Hstep) in Ht.
    destruct Ht as (n & -> & Hlt). split; [| now exists n].
    split; [| exact Hlt]. apply Rmult_le_pos; [apply pos_INR | lra].
  - unfold Timeline.freshPoints. cbv zeta. rewrite length_map.
    eapply Nat.le_trans; [apply filter_length_le |].
    unfold Design.windowStarts. now rewrite length_map, length_seq.
Qed.

Lemma timeline_is_fresh_points_witness :
  analyzeBpmFromData (S (Design.windowCount 60 (stepOf 0)))
    Examples.silence60 44100 60 0
  = Some (Timeline.freshPoints Examples.silence60 44100 60 0).
Proof.
  destruct (timeline_is_fresh_points Examples.silence60 44100 60 0)
    as (H & _); [lra | lra | exact H].
Defined.

End WindowFacts.

(** ** Routing through the audio graph *)

Section RoutingFacts.

Import App.

Lemma keepsRouting_refl (diff : bool) (d : Deck) :
  Routing.keepsRouting diff d d.
Proof. unfold Routing.keepsRouting. auto 10. Qed.

Lemma keepsRouting_trans (diff : bool) (d1 d2 d3 : Deck) :
  Routing.keepsRouting diff d1 d2 -> Routing.keepsRouting diff d2 d3 ->
  Routing.keepsRouting diff d1 d3.
Proof.
  unfold Routing.keepsRouting.
  intros (M1 & C1 & T1 & D1 & G1 & N1) (M2 & C2 & T2 & D2 & G2 & N2).
  repeat split; try congruence; auto.
Qed.

Lemma withVolume_keeps (diff : bool) (v : R) (d : Deck) :
  Routing.keepsRouting diff d (withVolume d v).
Proof. unfold Routing.keepsRouting. cbn. auto 10. Qed.

(** [applyVolumeAndPhase] attaches a graph only when forced or inverting,
    and never detaches one. *)
Lemma applyToDeck_keeps (diff : bool) (vol phase : R) (d : Deck) :
  (diff = false -> phase <> -1) ->
  Routing.keepsRouting diff d (applyToDeck vol phase diff d).
Proof.
  intro Hphase. unfold applyToDeck.
  destruct (media d); cbn [negb]; [| apply keepsRouting_refl].
  destruct (audioGraph d) as [g |] eqn:Eg.
  - rewrite andb_false_r, Eg. unfold Routing.keepsRouting. cbn.
    repeat split; congruence.
  - rewrite andb_true_r.
    destruct diff.
    + cbn [orb]. destruct (graphCreatable d) eqn:Ec.
      * unfold Routing.keepsRouting. cbn. repeat split; congruence.
      * rewrite Eg. unfold Routing.keepsRouting. cbn.
        repeat split; congruence.
    + cbn [orb]. rewrite (proj2 (Reqb_false _ _)) by auto.
      rewrite Eg. unfold Routing.keepsRouting. cbn.
      repeat split; congruence.
Qed.

Lemma keepsDecks_refl (diff : bool) (s : AppState) :
  Routing.keepsDecks diff s s.
Proof. intros q d H. exists d. split; [exact H | apply keepsRouting_refl]. Qed.

Lemma keepsDecks_trans (diff : bool) (s1 s2 s3 : AppState) :
  Routing.keepsDecks diff s1 s2 -> Routing.keepsDecks diff s2 s3 ->
  Routing.keepsDecks diff s1 s3.
Proof.
  intros H12 H23 q d H. destruct (H12 q d H) as (d2 & H2 & K2).
  destruct (H23 q d2 H2) as (d3 & H3 & K3).
  exists d3. split; [exact H3 | now apply (keepsRouting_trans diff d d2)].
Qed.

Lemma onDeck_keepsDecks (diff : bool) (p : Ptr) (f : Deck -> Deck)
    (s : AppState) :
  (forall d, Routing.keepsRouting diff d (f d)) ->
  Routing.keepsDecks diff s (onDeck p f s).
Proof.
  intros Hf q d H. destruct (Nat.eq_dec q p) as [-> | Hne].
  - exists (f d). split; [now apply heap_onDeck_same | apply Hf].
  - exists d. split; [now rewrite heap_onDeck_other | apply keepsRouting_refl].
Qed.

Lemma volumeEffect_keepsDecks (s : AppState) :
  Routing.keepsDecks (isDiffMode s) s (volumeEffect s).
Proof.
  unfold volumeEffect. destruct (activeTab s).
  - assert (Hphase : isDiffMode s = false ->
              dgPhase (fst (composeGainPhase s)) <> -1
              /\ dgPhase (snd (composeGainPhase s)) <> -1).
    { intro H. rewrite (composeGainPhase_normal s H). cbn. split; lra. }
    destruct (composeGainPhase s) as [a b]. cbn [fst snd] in Hphase.
    assert (Hset : forall ws v st,
              Routing.keepsDecks (isDiffMode s) st
                (setVolumeIfPresent ws v st)).
    { intros [p |] v st; cbn [setVolumeIfPresent];
        [| apply keepsDecks_refl].
      apply onDeck_keepsDecks. intro d. apply withVolume_keeps. }
    assert (Happ : forall ws v ph st,
              (isDiffMode s = false -> ph <> -1) ->
              Routing.keepsDecks (isDiffMode s) st
                (applyVolumeAndPhase ws v ph (isDiffMode s) st)).
    { intros [p |] v ph st Hph; cbn [applyVolumeAndPhase];
        [| apply keepsDecks_refl].
      apply onDeck_keepsDecks. intro d. now apply applyToDeck_keeps. }
    eapply keepsDecks_trans; [| apply Hset].
    eapply keepsDecks_trans; [| apply Hset].
    eapply keepsDecks_trans; [| apply Happ; intro H; now apply Hphase].
    apply Happ. intro H. now apply Hphase.
  - destruct (wsRefC (refs s)) as [p |]; cbn [setVolumeIfPresent];
      [| apply keepsDecks_refl].
    apply onDeck_keepsDecks. intro d. apply withVolume_keeps.
  - apply keepsDecks_refl.
Qed.

(** X8.  The volume effect never drops a deck and only ever touches its
    volume and gain: position and decoded data stay; a deck routed through
    the audio graph stays routed ("once upgraded, we stay upgraded"), and
    outside differential mode no deck is newly routed. *)
Theorem volume_effect_keeps_routing (s : AppState) (q : Ptr) (d : Deck) :
  heap s q = Some d ->
  exists d',
    heap (volumeEffect s) q = Some d'
    /\ deckTime d' = deckTime d
    /\ decodedData d' = decodedData d
    /\ (audioGraph d <> None -> audioGraph d' <> None)
    /\ (isDiffMode s = false -> audioGraph d = None -> audioGraph d' = None).
Proof.
  intro H. destruct (volumeEffect_keepsDecks s q d H)
    as (d' & H' & (_ & _ & T & D & G & N)).
  exists d'. auto 10.
Qed.

Lemma volume_effect_keeps_routing_witness :
  exists d',
    heap (volumeEffect Examples.fourDecks) 2%nat = Some d'
    /\ audioGraph d' = None.
Proof.
  destruct (volume_effect_keeps_routing Examples.fourDecks 2%nat
              (newDeck None)) as (d' & H & _ & _ & _ & N);
    [reflexivity |].
  exists d'. split; [exact H | apply N; reflexivity].
Defined.

End RoutingFacts.

(** ** Transport *)

Section TransportFacts.

Import App Transport.

(** A method call on a deck leaves everything but the heap. *)
Lemma onDeck_state (p : Ptr) (f : Deck -> Deck) (s : AppState) :
  currentTime (onDeck p f s) = currentTime s
  /\ isPlaying (onDeck p f s) = isPlaying s
  /\ trackA (onDeck p f s) = trackA s
  /\ activeInstances (onDeck p f s) = activeInstances s.
Proof.
  unfold onDeck. destruct (heap s p); cbn; auto 10.
Qed.

(** [forEach] over distinct instances: each instance is called once, an
    object in the list is updated by the method, another one is not. *)
Lemma forEachDeck_spec (effect : Ptr -> Deck -> Deck)
    (calls : Ptr -> list DeckCall) (instances : list Ptr) :
  NoDup instances ->
  forall s cs,
    let r := forEachDeck effect calls instances (s, cs) in
    snd r = cs ++ flat_map calls instances
    /\ (forall p d, In p instances -> heap s p = Some d ->
                    heap (fst r) p = Some (effect p d))
    /\ (forall p, ~ In p instances -> heap (fst r) p = heap s p)
    /\ currentTime (fst r) = currentTime s
    /\ isPlaying (fst r) = isPlaying s
    /\ isSeekingRef (fst r) = isSeekingRef s
    /\ isSyncingRef (fst r) = isSyncingRef s
    /\ timers (fst r) = timers s
    /\ activeTab (fst r) = activeTab s
    /\ trackA (fst r) = trackA s
    /\ refs (fst r) = refs s
    /\ activeInstances (fst r) = activeInstances s.
Proof.
  unfold forEachDeck.
  induction 1 as [| q rest Hq Hnd IH]; intros s cs; cbv zeta.
  - cbn. rewrite app_nil_r. repeat split; auto. intros p d [].
  - cbn [fold_left flat_map fst snd].
    destruct (IH (onDeck q (effect q) s) (cs ++ calls q))
      as (Hc & Hin & Hout & Ht & Hp & Hsk & Hsy & Htm & Htab & Hta & Hr & Ha).
    destruct (onDeck_fields q (effect q) s)
      as (Fr & Ftab & Fsy & Fsk & Ftm & _).
    destruct (onDeck_state q (effect q) s) as (Fct & Fpl & Fta & Fa).
    repeat split; try congruence.
    + rewrite Hc. now rewrite <- app_assoc.
    + intros p d [<- | Hp'] Hd.
      * rewrite Hout by exact Hq. now apply heap_onDeck_same.
      * apply Hin; [exact Hp' |].
        rewrite heap_onDeck_other; [exact Hd |]. intros ->. contradiction.
    + intros p Hp'. rewrite Hout by (intro; apply Hp'; now right).
      apply heap_onDeck_other. intros ->. apply Hp'. now left.
Qed.

(** X10.  Stop rewinds everything: the application is not playing, the
    clock is at 0, every active deck received one [stop] and is at 0. *)
Theorem stop_rewinds (s : AppState) :
  NoDup (activeInstances s) ->
  (forall p, In p (activeInstances s) -> heap s p <> None) ->
  let s' := fst (handleStop s) in
  isPlaying s' = false
  /\ currentTime s' = 0
  /\ snd (handleStop s) = map DoStop (activeInstances s)
  /\ (forall p, In p (activeInstances s) -> getCurrentTime s' p = 0)
  /\ (forall p, ~ In p (activeInstances s) -> heap s' p = heap s p)
  /\ aligned s'.
Proof.
  intros Hnd Hheap. cbv zeta. unfold handleStop.
  destruct (forEachDeck_spec (fun _ d => withTime d 0)
              (fun ws => [DoStop ws])
              (activeInstances s) Hnd (setIsPlaying false s) [])
    as (Hc & Hin & Hout & _ & Hp & _ & _ & _ & _ & _ & _ & Ha).
  destruct (forEachDeck _ _ _ _) as [s1 calls] eqn:E.
  cbn [fst snd] in *.
  assert (Htimes : forall p, In p (activeInstances s) ->
                     getCurrentTime (setCurrentTime 0 s1) p = 0).
  { intros p Hp'. unfold getCurrentTime. cbn.
    destruct (heap s p) as [d |] eqn:Ed; [| now apply Hheap in Hp'].
    now rewrite (Hin p d Hp' Ed). }
  assert (Hcalls : calls = map DoStop (activeInstances s)).
  { rewrite Hc. clear. induction (activeInstances s) as [| q l IH];
      cbn; [| rewrite <- IH]; reflexivity. }
  repeat split; auto.
  intros p Hp'.
  change (activeInstances (setCurrentTime 0 s1))
    with (activeInstances s1) in Hp'.
  rewrite Ha in Hp'. rewrite (Htimes p Hp'). reflexivity.
Qed.

Lemma stop_rewinds_witness :
  currentTime (fst (handleStop Examples.drifted)) = 0
  /\ getCurrentTime (fst (handleStop Examples.drifted)) 2%nat = 0.
Proof.
  destruct (stop_rewinds Examples.drifted) as (_ & H0 & _ & Ht & _).
  - repeat constructor; cbn; intuition lia.
  - intros p Hp. cbn in Hp.
    destruct Hp as [<- | [<- | [<- | [<- | []]]]]; discriminate.
  - split; [exact H0 | apply Ht; cbn; auto].
Defined.

(** The effect of [handleSeek], field by field. *)
Lemma handleSeek_spec (getDuration : Ptr -> R) (duration progress : R)
    (s : AppState) :
  NoDup (activeInstances s) ->
  let r := handleSeek getDuration duration progress s in
  isSeekingRef (fst r) = true
  /\ currentTime (fst r) = progress * duration
  /\ timers (fst r) = timers s ++ [(100, ClearSeeking)]
  /\ snd r = map (fun ws => DoSeekTo ws progress) (activeInstances s)
             ++ [DoSetTimeout 100 ClearSeeking]
  /\ (forall p d, In p (activeInstances s) -> heap s p = Some d ->
        heap (fst r) p = Some (withTime d (getDuration p * progress)))
  /\ (forall p, ~ In p (activeInstances s) -> heap (fst r) p = heap s p)
  /\ activeInstances (fst r) = activeInstances s
  /\ isPlaying (fst r) = isPlaying s.
Proof.
  intros Hnd. cbv zeta. unfold handleSeek. cbv zeta.
  destruct (forEachDeck_spec
              (fun ws d => withTime d (getDuration ws * progress))
              (fun ws => [DoSeekTo ws progress])
              (activeInstances s) Hnd
              (setCurrentTime (progress * duration) (setIsSeeking true s)) [])
    as (Hc & Hin & Hout & Ht & Hp & Hsk & _ & Htm & _ & _ & _ & Ha).
  destruct (forEachDeck _ _ _ _) as [s3 calls] eqn:E.
  cbn [fst snd] in *.
  assert (Hcalls : calls = map (fun ws => DoSeekTo ws progress)
                             (activeInstances s)).
  { rewrite Hc. clear. induction (activeInstances s) as [| q l IH];
      cbn; [| rewrite <- IH]; reflexivity. }
  repeat split.
  - exact Hsk.
  - exact Ht.
  - cbn. now rewrite Htm.
  - now rewrite Hcalls.
  - intros p d Hp' Hd. cbn. now apply Hin.
  - intros p Hp'. cbn. now apply Hout.
  - exact Ha.
  - exact Hp.
Qed.

(** X11.  A seek raises the seeking guard, moves the clock to
    [progress * duration], sends one [seekTo (progress)] to every active
    deck, which puts the deck at its own duration times [progress], and
    schedules the release of the guard after 100 ms.  Until that timer
    runs every time update is dropped; a deck as long as the application's
    duration ends exactly at the clock. *)
Theorem seek_guards_time_updates (getDuration : Ptr -> R)
    (duration progress : R) (s : AppState) :
  NoDup (activeInstances s) ->
  (forall p, In p (activeInstances s) -> heap s p <> None) ->
  let r := handleSeek getDuration duration progress s in
  isSeekingRef (fst r) = true
  /\ currentTime (fst r) = progress * duration
  /\ snd r = map (fun ws => DoSeekTo ws progress) (activeInstances s)
             ++ [DoSetTimeout 100 ClearSeeking]
  /\ timers (fst r) = timers s ++ [(100, ClearSeeking)]
  /\ (forall p, In p (activeInstances s) ->
        getCurrentTime (fst r) p = getDuration p * progress
        /\ (getDuration p = duration ->
            getCurrentTime (fst r) p = currentTime (fst r)))
  /\ (forall time sourceId,
        handleTimeUpdate time sourceId (fst r) = (fst r, []))
  /\ isSeekingRef (runTimer ClearSeeking (fst r)) = false.
Proof.
  intros Hnd Hheap. cbv zeta.
  destruct (handleSeek_spec getDuration duration progress s Hnd)
    as (Hsk & Ht & Htm & Hc & Hin & _).
  repeat split; auto.
  - unfold getCurrentTime.
    destruct (heap s p) as [d |] eqn:Ed; [| now apply Hheap in H].
    now rewrite (Hin p d H Ed).
  - intro Hd. rewrite Ht. unfold getCurrentTime.
    destruct (heap s p) as [d |] eqn:Ed; [| now apply Hheap in H].
    rewrite (Hin p d H Ed). cbn. rewrite Hd. lra.
  - intros time sourceId. apply handleTimeUpdate_guarded. now left.
Qed.

Lemma seek_guards_time_updates_witness :
  handleTimeUpdate 7 A
    (fst (handleSeek (fun _ => 60) 60 (1 / 2) Examples.drifted))
  = (fst (handleSeek (fun _ => 60) 60 (1 / 2) Examples.drifted), []).
Proof.
  destruct (seek_guards_time_updates (fun _ => 60) 60 (1 / 2)
              Examples.drifted) as (_ & _ & _ & _ & _ & H & _).
  - repeat constructor; cbn; intuition lia.
  - intros p Hp. cbn in Hp.
    destruct Hp as [<- | [<- | [<- | [<- | []]]]]; discriminate.
  - apply H.
Defined.

(** What [forEach] leaves and the calls it makes, whatever the list. *)
Lemma forEachDeck_fields (effect : Ptr -> Deck -> Deck)
    (calls : Ptr -> list DeckCall) (instances : list Ptr) :
  forall s cs,
    let r := forEachDeck effect calls instances (s, cs) in
    snd r = cs ++ flat_map calls instances
    /\ currentTime (fst r) = currentTime s
    /\ isSeekingRef (fst r) = isSeekingRef s
    /\ timers (fst r) = timers s.
Proof.
  unfold forEachDeck.
  induction instances as [| q rest IH]; intros s cs; cbv zeta.
  - cbn. rewrite app_nil_r. auto.
  - cbn [fold_left flat_map fst snd].
    destruct (IH (onDeck q (effect q) s) (cs ++ calls q))
      as (Hc & Ht & Hsk & Htm).
    destruct (onDeck_fields q (effect q) s) as (_ & _ & _ & Fsk & Ftm & _).
    destruct (onDeck_state q (effect q) s) as (Fct & _).
    repeat split; try congruence.
    rewrite Hc. now rewrite <- app_assoc.
Qed.

Lemma handleSeek_fields (getDuration : Ptr -> R) (duration progress : R)
    (s : AppState) :
  let r := handleSeek getDuration duration progress s in
  isSeekingRef (fst r) = true
  /\ currentTime (fst r) = progress * duration
  /\ snd r = map (fun ws => DoSeekTo ws progress) (activeInstances s)
             ++ [DoSetTimeout 100 ClearSeeking].
Proof.
  cbv zeta. unfold handleSeek. cbv zeta.
  destruct (forEachDeck_fields
              (fun ws d => withTime d (getDuration ws * progress))
              (fun ws => [DoSeekTo ws progress]) (activeInstances s)
              (setCurrentTime (progress * duration) (setIsSeeking true s)) [])
    as (Hc & Ht & Hsk & _).
  destruct (forEachDeck _ _ _ _) as [s3 calls] eqn:E.
  cbn [fst snd] in *. subst calls. repeat split; auto.
Qed.




(** The points of a timeline lie inside the track. *)
Lemma freshPoints_in_track (data : list R)
    (sampleRate duration interval : R) (p : Bpm.BpmPoint) :
  0 <= interval ->
  In p (Timeline.freshPoints data sampleRate duration interval) ->
  0 <= Bpm.time p < duration.
Proof.
  intros Hint Hp. pose proof (stepOf_pos interval Hint) as Hstep.
  unfold Timeline.freshPoints in Hp. cbv zeta in Hp.
  apply in_map_iff in Hp. destruct Hp as (t & <- & Ht). cbn [Bpm.time].
  apply filter_In in Ht. destruct Ht as [Ht _].
  apply (windowStarts_In duration (Bpm.stepOf interval) t Hstep) in Ht.
  destruct Ht as (n & -> & Hlt). split; [| exact Hlt].
  apply Rmult_le_pos; [apply pos_INR | lra].
Qed.

(** X13.  Clicking a row of the tempo log seeks inside the track: for a
    point of a timeline computed over the track's duration, the progress
    sent to every active deck, [time / duration], is in [0, 1), and the
    clock is set to that progress times the duration, which is in
    [0, duration). *)
Theorem bpm_click_seeks_inside_track (getDuration : Ptr -> R)
    (data : list R) (sampleRate duration interval : R) (fuel : nat)
    (points : list Bpm.BpmPoint) (p : Bpm.BpmPoint) (s : AppState) :
  0 < sampleRate -> 0 <= interval ->
  Bpm.analyzeBpmFromData fuel data sampleRate duration interval = Some points ->
  In p points ->
  let progress := Bpm.time p / duration in
  let r := handleBpmClick getDuration duration (Bpm.time p) s in
  0 <= progress < 1
  /\ isSeekingRef (fst r) = true
  /\ snd r = map (fun ws => DoSeekTo ws progress) (activeInstances s)
             ++ [DoSetTimeout 100 ClearSeeking]
  /\ currentTime (fst r) = progress * duration
  /\ 0 <= currentTime (fst r) < duration.
Proof.
  intros Hsr Hint Hrun Hp. cbv zeta.
  assert (Hfresh : points
                   = Timeline.freshPoints data sampleRate duration interval).
  { pose proof (analyzeWith_terminates Bpm.detectBpmInChunk data sampleRate
                  duration interval Hint) as Hfull.
    unfold Bpm.analyzeBpmFromData, Bpm.analyzeWith in Hrun, Hfull.
    cbv zeta in Hrun, Hfull.
    apply (analyzeLoop_fuel_mono _ _ _ _ _
             (S (Design.windowCount duration (Bpm.stepOf interval)))) in Hrun.
    apply (analyzeLoop_fuel_mono _ _ _ _ _ fuel) in Hfull.
    rewrite Nat.add_comm, Hrun in Hfull. injection Hfull as ->.
    now rewrite fold_windowStep_fresh by exact Hsr. }
  subst points.
  destruct (freshPoints_in_track data sampleRate duration interval p Hint Hp)
    as [Ht0 Ht1].
  assert (Hpos : 0 < duration) by lra.
  assert (Hprog : 0 <= Bpm.time p / duration < 1).
  { split.
    - apply Rmult_le_pos; [exact Ht0 |]. left. now apply Rinv_0_lt_compat.
    - apply (Rmult_lt_reg_r duration); [exact Hpos |].
      unfold Rdiv. rewrite Rmult_assoc, Rinv_l by lra. lra. }
  unfold handleBpmClick.
  rewrite (proj2 (Reqb_false duration 0)) by lra. cbv zeta.
  destruct (handleSeek_fields getDuration duration (Bpm.time p / duration) s)
    as (Hsk & Ht & Hc).
  split; [exact Hprog |]. split; [exact Hsk |]. split; [exact Hc |].
  split; [exact Ht |]. rewrite Ht. split; nra.
Qed.

Lemma bpm_click_seeks_inside_track_witness :
  0 <= currentTime
         (fst (handleBpmClick (fun _ => 60) 60 (0 + 30) Examples.drifted))
  < 60.
Proof.
  destruct (bpm_click_seeks_inside_track (fun _ => 60) Examples.silence60
              44100 60 0 3
              [Bpm.mkBpmPoint 0 190; Bpm.mkBpmPoint (0 + 30) 190]
              (Bpm.mkBpmPoint (0 + 30) 190)
              Examples.drifted) as (_ & _ & _ & _ & H);
    [lra | lra | | | exact H].
  - exact analyze_silence60.
  - right. now left.
Defined.

End TransportFacts.

(** ** The ruler *)

Section RulerFacts.

Import App Transport.





End RulerFacts.

(** ** Time formatting *)

Section FormatFacts.

Lemma truncate_nonneg (x : R) : 0 <= x -> Format.truncate x = Zfloor x.
Proof.
  intro H. unfold Format.truncate.
  now rewrite (proj2 (Rltb_false x 0)) by lra.
Qed.

Lemma jsRem_nonneg (x y : R) :
  0 <= x -> 0 < y ->
  Format.jsRem x y = x - y * IZR (Zfloor (x / y))
  /\ 0 <= Format.jsRem x y < y.
Proof.
  intros Hx Hy. unfold Format.jsRem.
  assert (Hq : 0 <= x / y).
  { apply Rmult_le_pos; [exact Hx |]. left. now apply Rinv_0_lt_compat. }
  rewrite truncate_nonneg by exact Hq. split; [reflexivity |].
  pose proof (Zfloor_bound (x / y)) as [Hlo Hhi].
  assert (Hxy : x = x / y * y) by (field; lra).
  split; nra.
Qed.

(** X15.  For a time that is not negative the fields printed by the two
    [formatTime] functions decompose it: the minutes are not negative, the
    seconds are in [0, 60), minutes and seconds make up the whole seconds
    of the time, and the hundredths of the mixer are in [0, 100) and give
    the time to within a hundredth of a second. *)
Theorem formatTime_decomposes (seconds : R) :
  0 <= seconds ->
  let '(m, s) := Format.formatTime seconds in
  let '(m', s', ms) := Format.formatTimeMixer seconds in
  (0 <= m)%Z /\ (0 <= s < 60)%Z /\ (60 * m + s)%Z = Zfloor seconds
  /\ m' = m /\ s' = s /\ (0 <= ms < 100)%Z
  /\ IZR (60 * m + s) + IZR ms / 100 <= seconds
     < IZR (60 * m + s) + (IZR ms + 1) / 100.
Proof.
  intro Hs. unfold Format.formatTime, Format.formatTimeMixer. cbv zeta.
  destruct (jsRem_nonneg seconds 60 Hs) as [E60 B60]; [lra |].
  destruct (jsRem_nonneg seconds 1 Hs) as [E1 B1]; [lra |].
  rewrite E60, E1.
  set (m := Zfloor (seconds / 60)).
  pose proof (Zfloor_bound (seconds / 60)) as [Hm1 Hm2]. fold m in Hm1, Hm2.
  replace (seconds / 1) with seconds by field.
  set (w := Zfloor seconds).
  pose proof (Zfloor_bound seconds) as [Hw1 Hw2]. fold w in Hw1, Hw2.
  assert (Hm0 : (0 <= m)%Z) by (apply Zfloor_lub; cbn [IZR]; lra).
  assert (Hsec : Zfloor (seconds - 60 * IZR m) = (w - 60 * m)%Z).
  { apply Zfloor_eq. rewrite minus_IZR, mult_IZR. lra. }
  rewrite Hsec.
  assert (Hwm : (60 * m <= w < 60 * m + 60)%Z).
  { split.
    - apply Zfloor_lub. rewrite mult_IZR. lra.
    - apply lt_IZR. rewrite plus_IZR, mult_IZR. lra. }
  set (ms := Zfloor ((seconds - 1 * IZR w) * 100)).
  pose proof (Zfloor_bound ((seconds - 1 * IZR w) * 100)) as [Hc1 Hc2].
  fold ms in Hc1, Hc2.
  assert (Hms : (0 <= ms < 100)%Z).
  { split.
    - apply Zfloor_lub. cbn [IZR]. lra.
    - apply lt_IZR. lra. }
  replace (60 * m + (w - 60 * m))%Z with w by lia.
  repeat split; try lia; try reflexivity; lra.
Qed.

Lemma formatTime_decomposes_witness :
  let '(m, s) := Format.formatTime 125 in
  (60 * m + s)%Z = Zfloor 125.
Proof.
  pose proof (formatTime_decomposes 125) as H.
  destruct (Format.formatTime 125) as [m s].
  destruct (Format.formatTimeMixer 125) as [[m' s'] ms].
  destruct H as (_ & _ & H & _); [lra | exact H].
Defined.

End FormatFacts.

(** ** The tempo log *)

Section BpmLogFacts.

Import Bpm App Transport.

Lemma findIndexFrom_first {X : Type} (pred : X -> nat -> bool) (l : list X) :
  forall (i0 k : nat) (x : X),
    nth_error l k = Some x ->
    pred x (i0 + k)%nat = true ->
    (forall j y, (j < k)%nat -> nth_error l j = Some y ->
                 pred y (i0 + j)%nat = false) ->
    BpmLog.findIndexFrom pred i0 l = Some (i0 + k)%nat.
Proof.
  induction l as [| a l IH]; intros i0 k x Hk Hx Hbefore.
  - destruct k; discriminate.
  - destruct k as [| k]; cbn in Hk.
    + injection Hk as ->. cbn. rewrite Nat.add_0_r in Hx |- *.
      now rewrite Hx.
    + assert (Ha : pred a i0 = false).
      { specialize (Hbefore 0%nat a). rewrite Nat.add_0_r in Hbefore.
        apply Hbefore; [lia | reflexivity]. }
      cbn. rewrite Ha.
      replace (i0 + S k)%nat with (S i0 + k)%nat in * by lia.
      apply (IH (S i0) k x Hk Hx).
      intros j y Hj Hy.
      replace (S i0 + j)%nat with (i0 + S j)%nat by lia.
      apply Hbefore; [lia | exact Hy].
Qed.

(** In a strictly increasing timeline a later row has a later time. *)
Lemma increasing_rows (data : list BpmPoint) :
  Design.strictlyIncreasing data ->
  forall j k p q, (j < k)%nat ->
    nth_error data j = Some p -> nth_error data k = Some q ->
    time p < time q.
Proof.
  unfold Design.strictlyIncreasing.
  induction data as [| a data IH]; intros Hs j k p q Hjk Hp Hq.
  - destruct j; discriminate.
  - cbn in Hs. apply StronglySorted_inv in Hs. destruct Hs as [Hs Hall].
    destruct k as [| k]; [lia |]. cbn in Hq.
    destruct j as [| j]; cbn in Hp.
    + injection Hp as ->. rewrite Forall_forall in Hall. apply Hall.
      apply in_map. eapply nth_error_In. exact Hq.
    + apply (IH Hs j k); [lia | exact Hp | exact Hq].
Qed.

Lemma effectiveInterval_pos (interval : R) (data : list BpmPoint) :
  Design.strictlyIncreasing data ->
  0 < BpmLog.effectiveInterval interval data.
Proof.
  intro Hs. unfold BpmLog.effectiveInterval.
  destruct (Rgtb interval 0) eqn:Ei; [now apply Rgtb_true in Ei |].
  destruct (Nat.ltb_spec 1 (List.length data)) as [Hlen | Hlen]; [| lra].
  destruct data as [| a [| b data]]; cbn in Hlen; try lia. cbn [nth].
  pose proof (increasing_rows _ Hs 0%nat 1%nat a b) as H. cbn in H.
  assert (time a < time b) by (apply H; [lia | reflexivity | reflexivity]).
  lra.
Qed.

Lemma findIndexFrom_Some {X : Type} (pred : X -> nat -> bool) (l : list X) :
  forall (i0 k : nat),
    BpmLog.findIndexFrom pred i0 l = Some k ->
    exists j x, k = (i0 + j)%nat /\ nth_error l j = Some x
                /\ pred x k = true
                /\ (forall j' y, (j' < j)%nat -> nth_error l j' = Some y ->
                                 pred y (i0 + j')%nat = false).
Proof.
  induction l as [| a l IH]; intros i0 k H; cbn in H; [discriminate |].
  destruct (pred a i0) eqn:Ea.
  - injection H as <-. exists 0%nat, a. rewrite Nat.add_0_r.
    repeat split; auto. intros j' y Hj. lia.
  - destruct (IH (S i0) k H) as (j & x & -> & Hx & Hpx & Hbefore).
    exists (S j), x. replace (i0 + S j)%nat with (S i0 + j)%nat by lia.
    repeat split; auto.
    intros [| j'] y Hj Hy; cbn in Hy.
    + injection Hy as <-. now rewrite Nat.add_0_r.
    + replace (i0 + S j')%nat with (S i0 + j')%nat by lia.
      apply Hbefore; [lia | exact Hy].
Qed.

Lemma isActiveRow_spec (data : list BpmPoint) (interval t : R)
    (p : BpmPoint) (i : nat) :
  BpmLog.isActiveRow data interval t p i = true
  <-> time p <= t < BpmLog.rowEnd data interval p i.
Proof.
  unfold BpmLog.isActiveRow, BpmLog.rowEnd. cbv zeta.
  rewrite andb_true_iff, negb_true_iff, Rltb_false, Rltb_true. tauto.
Qed.

(** X16.  In a strictly increasing timeline the highlighted row is the row
    that covers the clock: [findIndex] returns [i] exactly when the clock
    is at or after the time of row [i] and before its end (the time of the
    next row, or the effective interval after the last row).  So a clock
    at a row's own time highlights that row, and a clock anywhere below
    it, however close, highlights the row before. *)
Theorem highlighted_row_covers_clock (data : list BpmPoint)
    (interval currentTime : R) (i : nat) :
  Design.strictlyIncreasing data ->
  (BpmLog.activeIndex data interval currentTime = Some i
   <-> exists p, nth_error data i = Some p
                 /\ time p <= currentTime
                    < BpmLog.rowEnd data interval p i)
  /\ (forall p, nth_error data i = Some p ->
                BpmLog.activeIndex data interval (time p) = Some i)
  /\ (forall p q, nth_error data i = Some p ->
                  nth_error data (S i) = Some q ->
                  time p <= currentTime < time q ->
                  BpmLog.activeIndex data interval currentTime = Some i).
Proof.
  intro Hs.
  assert (Hcover : forall t k p,
            nth_error data k = Some p ->
            time p <= t < BpmLog.rowEnd data interval p k ->
            BpmLog.activeIndex data interval t = Some k).
  { intros t k p Hp Ht. unfold BpmLog.activeIndex.
    apply (findIndexFrom_first _ data 0%nat k p Hp).
    - cbn [Nat.add]. now apply isActiveRow_spec.
    - intros j y Hj Hy. cbn [Nat.add].
      destruct (BpmLog.isActiveRow data interval t y j) eqn:E;
        [| reflexivity].
      apply isActiveRow_spec in E. unfold BpmLog.rowEnd in E.
      destruct (nth_error data (S j)) as [q |] eqn:Eq.
      + destruct (Nat.eq_dec (S j) k) as [Ek | Hne].
        * subst k. rewrite Hp in Eq. injection Eq as ->. lra.
        * assert (time q < time p)
            by (apply (increasing_rows data Hs (S j) k q p); auto; lia).
          lra.
      + apply nth_error_None in Eq.
        assert (k < List.length data)%nat
          by (apply nth_error_Some; congruence).
        lia. }
  split; [split |]; [| | split].
  - intro H. unfold BpmLog.activeIndex in H.
    apply findIndexFrom_Some in H.
    destruct H as (j & x & -> & Hx & Hpx & _). cbn [Nat.add] in *.
    exists x. split; [exact Hx | now apply isActiveRow_spec].
  - intros (p & Hp & Ht). now apply (Hcover currentTime i p).
  - intros p Hp. apply (Hcover (time p) i p Hp). split; [lra |].
    unfold BpmLog.rowEnd.
    destruct (nth_error data (S i)) as [q |] eqn:Eq.
    + apply (increasing_rows data Hs i (S i) p q); auto.
    + pose proof (effectiveInterval_pos interval data Hs). lra.
  - intros p q Hp Hq Ht. apply (Hcover currentTime i p Hp).
    unfold BpmLog.rowEnd. now rewrite Hq.
Qed.

Lemma highlighted_row_covers_clock_witness :
  BpmLog.activeIndex [mkBpmPoint 0 190; mkBpmPoint (0 + 30) 190] 0
    (29999 / 1000)
  = Some 0%nat.
Proof.
  destruct (highlighted_row_covers_clock
              [mkBpmPoint 0 190; mkBpmPoint (0 + 30) 190] 0 (29999 / 1000) 0)
    as (_ & _ & H).
  - unfold Design.strictlyIncreasing. cbn. repeat constructor. lra.
  - apply (H (mkBpmPoint 0 190) (mkBpmPoint (0 + 30) 190));
      [reflexivity | reflexivity | cbn; lra].
Defined.

Lemma fold_bpm_bounds (lo hi : R) (data : list BpmPoint) :
  Forall (fun p => lo <= bpm p <= hi) data ->
  forall acc,
    acc + INR (List.length data) * lo
    <= fold_left (fun a p => a + bpm p) data acc
    <= acc + INR (List.length data) * hi.
Proof.
  induction 1 as [| p data Hp _ IH]; intro acc.
  - cbn. lra.
  - cbn [fold_left]. specialize (IH (acc + bpm p)).
    change (List.length (p :: data)) with (S (List.length data)).
    rewrite S_INR. lra.
Qed.

(** X17.  The average the log prints under a timeline of the sequencer is
    within the estimator's range, 55 to 190 BPM; there is no average
    exactly when the timeline is empty. *)
Theorem average_of_timeline (fuel : nat) (data : list R)
    (sampleRate duration interval : R) (points : list BpmPoint) :
  analyzeBpmFromData fuel data sampleRate duration interval = Some points ->
  (BpmLog.averageBpm points = None <-> points = [])
  /\ (forall a, BpmLog.averageBpm points = Some a -> 55 <= a <= 190).
Proof.
  intro Hrun.
  destruct (analyzeWith_timeline detectBpmInChunk data sampleRate duration
              detectBpmInChunk_range fuel interval points Hrun) as [_ Hr].
  split.
  - destruct points; cbn; split; intro H; try discriminate; reflexivity.
  - intros a Ha. destruct points as [| p points]; [discriminate |].
    unfold BpmLog.averageBpm in Ha. cbv zeta in Ha.
    pose proof (fold_bpm_bounds 55 190 (p :: points) Hr 0) as [Hlo Hhi].
    set (n := INR (List.length (p :: points))) in *.
    set (sum := fold_left (fun a p => a + bpm p) (p :: points) 0) in *.
    assert (Ea : a = sum / n) by congruence.
    rewrite Ea. clear Ha Ea.
    assert (Hn : 0 < n) by (apply lt_0_INR; cbn; lia).
    split.
    + apply (Rmult_le_reg_r n); [exact Hn |].
      unfold Rdiv. rewrite Rmult_assoc, Rinv_l by lra. lra.
    + apply (Rmult_le_reg_r n); [exact Hn |].
      unfold Rdiv. rewrite Rmult_assoc, Rinv_l by lra. lra.
Qed.

Lemma average_of_timeline_witness :
  match BpmLog.averageBpm [mkBpmPoint 0 190; mkBpmPoint (0 + 30) 190] with
  | Some a => 55 <= a <= 190
  | None => False
  end.
Proof.
  destruct (average_of_timeline 3 Examples.silence60 44100 60 0
              [mkBpmPoint 0 190; mkBpmPoint (0 + 30) 190]
              analyze_silence60) as [_ H].
  apply (H _ eq_refl).
Defined.

End BpmLogFacts.

(** ** The resize handlers *)

Section LayoutFacts.

Import Layout.






(** X19.  The height of the analyzer's waveform after a move of its
    handle is at least 150 pixels whatever the container; it leaves the
    100 pixels of the log only when the container is at least 250 pixels
    high, and follows the mouse exactly between the two bounds. *)
Theorem analyzer_resize_bounds (startY startHeight clientHeight clientY
    current : R) :
  let h := analyzerMouseMove startY startHeight (Some clientHeight) clientY
             current in
  150 <= h
  /\ (250 <= clientHeight -> h <= clientHeight - 100)
  /\ (clientHeight < 250 -> h = 150)
  /\ (150 <= startHeight + (clientY - startY) <= clientHeight - 100 ->
      h = startHeight + (clientY - startY)).
Proof.
  cbv zeta. unfold analyzerMouseMove. cbv zeta.
  set (x := startHeight + (clientY - startY)).
  split; [apply Rmax_l |]. split; [| split].
  - intro H. apply Rmax_lub; [lra | apply Rmin_l].
  - intro H. apply Rmax_left.
    eapply Rle_trans; [apply Rmin_l | lra].
  - intros [H1 H2]. rewrite Rmin_right, Rmax_right by lra. reflexivity.
Qed.

Lemma analyzer_resize_bounds_witness :
  analyzerMouseMove 0 250 (Some 200) 500 250 = 150.
Proof.
  destruct (analyzer_resize_bounds 0 250 200 500 250) as (_ & _ & H & _).
  apply H. lra.
Defined.

End LayoutFacts.

(** ** The tempo analysis of the application *)

Section AnalyzerFacts.

Import AudioAnalysis Bpm Analyzer.

(** The sequencer on a positive rate and an interval that is not negative,
    with the fuel of its windows. *)
Lemma analyzeBpmFromData_fresh (samples : list R)
    (sampleRate duration interval : R) :
  0 < sampleRate -> 0 <= interval ->
  analyzeBpmFromData (S (Design.windowCount duration (stepOf interval)))
    samples sampleRate duration interval
  = Some (Timeline.freshPoints samples sampleRate duration interval).
Proof.
  intros Hsr Hint. unfold analyzeBpmFromData.
  rewrite analyzeWith_terminates by exact Hint.
  now rewrite fold_windowStep_fresh by exact Hsr.
Qed.

(** X20.  With a filtered cache of positive sample rate, every interval
    the selector of the log offers makes the interval change return: the
    state holds the new interval and the timeline of the cached data for
    that interval, and the cache is the one it was. *)
Theorem selector_intervals_analyse
    (filterAudioBuffer : AudioBuffer -> option (list R * R))
    (decodedC : option AudioBuffer) (cache : FilteredAudioCache)
    (st : AnalyzerState) :
  filteredCacheRef st = Some cache ->
  0 < cacheRate cache ->
  Forall (fun opt =>
            handleBpmIntervalChange filterAudioBuffer
              (S (Design.windowCount (cacheDuration cache) (stepOf opt)))
              decodedC opt st
            = Some (mkAnalyzer
                      (Timeline.freshPoints (data cache) (cacheRate cache)
                         (cacheDuration cache) opt)
                      (isAnalyzing st) opt (Some cache)))
         BpmLog.INTERVAL_OPTIONS.
Proof.
  intros Hc Hsr.
  assert (Hopt : forall opt, 0 <= opt ->
            handleBpmIntervalChange filterAudioBuffer
              (S (Design.windowCount (cacheDuration cache) (stepOf opt)))
              decodedC opt st
            = Some (mkAnalyzer
                      (Timeline.freshPoints (data cache) (cacheRate cache)
                         (cacheDuration cache) opt)
                      (isAnalyzing st) opt (Some cache))).
  { intros opt Hopt. unfold handleBpmIntervalChange. cbv zeta.
    rewrite Hc, analyzeBpmFromData_fresh by assumption.
    unfold setBpmData, setBpmInterval. cbn. now rewrite Hc. }
  unfold BpmLog.INTERVAL_OPTIONS.
  repeat (constructor; [apply Hopt; lra |]). constructor.
Qed.

Lemma selector_intervals_analyse_witness :
  Forall (fun opt =>
            handleBpmIntervalChange (fun _ => None)
              (S (Design.windowCount 60 (stepOf opt))) None opt
              (mkAnalyzer [] false 0
                 (Some (mkCache Examples.silence60 44100 60)))
            = Some (mkAnalyzer
                      (Timeline.freshPoints Examples.silence60 44100 60 opt)
                      false opt
                      (Some (mkCache Examples.silence60 44100 60))))
         BpmLog.INTERVAL_OPTIONS.
Proof.
  apply (selector_intervals_analyse (fun _ => None) None
           (mkCache Examples.silence60 44100 60)
           (mkAnalyzer [] false 0
              (Some (mkCache Examples.silence60 44100 60)))).
  - reflexivity.
  - cbn. lra.
Defined.

(** X21.  An interval change that finds no filtered cache analyses the
    decoded buffer with the interval the state held before the change:
    the state then shows the new interval over the timeline of the
    previous one.  The cache is filled, so the same change made once more
    gives the timeline of the new interval. *)
Theorem interval_change_without_cache
    (filterAudioBuffer : AudioBuffer -> option (list R * R))
    (buffer : AudioBuffer) (filtered : list R) (rate newInterval : R)
    (st : AnalyzerState) :
  filteredCacheRef st = None ->
  filterAudioBuffer buffer = Some (filtered, rate) ->
  0 < rate -> 0 <= bpmInterval st -> 0 <= newInterval ->
  let cache := mkCache filtered rate (duration buffer) in
  let st' := mkAnalyzer
               (Timeline.freshPoints filtered rate (duration buffer)
                  (bpmInterval st))
               false newInterval (Some cache) in
  handleBpmIntervalChange filterAudioBuffer
    (S (Design.windowCount (duration buffer) (stepOf (bpmInterval st))))
    (Some buffer) newInterval st
  = Some st'
  /\ handleBpmIntervalChange filterAudioBuffer
       (S (Design.windowCount (duration buffer) (stepOf newInterval)))
       (Some buffer) newInterval st'
     = Some (mkAnalyzer
               (Timeline.freshPoints filtered rate (duration buffer)
                  newInterval)
               false newInterval (Some cache)).
Proof.
  intros Hc Hf Hr Hold Hnew. cbv zeta. split.
  - unfold handleBpmIntervalChange. cbv zeta. rewrite Hc.
    unfold initialTrackAnalysis. cbv zeta. rewrite Hf.
    now rewrite analyzeBpmFromData_fresh by assumption.
  - unfold handleBpmIntervalChange. cbv zeta. cbn [filteredCacheRef].
    cbn [data cacheRate cacheDuration].
    now rewrite analyzeBpmFromData_fresh by assumption.
Qed.

Lemma interval_change_without_cache_witness :
  handleBpmIntervalChange
    (fun b => Some (nth 0 (channelData b) [], sampleRate b))
    (S (Design.windowCount 60 (stepOf 0)))
    (Some (mkAudioBuffer (Z.to_nat 2646000) 44100 60 [Examples.silence60])) 5
    (mkAnalyzer [] false 0 None)
  = Some (mkAnalyzer (Timeline.freshPoints Examples.silence60 44100 60 0)
            false 5 (Some (mkCache Examples.silence60 44100 60))).
Proof.
  destruct (interval_change_without_cache
              (fun b => Some (nth 0 (channelData b) [], sampleRate b))
              (mkAudioBuffer (Z.to_nat 2646000) 44100 60 [Examples.silence60])
              Examples.silence60 44100 5 (mkAnalyzer [] false 0 None))
    as [H _]; try reflexivity; cbn [bpmInterval]; try lra.
  exact H.
Defined.

End AnalyzerFacts.

(** ** The level meter *)

Section MeterFacts.

Import AudioAnalysis Meter.

(** On a window of zeros the accumulators stay at 0. *)
Lemma sumsOf_zeros (ch0 ch1 : list R) :
  Forall Design.isZero ch0 -> Forall Design.isZero ch1 ->
  sumsOf ch0 ch1 = mkSums 0 0 0 0.
Proof.
  intros H0 H1. unfold sumsOf.
  assert (Hstep : forall i,
            sampleStep ch0 ch1 (mkSums 0 0 0 0) i = mkSums 0 0 0 0).
  { intro i. unfold sampleStep. cbv zeta. cbn [sumSqL sumSqR sumProd maxAmp].
    rewrite (nth_all_zero ch0 i H0), (nth_all_zero ch1 i H1).
    rewrite Rabs_R0, (proj2 (Rgtb_false 0 0)) by lra.
    rewrite (proj2 (Rgtb_false 0 0)) by lra.
    f_equal; ring. }
  induction (seq 0 (List.length ch0)) as [| i l IH]; cbn [fold_left];
    [reflexivity |].
  now rewrite Hstep.
Qed.

Lemma dbToY_antitone (height x y : R) :
  16 <= height -> x <= y -> dbToY height y <= dbToY height x.
Proof.
  intros Hh Hxy. unfold dbToY. cbv zeta.
  assert (Hc : Rmax (-60) (Rmin 3 x) <= Rmax (-60) (Rmin 3 y)).
  { apply Rmax_lub; [apply Rmax_l |].
    eapply Rle_trans; [| apply Rmax_r].
    apply Rmin_glb; [apply Rmin_l |].
    eapply Rle_trans; [apply Rmin_r | exact Hxy]. }
  set (cx := Rmax (-60) (Rmin 3 x)) in *.
  set (cy := Rmax (-60) (Rmin 3 y)) in *.
  apply Rmult_le_compat_r; [lra |].
  unfold Rdiv. replace (-60 - 3) with (-63) by lra.
  replace (/ -63) with (- / 63) by (field; lra).
  nra.
Qed.

(** X23.  A window of zeros reads the idle values of the meter, peak -60,
    level -60 and correlation 1, the values of a deck that is not playing
    or has no decoded data.  On a canvas at least 16 pixels high [dbToY]
    puts every level between the top of the meter (reached at +3 dB and
    above) and its bottom (reached at -60 dB and below), a lower level
    never higher up. *)
Theorem meter_idle_and_scale (ch0 ch1 : list R) (height : R) :
  16 <= height ->
  (Forall Design.isZero ch0 -> Forall Design.isZero ch1 ->
   readingOf ch0 ch1 = idleReading)
  /\ (forall buffer t, acquire false buffer t = idleReading)
  /\ (forall t, acquire true None t = idleReading)
  /\ (forall db, 0 <= dbToY height db <= height - 16)
  /\ (forall x y, x <= y -> dbToY height y <= dbToY height x)
  /\ (forall db, 3 <= db -> dbToY height db = 0)
  /\ (forall db, db <= -60 -> dbToY height db = height - 16).
Proof.
  intro Hh. split; [| split; [reflexivity | split; [reflexivity |]]].
  - intros H0 H1. unfold readingOf. cbv zeta.
    rewrite (sumsOf_zeros ch0 ch1 H0 H1).
    cbn [sumSqL sumSqR sumProd maxAmp].
    replace ((0 + 0) / (2 * INR (List.length ch0))) with 0
      by (unfold Rdiv; ring).
    replace (0 * 0) with 0 by ring. rewrite sqrt_0.
    rewrite (proj2 (Rgtb_false 0 0)) by lra.
    rewrite (proj2 (Rgtb_false 0 (1 / 1000000))) by lra.
    reflexivity.
  - split; [| split; [| split]].
    + intro db. unfold dbToY. cbv zeta.
      assert (Hc : -60 <= Rmax (-60) (Rmin 3 db) <= 3).
      { split; [apply Rmax_l |]. apply Rmax_lub; [lra | apply Rmin_l]. }
      set (c := Rmax (-60) (Rmin 3 db)) in *.
      replace ((c - 3) / (-60 - 3)) with ((3 - c) / 63) by (field; lra).
      split; [apply Rmult_le_pos; lra |].
      assert (Hp : (3 - c) / 63 <= 1) by lra.
      nra.
    + intros x y. now apply dbToY_antitone.
    + intros db Hdb. unfold dbToY. cbv zeta.
      rewrite Rmin_left, Rmax_right by lra. unfold Rdiv. ring.
    + intros db Hdb. unfold dbToY. cbv zeta.
      rewrite Rmin_right, Rmax_left by lra. field.
Qed.

Lemma meter_idle_and_scale_witness :
  readingOf [0; 0] [0; 0] = idleReading
  /\ 0 <= dbToY 100 (-14) <= 100 - 16.
Proof.
  destruct (meter_idle_and_scale [0; 0] [0; 0] 100)
    as (H & _ & _ & Hy & _); [lra |].
  split; [| apply Hy].
  apply H; repeat constructor.
Defined.

End MeterFacts.

(** ** The WAV encoder *)

Section WavFacts.

Import AudioAnalysis Wav.

Lemma skipn_zeros (k m : nat) :
  (k <= m)%nat -> skipn k (repeat 0%Z m) = repeat 0%Z (m - k).
Proof.
  intro H. replace m with (k + (m - k))%nat at 1 by lia.
  rewrite repeat_app, skipn_app, repeat_length, Nat.sub_diag.
  rewrite skipn_all2 by (rewrite repeat_length; lia). reflexivity.
Qed.

(** A setter at the end of what has been written so far, in a view that is
    still zero from there on. *)
Lemma store_zeros (pre : list Z) (m p : nat) (bytes : list Z) :
  p = List.length pre -> (List.length bytes <= m)%nat ->
  store (pre ++ repeat 0%Z m) p bytes
  = Some ((pre ++ bytes) ++ repeat 0%Z (m - List.length bytes)).
Proof.
  intros -> Hm. unfold store.
  rewrite length_app, repeat_length.
  destruct (Nat.leb_spec (List.length pre + List.length bytes)
              (List.length pre + m)) as [_ | H]; [| lia].
  rewrite firstn_app, firstn_all, Nat.sub_diag. cbn [firstn].
  rewrite app_nil_r, skipn_app.
  rewrite skipn_all2 by lia.
  replace (List.length pre + List.length bytes - List.length pre)%nat
    with (List.length bytes) by lia.
  rewrite skipn_zeros by exact Hm. cbn [app]. now rewrite <- app_assoc.
Qed.

Lemma forChannels_spec (channels : list (list R)) :
  forall (pre : list Z) (m p off : nat),
    List.length pre = (44 + off)%nat ->
    (2 * List.length channels <= m)%nat ->
    forChannels channels (mkWriter (pre ++ repeat 0%Z m) p off)
    = Some (mkWriter ((pre ++ frameBytes channels p)
                      ++ repeat 0%Z (m - 2 * List.length channels))
              p (off + 2 * List.length channels)).
Proof.
  induction channels as [| ch rest IH]; intros pre m p off Hpre Hm.
  - cbn. rewrite app_nil_r, Nat.sub_0_r, Nat.add_0_r. reflexivity.
  - cbn [forChannels view pos offset]. cbn [List.length] in Hm.
    rewrite store_zeros by (cbn; lia). cbn [bind le16 List.length].
    rewrite IH by (rewrite ?length_app; cbn [List.length le16]; lia).
    unfold frameBytes. cbn [flat_map List.length].
    rewrite <- !app_assoc.
    replace (m - 2 - 2 * List.length rest)%nat
      with (m - 2 * S (List.length rest))%nat by lia.
    replace (off + 2 + 2 * List.length rest)%nat
      with (off + 2 * S (List.length rest))%nat by lia.
    reflexivity.
Qed.

Lemma whileFrames_spec (channels : list (list R)) :
  forall (n : nat) (pre : list Z) (m p off : nat),
    List.length pre = (44 + off)%nat ->
    (2 * List.length channels * n <= m)%nat ->
    whileFrames n channels (mkWriter (pre ++ repeat 0%Z m) p off)
    = Some (mkWriter
              ((pre ++ flat_map (frameBytes channels) (seq p n))
               ++ repeat 0%Z (m - 2 * List.length channels * n))
              (p + n) (off + 2 * List.length channels * n)).
Proof.
  set (c := List.length channels).
  assert (Hfb : forall p, List.length (frameBytes channels p) = (2 * c)%nat).
  { intro p. unfold frameBytes, c. clear.
    induction channels as [| ch rest IH]; cbn; [reflexivity |].
    cbn in IH. rewrite IH. lia. }
  induction n as [| n IH]; intros pre m p off Hpre Hm.
  - cbn. rewrite app_nil_r, Nat.mul_0_r, Nat.sub_0_r, !Nat.add_0_r.
    reflexivity.
  - cbn [whileFrames].
    rewrite forChannels_spec by (fold c; nia). fold c.
    cbn [bind view pos offset].
    rewrite IH by (rewrite ?length_app, ?Hfb; nia).
    cbn [seq flat_map]. rewrite <- !app_assoc.
    replace (m - 2 * c - 2 * c * n)%nat with (m - 2 * c * S n)%nat by nia.
    replace (off + 2 * c + 2 * c * n)%nat with (off + 2 * c * S n)%nat
      by nia.
    replace (p + 1 + n)%nat with (p + S n)%nat by lia.
    now rewrite Nat.add_1_r.
Qed.

Lemma writeHeader_spec (numOfChan total : Z) (rate : R) (k : nat) :
  writeHeader numOfChan total rate (mkWriter (repeat 0%Z (44 + k)) 0 0)
  = Some (mkWriter
            ((le32 0x46464952 ++ le32 (total - 8) ++ le32 0x45564157
              ++ le32 0x20746d66 ++ le32 16 ++ le16 1 ++ le16 numOfChan
              ++ le32 (Format.truncate rate)
              ++ le32 (Format.truncate (rate * 2 * IZR numOfChan))
              ++ le16 (numOfChan * 2) ++ le16 16 ++ le32 0x61746164
              ++ le32 (total - 44))
             ++ repeat 0%Z k) 44 0).
Proof.
  replace (total - 44)%Z with (total - 40 - 4)%Z by lia.
  unfold writeHeader, setUint32, setUint16, store, le32, le16.
  cbn [repeat Nat.add bind view pos offset List.length Nat.leb firstn skipn
       app Z.of_nat Pos.of_succ_nat Pos.succ].
  reflexivity.
Qed.

Lemma frameBytes_length (channels : list (list R)) (frame : nat) :
  List.length (frameBytes channels frame) = (2 * List.length channels)%nat.
Proof.
  unfold frameBytes.
  induction channels as [| ch rest IH]; cbn [flat_map List.length];
    [reflexivity |].
  rewrite length_app, IH. cbn [le16 List.length]. lia.
Qed.

Lemma frames_length (channels : list (list R)) (frames : list nat) :
  List.length (flat_map (frameBytes channels) frames)
  = (2 * List.length channels * List.length frames)%nat.
Proof.
  induction frames as [| f l IH]; cbn [flat_map List.length]; [lia |].
  rewrite length_app, IH, frameBytes_length. nia.
Qed.

Lemma headerOf_length (buffer : AudioBuffer) :
  List.length (headerOf buffer) = 44%nat.
Proof. reflexivity. Qed.

(** The encoder never leaves the view, and what it returns. *)
Lemma audioBufferToWavBytes_closed (buffer : AudioBuffer) :
  audioBufferToWavBytes buffer
  = Some (headerOf buffer
          ++ flat_map (frameBytes (channelData buffer))
               (seq 44 (length buffer - 44))
          ++ repeat 0%Z (2 * numberOfChannels buffer
                         * Nat.min 44 (length buffer))).
Proof.
  unfold audioBufferToWavBytes. cbv zeta.
  set (c := numberOfChannels buffer). set (n := length buffer).
  assert (Htotal : Z.to_nat (Z.of_nat n * Z.of_nat c * 2 + 44)
                   = (44 + 2 * c * n)%nat).
  { rewrite <- Nat2Z.inj_mul.
    change 2%Z with (Z.of_nat 2). rewrite <- Nat2Z.inj_mul.
    change 44%Z with (Z.of_nat 44). rewrite <- Nat2Z.inj_add, Nat2Z.id.
    nia. }
  rewrite Htotal, writeHeader_spec. cbn [bind pos].
  fold (headerOf buffer). fold c.
  rewrite whileFrames_spec;
    [| apply headerOf_length
     | unfold c, numberOfChannels; apply Nat.mul_le_mono_l; lia].
  cbn [bind view]. change (List.length (channelData buffer)) with c.
  rewrite <- app_assoc. do 3 f_equal.
  destruct (Nat.min_spec 44 n) as [[H ->] | [H ->]].
  - assert (Hn : n = (44 + (n - 44))%nat) by lia.
    rewrite Hn at 1. rewrite Nat.mul_add_distr_l.
    now rewrite Nat.add_sub.
  - replace (n - 44)%nat with 0%nat by lia.
    now rewrite Nat.mul_0_r, Nat.sub_0_r.
Qed.

(** X24.  The encoder returns for every buffer, without a write outside
    the view: 44 bytes of header and two bytes per sample and channel.
    The header is the RIFF/WAVE header of 16-bit PCM: the four tags, the
    file length less 8, the format chunk of 16 bytes, and the length of
    the data chunk. *)
Theorem wav_size_and_header (buffer : AudioBuffer) :
  exists bytes,
    audioBufferToWavBytes buffer = Some bytes
    /\ List.length bytes
       = (44 + 2 * numberOfChannels buffer * length buffer)%nat
    /\ firstn 44 bytes = headerOf buffer
    /\ firstn 4 bytes = [82; 73; 70; 70]%Z
    /\ firstn 8 (skipn 8 bytes) = [87; 65; 86; 69; 102; 109; 116; 32]%Z
    /\ firstn 4 (skipn 36 bytes) = [100; 97; 116; 97]%Z
    /\ firstn 4 (skipn 40 bytes)
       = le32 (Z.of_nat (2 * numberOfChannels buffer * length buffer)).
Proof.
  rewrite audioBufferToWavBytes_closed. eexists. split; [reflexivity |].
  set (c := numberOfChannels buffer). set (n := length buffer).
  set (body := flat_map _ _ ++ repeat 0%Z _).
  assert (Hbody : List.length body = (2 * c * n)%nat).
  { unfold body. rewrite length_app, repeat_length.
    rewrite frames_length, length_seq.
    change (List.length (channelData buffer)) with c.
    destruct (Nat.min_spec 44 n) as [[H ->] | [H ->]].
    - assert (Hn : n = (44 + (n - 44))%nat) by lia.
      rewrite Hn at 2. rewrite (Nat.mul_add_distr_l (2 * c)). lia.
    - replace (n - 44)%nat with 0%nat by lia. lia. }
  split; [| split; [| split; [reflexivity | split; [reflexivity
                                            | split; [reflexivity |]]]]].
  - rewrite length_app, Hbody. reflexivity.
  - rewrite firstn_app, headerOf_length, Nat.sub_diag, firstn_O, app_nil_r.
    apply firstn_all2. rewrite headerOf_length. lia.
  - cbn [headerOf]. unfold headerOf. cbv zeta. cbn [le32 le16 app skipn firstn].
    fold c. fold n.
    replace (Z.of_nat n * Z.of_nat c * 2 + 44 - 44)%Z
      with (Z.of_nat (2 * c * n)) by lia.
    reflexivity.
Qed.

(** X25.  The data of the file does not begin with the first frame: the
    loop over the frames starts at the cursor the header left at 44, so
    the samples behind the header are those of frame 44 and the frames
    after it, channel by channel, and the file ends with the zeros of the
    frames that were not written.  A buffer of at most 44 frames encodes
    to zeros only. *)
Theorem wav_data_starts_at_frame_44 (buffer : AudioBuffer) :
  exists bytes,
    audioBufferToWavBytes buffer = Some bytes
    /\ skipn 44 bytes
       = flat_map (frameBytes (channelData buffer))
           (seq 44 (length buffer - 44))
         ++ repeat 0%Z (2 * numberOfChannels buffer
                        * Nat.min 44 (length buffer))
    /\ ((length buffer <= 44)%nat ->
        skipn 44 bytes
        = repeat 0%Z (2 * numberOfChannels buffer * length buffer)).
Proof.
  rewrite audioBufferToWavBytes_closed. eexists. split; [reflexivity |].
  assert (Hskip : forall body, skipn 44 (headerOf buffer ++ body) = body).
  { intro body. rewrite skipn_app, headerOf_length, Nat.sub_diag, skipn_O.
    rewrite skipn_all2 by (rewrite headerOf_length; lia). reflexivity. }
  rewrite Hskip. split; [reflexivity |].
  intro Hn. replace (length buffer - 44)%nat with 0%nat by lia.
  cbn [seq flat_map app]. now rewrite Nat.min_r by lia.
Qed.

Lemma wav_data_starts_at_frame_44_witness :
  exists bytes,
    audioBufferToWavBytes Examples.loudBuffer = Some bytes
    /\ skipn 44 bytes
       = repeat 0%Z (2 * numberOfChannels Examples.loudBuffer
                     * length Examples.loudBuffer).
Proof.
  destruct (wav_data_starts_at_frame_44 Examples.loudBuffer)
    as (bytes & H1 & _ & H3).
  exists bytes. split; [exact H1 |]. apply H3. cbn. lia.
Defined.

Lemma truncate_bounds (x : R) :
  (x < 0 -> x <= IZR (Format.truncate x) < x + 1)
  /\ (0 <= x -> x - 1 < IZR (Format.truncate x) <= x).
Proof.
  unfold Format.truncate. split; intro H.
  - rewrite (proj2 (Rltb_true x 0) H). unfold Zceil.
    pose proof (Zfloor_bound (- x)) as [H1 H2]. rewrite opp_IZR. lra.
  - rewrite (proj2 (Rltb_false x 0) H).
    pose proof (Zfloor_bound x) as [H1 H2]. lra.
Qed.

Lemma truncate_mono (x y : R) :
  x <= y -> (Format.truncate x <= Format.truncate y)%Z.
Proof.
  intro Hxy.
  destruct (truncate_bounds x) as [Hxn Hxp].
  destruct (truncate_bounds y) as [Hyn Hyp].
  destruct (Rlt_dec x 0) as [Hx | Hx]; destruct (Rlt_dec y 0) as [Hy | Hy].
  - unfold Format.truncate.
    rewrite (proj2 (Rltb_true x 0) Hx), (proj2 (Rltb_true y 0) Hy).
    now apply Zceil_le.
  - specialize (Hxn Hx). assert (Hy' : 0 <= y) by lra. specialize (Hyp Hy').
    assert (Format.truncate x < 1)%Z by (apply lt_IZR; lra).
    assert (-1 < Format.truncate y)%Z by (apply lt_IZR; lra).
    lia.
  - lra.
  - unfold Format.truncate.
    rewrite (proj2 (Rltb_false x 0)), (proj2 (Rltb_false y 0)) by lra.
    now apply Zfloor_le.
Qed.

(** A number whose integer part fits 32 bits is not wrapped. *)
Lemma toInt32_small (x : R) :
  (-2147483648 <= Format.truncate x < 2147483648)%Z ->
  toInt32 x = Format.truncate x.
Proof.
  intro H. unfold toInt32. rewrite Z.mod_small by lia. lia.
Qed.

Lemma clamp_unit (x : R) : -1 <= Rmax (-1) (Rmin 1 x) <= 1.
Proof.
  split; [apply Rmax_l |]. apply Rmax_lub; [lra | apply Rmin_l].
Qed.

Lemma clamp_mono (x y : R) :
  x <= y -> Rmax (-1) (Rmin 1 x) <= Rmax (-1) (Rmin 1 y).
Proof.
  intro H. apply Rmax_lub; [apply Rmax_l |].
  eapply Rle_trans; [| apply Rmax_r].
  apply Rmin_glb; [apply Rmin_l |].
  eapply Rle_trans; [apply Rmin_r | exact H].
Qed.

(** The scaled sample and its integer part. *)
Lemma quantise_truncate (x : R) :
  let sample := Rmax (-1) (Rmin 1 x) in
  let scaled := if Rltb (5 / 10 + sample) 0
                then sample * 32768 else sample * 32767 in
  quantise x = Format.truncate scaled
  /\ (-32768 <= Format.truncate scaled <= 32767)%Z.
Proof.
  cbv zeta. unfold quantise. cbv zeta.
  pose proof (clamp_unit x) as Hs.
  set (sample := Rmax (-1) (Rmin 1 x)) in *.
  set (scaled := if Rltb (5 / 10 + sample) 0
                 then sample * 32768 else sample * 32767).
  assert (Hr : (-32768 <= Format.truncate scaled <= 32767)%Z).
  { destruct (truncate_bounds scaled) as [Hn Hp].
    unfold scaled in *.
    destruct (Rltb (5 / 10 + sample) 0) eqn:E;
      [apply Rltb_true in E | apply Rltb_false in E].
    - assert (Hneg : sample * 32768 < 0) by lra. specialize (Hn Hneg).
      split.
      + apply le_IZR. lra.
      + assert (Format.truncate (sample * 32768) < 1)%Z
          by (apply lt_IZR; lra). lia.
    - destruct (Rlt_dec (sample * 32767) 0) as [Hneg | Hpos].
      + specialize (Hn Hneg). split.
        * apply le_IZR. lra.
        * assert (Format.truncate (sample * 32767) < 1)%Z
            by (apply lt_IZR; lra). lia.
      + assert (Hpos' : 0 <= sample * 32767) by lra. specialize (Hp Hpos').
        split.
        * assert (-1 < Format.truncate (sample * 32767))%Z
            by (apply lt_IZR; lra). lia.
        * apply le_IZR. lra. }
  split; [| exact Hr]. apply toInt32_small. lia.
Qed.

Lemma getInt16_le16 (z : Z) :
  (-32768 <= z <= 32767)%Z ->
  getInt16 (byteOf z 0) (byteOf z 1) = z.
Proof.
  intro H. unfold getInt16, byteOf. cbv zeta.
  change 255%Z with (Z.ones 8). rewrite !Z.land_ones by lia.
  rewrite !Z.shiftr_div_pow2 by lia.
  change (2 ^ (8 * 0))%Z with 1%Z. change (2 ^ (8 * 1))%Z with 256%Z.
  change (2 ^ 8)%Z with 256%Z. rewrite Z.div_1_r.
  destruct (Z.ltb_spec (z mod 256 + 256 * ((z / 256) mod 256)) 32768)
    as [Hlt | Hge]; Z.div_mod_to_equations; lia.
Qed.

(** X26.  Every sample is stored as a 16-bit integer that reads back as
    written: the value is between -32768 and 32767, it grows with the
    sample, full scale and beyond is stored as 32767 or -32768, and 0 as
    0. *)
Theorem quantise_is_int16 (x y : R) :
  (-32768 <= quantise x <= 32767)%Z
  /\ getInt16 (byteOf (quantise x) 0) (byteOf (quantise x) 1) = quantise x
  /\ (x <= y -> (quantise x <= quantise y)%Z)
  /\ (1 <= x -> quantise x = 32767%Z)
  /\ (x <= -1 -> quantise x = (-32768)%Z)
  /\ quantise 0 = 0%Z.
Proof.
  destruct (quantise_truncate x) as [Ex Rx]. cbv zeta in Ex, Rx.
  assert (Hrange : (-32768 <= quantise x <= 32767)%Z) by (rewrite Ex; exact Rx).
  split; [exact Hrange |]. split; [now apply getInt16_le16 |].
  split; [| split; [| split]].
  - intro Hxy. destruct (quantise_truncate y) as [Ey _]. cbv zeta in Ey.
    rewrite Ex, Ey. apply truncate_mono.
    pose proof (clamp_mono x y Hxy) as Hc.
    pose proof (clamp_unit x) as Hx1. pose proof (clamp_unit y) as Hy1.
    set (sx := Rmax (-1) (Rmin 1 x)) in *.
    set (sy := Rmax (-1) (Rmin 1 y)) in *.
    destruct (Rltb (5 / 10 + sx) 0) eqn:E1;
      [apply Rltb_true in E1 | apply Rltb_false in E1];
      (destruct (Rltb (5 / 10 + sy) 0) eqn:E2;
       [apply Rltb_true in E2 | apply Rltb_false in E2]); lra.
  - intro H1. rewrite Ex.
    rewrite Rmin_left, Rmax_right by lra.
    rewrite (proj2 (Rltb_false (5 / 10 + 1) 0)) by lra.
    unfold Format.truncate.
    rewrite (proj2 (Rltb_false (1 * 32767) 0)) by lra.
    apply Zfloor_eq. lra.
  - intro H1. rewrite Ex.
    rewrite Rmin_right, Rmax_left by lra.
    rewrite (proj2 (Rltb_true (5 / 10 + -1) 0)) by lra.
    unfold Format.truncate.
    rewrite (proj2 (Rltb_true (-1 * 32768) 0)) by lra.
    apply Zceil_eq. lra.
  - destruct (quantise_truncate 0) as [E0 _]. cbv zeta in E0. rewrite E0.
    rewrite Rmin_right, Rmax_right by lra.
    rewrite (proj2 (Rltb_false (5 / 10 + 0) 0)) by lra.
    unfold Format.truncate.
    rewrite (proj2 (Rltb_false (0 * 32767) 0)) by lra.
    apply Zfloor_eq. cbn [IZR]. lra.
Qed.

Lemma quantise_is_int16_witness :
  (quantise (1 / 2) <= quantise 2)%Z /\ quantise 2 = 32767%Z.
Proof.
  destruct (quantise_is_int16 (1 / 2) 2) as (_ & _ & H & _).
  destruct (quantise_is_int16 2 2) as (_ & _ & _ & H2 & _).
  split; [apply H; lra | apply H2; lra].
Defined.

End WavFacts.
